(** * KanbanBoard: task ordering store and command history

    A shallow embedding of the ordered-collection mutation engine of the
    board (server/storage.ts [MemStorage], server/routes.ts) and of the
    undo/redo log (client contexts/CommandHistoryContext.tsx), followed by
    the properties of the design document that were checked against it. *)

From Stdlib Require Import ZArith List String Ascii DecimalString Bool Lia.
From Stdlib Require Import Permutation Sorted.
Import ListNotations.
Local Open Scope string_scope.
Local Open Scope list_scope.
Local Open Scope Z_scope.

Set Implicit Arguments.

(* ===================================================================== *)
(** ** shared/schema.ts *)
(* ===================================================================== *)

(** [Task] as inferred from the [tasks] table.  [position] is a nullable
    integer column, so it is [number | null] in the code; timestamps are
    kept as integers. *)
Record Task := mkTask {
  id : Z;
  title : string;
  description : option string;
  status : string;
  type : string;
  position : option Z;
  dueDate : option Z;
  userId : option Z;
  createdAt : option Z
}.

(** [{ ...task, position: p }] *)
Definition with_position (t : Task) (p : option Z) : Task :=
  {| id := id t; title := title t; description := description t;
     status := status t; type := type t; position := p;
     dueDate := dueDate t; userId := userId t; createdAt := createdAt t |}.

(** [{ ...task, status, position: p }] *)
Definition with_status_position (t : Task) (s : string) (p : option Z) : Task :=
  {| id := id t; title := title t; description := description t;
     status := s; type := type t; position := p;
     dueDate := dueDate t; userId := userId t; createdAt := createdAt t |}.

(** [t.position || 0] : [null] and [0] both give [0]. *)
Definition pos0 (t : Task) : Z :=
  match position t with
  | Some p => p
  | None => 0
  end.

(** [InsertTask], the payload of task creation. *)
Record InsertTask := mkInsertTask {
  ins_title : string;
  ins_description : option string;
  ins_status : string;
  ins_type : string;
  ins_position : option Z;
  ins_dueDate : option Z;
  ins_userId : option Z
}.

(** [UpdateTask], the payload of PUT /api/tasks/:id.  An outer [None] is
    an absent field. *)
Record UpdateTask := mkUpdateTask {
  upd_title : string;
  upd_description : option (option string);
  upd_status : string;
  upd_type : string;
  upd_position : option (option Z);
  upd_dueDate : option (option Z);
  upd_userId : option (option Z)
}.

(* ===================================================================== *)
(** ** JavaScript arrays and [Map] *)
(* ===================================================================== *)

Module Js.

(** [Array.prototype.sort(cmp)] is stable: an element is placed before
    the first element it does not compare greater than. *)
Fixpoint insert_sorted {A : Type} (cmp : A -> A -> Z) (x : A) (l : list A) : list A :=
  match l with
  | [] => [x]
  | y :: r => if cmp x y <=? 0 then x :: y :: r else y :: insert_sorted cmp x r
  end.

Definition sort {A : Type} (cmp : A -> A -> Z) (l : list A) : list A :=
  fold_right (insert_sorted cmp) [] l.

(** [Array.prototype.findIndex]; [None] stands for [-1]. *)
Fixpoint findIndex {A : Type} (p : A -> bool) (l : list A) : option nat :=
  match l with
  | [] => None
  | x :: r => if p x then Some O
              else match findIndex p r with
                   | Some n => Some (S n)
                   | None => None
                   end
  end.

(** [arr.slice(0, n)] and [arr.slice(n)] for [0 <= n]. *)
Definition slice_to {A : Type} (n : nat) (l : list A) : list A := firstn n l.
Definition slice_from {A : Type} (n : nat) (l : list A) : list A := skipn n l.

(** [arr.map((t, idx) => f(t, idx))], the index counted from [i]. *)
Fixpoint mapi_from {A B : Type} (i : nat) (f : A -> nat -> B) (l : list A) : list B :=
  match l with
  | [] => []
  | x :: r => f x i :: mapi_from (S i) f r
  end.

(** A [Map<number, V>]: entries in insertion order. *)
Definition NumMap (V : Type) := list (Z * V).

Fixpoint get {V : Type} (k : Z) (m : NumMap V) : option V :=
  match m with
  | [] => None
  | (k', v) :: r => if k' =? k then Some v else get k r
  end.

(** [Map.prototype.set]: an existing key keeps its place in the
    iteration order, a new key goes last. *)
Fixpoint set {V : Type} (k : Z) (v : V) (m : NumMap V) : NumMap V :=
  match m with
  | [] => [(k, v)]
  | (k', v') :: r => if k' =? k then (k, v) :: r else (k', v') :: set k v r
  end.

Fixpoint delete {V : Type} (k : Z) (m : NumMap V) : NumMap V :=
  match m with
  | [] => []
  | (k', v') :: r => if k' =? k then r else (k', v') :: delete k r
  end.

(** [Array.from(m.values())] *)
Definition values {V : Type} (m : NumMap V) : list V := map snd m.

(** [s.includes(sub)] on strings. *)
Fixpoint includes (sub s : string) : bool :=
  if prefix sub s then true
  else match s with
       | EmptyString => false
       | String _ r => includes sub r
       end.

(** A [number] is an IEEE 754 double.  An integer of magnitude below 2^53
    is one; a larger integer is rounded to 53 significant bits, to the
    nearest and on a tie to the even one.  (For magnitudes below 2^1024,
    where the double is finite.)  Comparisons of two numbers and the sign of
    their difference are exact, so the comparators below are taken in [Z];
    array indices and the id counter stay far below 2^53. *)
Definition toDouble (z : Z) : Z :=
  let m := Z.abs z in
  if m <? 2 ^ 53 then z
  else
    let ulp := 2 ^ (Z.log2 m - 52) in
    let q := m / ulp in
    let r := m mod ulp in
    let q' := if 2 * r <? ulp then q
              else if ulp <? 2 * r then q + 1
              else if Z.even q then q else q + 1 in
    Z.sgn z * (q' * ulp).

(** [a + b] on two numbers that hold integers: the sum, rounded. *)
Definition plus (a b : Z) : Z := toDouble (a + b).

(** [Number.MAX_SAFE_INTEGER] *)
Definition MAX_SAFE_INTEGER : Z := 2 ^ 53 - 1.

(** [arr[i] = x] for an index inside the array. *)
Fixpoint assign {A : Type} (i : nat) (x : A) (l : list A) : list A :=
  match l, i with
  | [], _ => []
  | _ :: r, O => x :: r
  | y :: r, S i' => y :: assign i' x r
  end.

(** [arr.splice(i, 1)]: the array without its element at [i]. *)
Fixpoint removeAt {A : Type} (i : nat) (l : list A) : list A :=
  match l, i with
  | [], _ => []
  | _ :: r, O => r
  | y :: r, S i' => y :: removeAt i' r
  end.

(** [arr.splice(i, 0, x)]: [x] put in at index [i] (at the end when [i]
    is the length or more). *)
Fixpoint insertAt {A : Type} (i : nat) (x : A) (l : list A) : list A :=
  match l, i with
  | [], _ => [x]
  | _, O => x :: l
  | y :: r, S i' => y :: insertAt i' x r
  end.

End Js.

(* ===================================================================== *)
(** ** server/storage.ts : MemStorage *)
(* ===================================================================== *)

Module Storage.

Record MemStorage := mkStore {
  tasks : Js.NumMap Task;
  taskCurrentId : Z
}.

Definition with_tasks (s : MemStorage) (m : Js.NumMap Task) : MemStorage :=
  {| tasks := m; taskCurrentId := taskCurrentId s |}.

(** [(a, b) => (a.position || 0) - (b.position || 0)] *)
Definition byPosition (a b : Task) : Z := pos0 a - pos0 b.

Definition getAllTasks (s : MemStorage) : list Task := Js.values (tasks s).

Definition getTasksByStatus (s : MemStorage) (st : string) : list Task :=
  filter (fun t => String.eqb (status t) st) (Js.values (tasks s)).

Definition getTask (s : MemStorage) (i : Z) : option Task := Js.get i (tasks s).

(** The column view every operation builds: filter by status, sort by
    position. *)
Definition column (m : Js.NumMap Task) (st : string) : list Task :=
  Js.sort byPosition (filter (fun t => String.eqb (status t) st) (Js.values m)).

(** [Math.max(...xs)] over a non-empty list. *)
Definition max_list (xs : list Z) : Z :=
  match xs with
  | [] => 0
  | x :: r => fold_left Z.max r x
  end.

(** [x || null] on an optional string and on an optional number: the
    empty string and [0] are falsy. *)
Definition str_or_null (x : option string) : option string :=
  match x with
  | Some d => if String.eqb d "" then None else Some d
  | None => None
  end.

Definition num_or_null (x : option Z) : option Z :=
  match x with
  | Some n => if n =? 0 then None else Some n
  | None => None
  end.

(** [now] is what [new Date()] returns. *)
Definition createTask (s : MemStorage) (now : Z) (ins : InsertTask) : MemStorage * Task :=
  let i := taskCurrentId s in
  let tasksInColumn :=
    filter (fun t => String.eqb (status t) (ins_status ins)) (Js.values (tasks s)) in
  let p :=
    match ins_position ins with
    | Some p => p
    | None =>
        match tasksInColumn with
        | [] => 0
        | _ => Js.plus (max_list (map pos0 tasksInColumn)) 1
        end
    end in
  let task :=
    {| id := i; title := ins_title ins;
       description := str_or_null (ins_description ins);
       status := ins_status ins; type := ins_type ins; position := Some p;
       dueDate := ins_dueDate ins; userId := num_or_null (ins_userId ins);
       createdAt := Some now |} in
  ({| tasks := Js.set i task (tasks s); taskCurrentId := i + 1 |}, task).

(** The special-case comparator of STEP 3 of [updateTaskStatus]. *)
Definition moveCmp (i : Z) (a b : Task) : Z :=
  if id a =? i then pos0 a - (if id b =? i then pos0 a else pos0 b)
  else if id b =? i then (if id a =? i then pos0 b else pos0 a) - pos0 b
  else pos0 a - pos0 b.

(** The loop of the [!toTop] branch: position := array index, written
    only when it differs. *)
Fixpoint renumber (i : Z) (l : list Task) (m : Js.NumMap Task) : Js.NumMap Task :=
  match l with
  | [] => m
  | t :: r =>
      let m' := match position t with
                | Some p => if p =? i then m
                            else Js.set (id t) (with_position t (Some i)) m
                | None => Js.set (id t) (with_position t (Some i)) m
                end in
      renumber (i + 1) r m'
  end.

(** The loop of the [toTop] branch: every task but the moved one is
    shifted down by one. *)
Fixpoint shiftDown (moved : Z) (l : list Task) (m : Js.NumMap Task) : Js.NumMap Task :=
  match l with
  | [] => m
  | t :: r =>
      let m' := if id t =? moved then m
                else Js.set (id t) (with_position t (Some (Js.plus (pos0 t) 1))) m in
      shiftDown moved r m'
  end.

(** [if (targetTaskId)]: defined and non-zero. *)
Definition truthy (o : option Z) : bool :=
  match o with
  | Some n => negb (n =? 0)
  | None => false
  end.

Definition is_undefined {A : Type} (o : option A) : bool :=
  match o with Some _ => false | None => true end.

(** Lines 230-247 of [updateTaskStatus]: the raw position the moved
    task takes and whether it is a top placement.  Top is the default
    when neither a position nor a target is given. *)
Definition placement (m : Js.NumMap Task) (targetPosition targetTaskId : option Z)
  : Z * bool :=
  let insertPosition := 0 in
  let toTop := is_undefined targetPosition && is_undefined targetTaskId in
  if truthy targetTaskId then
    match Js.get (match targetTaskId with Some n => n | None => 0 end) m with
    | Some targetTask => (pos0 targetTask, false)
    | None => (insertPosition, toTop)
    end
  else match targetPosition with
       | Some p => (p, toTop)
       | None => (insertPosition, toTop)
       end.

Definition updateTaskStatus (s : MemStorage) (i : Z) (st : string)
    (targetPosition targetTaskId : option Z) (placeBefore : bool)
  : MemStorage * option Task :=
  match Js.get i (tasks s) with
  | None => (s, None)
  | Some task =>
      let '(insertPosition, toTop) := placement (tasks s) targetPosition targetTaskId in
      let updatedTask := with_status_position task st (Some insertPosition) in
      let m1 := Js.set i updatedTask (tasks s) in
      let tasksInTargetColumn := column m1 st in
      let finalTasksOrdering := Js.sort (moveCmp i) tasksInTargetColumn in
      let m2 := if negb toTop then renumber 0 finalTasksOrdering m1
                else shiftDown i tasksInTargetColumn m1 in
      (with_tasks s m2, Some updatedTask)
  end.

Definition updateTaskPosition (s : MemStorage) (i : Z) (p : Z)
  : MemStorage * option Task :=
  match Js.get i (tasks s) with
  | None => (s, None)
  | Some task =>
      let updatedTask := with_position task (Some p) in
      (with_tasks s (Js.set i updatedTask (tasks s)), Some updatedTask)
  end.

(** [updatedTasks.map((t, idx) => { ...; this.tasks.set(t.id, updatedTask);
    return updatedTask })]: the store after the writes. *)
Fixpoint writeIndexed (i : nat) (l : list Task) (m : Js.NumMap Task) : Js.NumMap Task :=
  match l with
  | [] => m
  | t :: r => writeIndexed (S i) r (Js.set (id t) (with_position t (Some (Z.of_nat i))) m)
  end.

Definition reorderTaskInColumn (s : MemStorage) (taskId targetTaskId : Z)
    (placeAfter : bool) : MemStorage * list Task :=
  match Js.get taskId (tasks s), Js.get targetTaskId (tasks s) with
  | Some task, Some targetTask =>
      if negb (String.eqb (status task) (status targetTask)) then
        (s, column (tasks s) (status task))
      else
        let tasksInColumn := column (tasks s) (status task) in
        let updatedTasks := filter (fun t => negb (id t =? id task)) tasksInColumn in
        match Js.findIndex (fun t => id t =? id targetTask) updatedTasks with
        | None => (s, tasksInColumn)
        | Some targetIndex =>
            let insertPosition := if placeAfter then S targetIndex else targetIndex in
            let updatedTasks' :=
              Js.slice_to insertPosition updatedTasks ++ [task]
                ++ Js.slice_from insertPosition updatedTasks in
            let result :=
              Js.mapi_from 0 (fun t idx => with_position t (Some (Z.of_nat idx))) updatedTasks' in
            (with_tasks s (writeIndexed 0 updatedTasks' (tasks s)), result)
        end
  | Some task, None => (s, column (tasks s) (status task))
  | None, Some targetTask => (s, column (tasks s) (status targetTask))
  | None, None => (s, column (tasks s) "")
  end.

Definition deleteTask (s : MemStorage) (i : Z) : MemStorage * bool :=
  match Js.get i (tasks s) with
  | Some _ => (with_tasks s (Js.delete i (tasks s)), true)
  | None => (s, false)
  end.

(** [updateTask]: an absent ([undefined]) field of the payload keeps the
    stored value where the code says so; [Some None] is an explicit
    [null]. *)
Definition updateTask (s : MemStorage) (i : Z) (u : UpdateTask) : MemStorage * option Task :=
  match Js.get i (tasks s) with
  | None => (s, None)
  | Some task =>
      let updatedTask :=
        {| id := id task;
           title := upd_title u;
           description := match upd_description u with
                          | Some d => d
                          | None => description task
                          end;
           status := upd_status u;
           type := upd_type u;
           position := match upd_position u with
                       | Some p => p
                       | None => position task
                       end;
           dueDate := match upd_dueDate u with
                      | Some d => d
                      | None => dueDate task
                      end;
           userId := match upd_userId u with
                     | Some x => x
                     | None => userId task
                     end;
           createdAt := createdAt task |} in
      (with_tasks s (Js.set i updatedTask (tasks s)), Some updatedTask)
  end.

(** The constructor: empty maps, ids from 1, then the sample tasks. *)
Definition empty : MemStorage := {| tasks := []; taskCurrentId := 1 |}.

Definition sample (ti d st ty : string) (p : Z) (due : option Z) : InsertTask :=
  mkInsertTask ti (Some d) st ty (Some p) due None.

Definition sampleTasks : list InsertTask :=
  [ sample "Implement drag and drop functionality"
      "Create a custom drag and drop system that works on both desktop and mobile devices."
      "todo" "feature" 0 (Some 1697846400);
    sample "Fix mobile responsiveness issues"
      "Board doesn't render correctly on small screens. Implement responsive design."
      "todo" "bug" 1 (Some 1697587200);
    sample "Add visual feedback to drag operations"
      "Create visual indicators when dragging cards between columns."
      "todo" "enhancement" 2 (Some 1697932800);
    sample "Research touch events implementation"
      "Explore best practices for implementing touch events for mobile drag and drop functionality."
      "todo" "research" 3 (Some 1697760000);
    sample "Set up basic column structure"
      "Create the three main columns (To Do, In Progress, Done) with header styling."
      "in-progress" "feature" 0 (Some 1697673600);
    sample "Create API documentation"
      "Document all the server endpoints used for data persistence."
      "in-progress" "documentation" 1 (Some 1698019200);
    sample "Implement task edit functionality"
      "Create a form for editing existing task cards with validation."
      "in-progress" "enhancement" 2 (Some 1697760000);
    sample "Set up project structure"
      "Initialize React project with Tailwind CSS and set up folder structure."
      "done" "feature" 0 None;
    sample "Design card and column UI"
      "Create the visual design for task cards and columns using Tailwind CSS."
      "done" "enhancement" 1 None ].

Definition initializeSampleTasks (now : Z) (s : MemStorage) : MemStorage :=
  fold_left (fun s ins => fst (createTask s now ins)) sampleTasks s.

Definition initial (now : Z) : MemStorage := initializeSampleTasks now empty.

(** The calls of the [IStorage] interface that write. *)
Inductive Op :=
| OpCreateTask (now : Z) (ins : InsertTask)
| OpUpdateTask (i : Z) (u : UpdateTask)
| OpUpdateTaskStatus (i : Z) (st : string) (targetPosition targetTaskId : option Z)
    (placeBefore : bool)
| OpUpdateTaskPosition (i : Z) (p : Z)
| OpReorderTaskInColumn (taskId targetTaskId : Z) (placeAfter : bool)
| OpDeleteTask (i : Z).

Definition step (s : MemStorage) (o : Op) : MemStorage :=
  match o with
  | OpCreateTask now ins => fst (createTask s now ins)
  | OpUpdateTask i u => fst (updateTask s i u)
  | OpUpdateTaskStatus i st tp tg pb => fst (updateTaskStatus s i st tp tg pb)
  | OpUpdateTaskPosition i p => fst (updateTaskPosition s i p)
  | OpReorderTaskInColumn a b pa => fst (reorderTaskInColumn s a b pa)
  | OpDeleteTask i => fst (deleteTask s i)
  end.

(** The states the singleton [storage] can be in. *)
Inductive reachable : MemStorage -> Prop :=
| reach_initial : forall now, reachable (initial now)
| reach_step : forall s o, reachable s -> reachable (step s o).

(** The shape every reachable [tasks] map has: keys are distinct, each
    entry is stored under its own id, and ids already handed out are
    below the counter. *)
Definition keys {V : Type} (m : Js.NumMap V) : list Z := map fst m.

Definition keyed (m : Js.NumMap Task) : Prop :=
  Forall (fun e => id (snd e) = fst e) m.

Definition wf_map (m : Js.NumMap Task) : Prop := NoDup (keys m) /\ keyed m.

Definition wf (s : MemStorage) : Prop :=
  wf_map (tasks s) /\ Forall (fun k => k < taskCurrentId s) (keys (tasks s)).

(** The positions of a column, top to bottom. *)
Definition positions (m : Js.NumMap Task) (st : string) : list (option Z) :=
  map position (column m st).

(** [0, 1, ..., n-1] as stored positions. *)
Definition dense (n : nat) : list (option Z) :=
  map (fun k => Some (Z.of_nat k)) (seq 0 n).

End Storage.

(* ===================================================================== *)
(** ** server/routes.ts *)
(* ===================================================================== *)

Module Routes.

Inductive Payload :=
| PTask (t : Task)
| PTasks (l : list Task)
| PMessage (m : string)
| PEmpty.

Record Response := mkResponse { code : Z; payload : Payload }.

(** The body of PATCH /api/tasks/:id/status after schema validation:
    every field but [status] is optional. *)
Record StatusBody := mkStatusBody {
  b_status : string;
  b_targetTaskId : option Z;
  b_position : option Z;
  b_toTop : option bool;
  b_forceTop : option bool;
  b_isNewColumn : option bool;
  b_placeBefore : option bool
}.

(** The body of POST /api/tasks/:id/reorder. *)
Record ReorderBody := mkReorderBody {
  r_targetTaskId : Z;
  r_position : option string
}.

(** A boolean parameter with default [false] receiving [x]. *)
Definition default_false (x : option bool) : bool :=
  match x with Some b => b | None => false end.

(** [parseInt(req.params.id)] is [None] when it is [NaN]. *)
Definition patchStatus (s : Storage.MemStorage) (idParam : option Z) (b : StatusBody)
  : Storage.MemStorage * Response :=
  match idParam with
  | None => (s, mkResponse 400 (PMessage "Invalid task ID"))
  | Some i =>
      match Storage.getTask s i with
      | None => (s, mkResponse 404 (PMessage "Task not found"))
      | Some task =>
          let json (r : Storage.MemStorage * option Task) :=
            (fst r, mkResponse 200 (match snd r with Some t => PTask t | None => PEmpty end)) in
          if negb (String.eqb (status task) (b_status b)) then
            if Storage.truthy (b_targetTaskId b) then
              json (Storage.updateTaskStatus s i (b_status b) None (b_targetTaskId b)
                      (default_false (b_placeBefore b)))
            else if negb (Storage.is_undefined (b_position b)) then
              json (Storage.updateTaskStatus s i (b_status b) (b_position b) None false)
            else if default_false (b_toTop b) || default_false (b_forceTop b)
                    || default_false (b_isNewColumn b) then
              json (Storage.updateTaskStatus s i (b_status b) None None false)
            else
              json (Storage.updateTaskStatus s i (b_status b) None None false)
          else if Storage.truthy (b_targetTaskId b) then
            let placeAfter := match b_placeBefore b with
                              | None => false
                              | Some pb => negb pb
                              end in
            let '(s', reorderedTasks) :=
              Storage.reorderTaskInColumn s i
                (match b_targetTaskId b with Some n => n | None => 0 end) placeAfter in
            (s', mkResponse 200
                   (PTask (match find (fun t => id t =? i) reorderedTasks with
                           | Some updatedTask => updatedTask
                           | None => task
                           end)))
          else
            json (Storage.updateTaskStatus s i (b_status b) (b_position b)
                    (b_targetTaskId b) (default_false (b_placeBefore b)))
      end
  end.

Definition patchPosition (s : Storage.MemStorage) (idParam : option Z) (p : Z)
  : Storage.MemStorage * Response :=
  match idParam with
  | None => (s, mkResponse 400 (PMessage "Invalid task ID"))
  | Some i =>
      match Storage.updateTaskPosition s i p with
      | (s', Some updatedTask) => (s', mkResponse 200 (PTask updatedTask))
      | (s', None) => (s', mkResponse 404 (PMessage "Task not found"))
      end
  end.

Definition postReorder (s : Storage.MemStorage) (idParam : option Z) (b : ReorderBody)
  : Storage.MemStorage * Response :=
  match idParam with
  | None => (s, mkResponse 400 (PMessage "Invalid task ID"))
  | Some i =>
      if i =? r_targetTaskId b then
        (s, mkResponse 400 (PMessage "Cannot reorder a task with itself"))
      else
        match Storage.getTask s i, Storage.getTask s (r_targetTaskId b) with
        | Some sourceTask, Some targetTask =>
            let isMovingDown :=
              String.eqb (status sourceTask) (status targetTask)
              && (pos0 sourceTask <? pos0 targetTask) in
            let positionIs (w : string) := match r_position b with
                                   | Some p => String.eqb p w
                                   | None => false
                                   end in
            let placeAfter := positionIs "after" || (isMovingDown && negb (positionIs "before")) in
            let '(s', updatedTasks) :=
              Storage.reorderTaskInColumn s i (r_targetTaskId b) placeAfter in
            (s', mkResponse 200 (PTasks updatedTasks))
        | _, _ => (s, mkResponse 404 (PMessage "Source or target task not found"))
        end
  end.

Definition getTasks (s : Storage.MemStorage) : Response :=
  mkResponse 200 (PTasks (Storage.getAllTasks s)).

Definition getTaskById (s : Storage.MemStorage) (idParam : option Z) : Response :=
  match idParam with
  | None => mkResponse 400 (PMessage "Invalid task ID")
  | Some i =>
      match Storage.getTask s i with
      | None => mkResponse 404 (PMessage "Task not found")
      | Some task => mkResponse 200 (PTask task)
      end
  end.

(** The body of POST /api/tasks and of PUT /api/tasks/:id.  Neither route
    validates it; [title], [status] and [type] are taken as sent, a [None]
    is a field that is absent or [null]. *)
Record TaskBody := mkTaskBody {
  tb_title : string;
  tb_description : option string;
  tb_status : string;
  tb_type : string;
  tb_position : option Z;
  tb_dueDate : option Z;
  tb_userId : option Z
}.

(** POST /api/tasks: the "safe payload" applies [|| null] to every optional
    field, then the task is created. *)
Definition postTask (s : Storage.MemStorage) (now : Z) (b : TaskBody)
  : Storage.MemStorage * Response :=
  let safePayload :=
    mkInsertTask (tb_title b) (Storage.str_or_null (tb_description b)) (tb_status b)
      (tb_type b) (Storage.num_or_null (tb_position b)) (tb_dueDate b)
      (Storage.num_or_null (tb_userId b)) in
  let '(s', task) := Storage.createTask s now safePayload in
  (s', mkResponse 201 (PTask task)).

(** PUT /api/tasks/:id: the same safe payload, so every optional field
    reaches [updateTask] defined (a value or [null]), never absent. *)
Definition putTask (s : Storage.MemStorage) (idParam : option Z) (b : TaskBody)
  : Storage.MemStorage * Response :=
  match idParam with
  | None => (s, mkResponse 400 (PMessage "Invalid task ID"))
  | Some i =>
      let safePayload :=
        mkUpdateTask (tb_title b) (Some (Storage.str_or_null (tb_description b)))
          (tb_status b) (tb_type b) (Some (Storage.num_or_null (tb_position b)))
          (Some (tb_dueDate b)) (Some (Storage.num_or_null (tb_userId b))) in
      match Storage.updateTask s i safePayload with
      | (s', Some updatedTask) => (s', mkResponse 200 (PTask updatedTask))
      | (s', None) => (s', mkResponse 404 (PMessage "Task not found"))
      end
  end.

(** DELETE /api/tasks/:id *)
Definition deleteTaskById (s : Storage.MemStorage) (idParam : option Z)
  : Storage.MemStorage * Response :=
  match idParam with
  | None => (s, mkResponse 400 (PMessage "Invalid task ID"))
  | Some i =>
      match Storage.deleteTask s i with
      | (s', true) => (s', mkResponse 204 PEmpty)
      | (s', false) => (s', mkResponse 404 (PMessage "Task not found"))
      end
  end.

(** GET /api/tasks/status/:status *)
Definition getTasksOfStatus (s : Storage.MemStorage) (st : string) : Response :=
  mkResponse 200 (PTasks (Storage.getTasksByStatus s st)).

End Routes.

(* ===================================================================== *)
(** ** client/src/contexts/CommandHistoryContext.tsx *)
(* ===================================================================== *)

Module Client.

(** *** Asynchronous code with exceptions

    An [async] function over a state [S] either resolves with a value or
    rejects with an error; what it did to the state before rejecting
    stays done. *)

Inductive Result (A : Type) :=
| Resolved (a : A)
| Rejected (e : string).
Arguments Resolved {A} a.
Arguments Rejected {A} e.

Definition M (S A : Type) : Type := S -> Result A * S.

Definition ret {S A : Type} (a : A) : M S A := fun s => (Resolved a, s).

Definition throw {S A : Type} (e : string) : M S A := fun s => (Rejected e, s).

Definition bind {S A B : Type} (c : M S A) (k : A -> M S B) : M S B :=
  fun s => match c s with
           | (Resolved a, s') => k a s'
           | (Rejected e, s') => (Rejected e, s')
           end.

(** [try { c } catch (error) { h(error) }] *)
Definition tryCatch {S A : Type} (c : M S A) (h : string -> M S A) : M S A :=
  fun s => match c s with
           | (Resolved a, s') => (Resolved a, s')
           | (Rejected e, s') => h e s'
           end.

Declare Scope async_scope.
Delimit Scope async_scope with async.
Notation "x <- c ;; k" := (bind c (fun x => k))
  (at level 61, c at next level, right associativity) : async_scope.
Notation "c ;; k" := (bind c (fun _ => k))
  (at level 61, right associativity) : async_scope.
Local Open Scope async_scope.

(** *** What the commands talk to

    [apiRequest] and [queryClient] come from [@/lib/queryClient], which
    is not modelled: they are taken as an interface.
    [World] is everything behind it (server, network, query cache). *)

Inductive Request :=
| GetTasks
| GetTaskById (i : Z)
| PatchStatus (i : Z) (b : Routes.StatusBody)
| PostReorder (i : Z) (b : Routes.ReorderBody).

Class Env := {
  World : Type;
  Resp : Type;
  apiRequest : Request -> M World Resp;
  (** [queryClient.invalidateQueries({ queryKey: ['/api/tasks'] })] *)
  invalidateQueries : M World unit;
  (** [response && typeof response === 'object'] *)
  isObject : Resp -> bool
}.

Section Commands.
Context {env : Env}.

(** The [Command] interface. *)
Record Command := mkCommand {
  execute : M World unit;
  undo : M World unit;
  description : string
}.

(** **** MoveTaskCommand *)

Record MoveTaskCommand := mkMove {
  taskId : Z;
  taskTitle : string;
  sourceStatus : string;
  targetStatus : string;
  customExecuteFn : option (Resp + Z -> string -> M World unit)
}.

(** The constructor's [taskObj : Task | number], or anything else. *)
Inductive TaskObj :=
| ObjNumber (n : Z)
| ObjTask (t : Task)
| ObjInvalid.

Definition string_of_Z (n : Z) : string := NilZero.string_of_int (Z.to_int n).

Definition newMoveTaskCommand (taskObj : TaskObj) (src tgt : string)
    (fn : option (Resp + Z -> string -> M World unit)) : MoveTaskCommand :=
  match taskObj with
  | ObjNumber n =>
      mkMove n (String.append "Task #" (string_of_Z n)) src tgt fn
  | ObjTask t =>
      mkMove (id t)
        (if String.eqb (title t) "" then String.append "Task #" (string_of_Z (id t))
         else title t)
        src tgt fn
  | ObjInvalid => mkMove (-1) "Unknown Task" src tgt fn
  end.

Definition dquote : string := String (ascii_of_nat 34) EmptyString.

Definition move_description (c : MoveTaskCommand) : string :=
  String.append "Move task "
    (String.append dquote
       (String.append (taskTitle c)
          (String.append dquote
             (String.append " from "
                (String.append (sourceStatus c)
                   (String.append " to " (targetStatus c))))))).

(** The body both [execute] (default path) and [undo] send. *)
Definition forceTopBody (st : string) : Routes.StatusBody :=
  Routes.mkStatusBody st None (Some 0) None (Some true) None None.

(** [taskId] is a number by construction, so the validation is the sign
    test. *)
Definition move_execute (c : MoveTaskCommand) : M World unit :=
  if taskId c <=? 0 then throw "Invalid task ID"
  else
    tryCatch
      ((match customExecuteFn c with
        | Some fn =>
            tryCatch
              (response <- apiRequest (GetTaskById (taskId c)) ;;
               if isObject response then fn (inl response) (targetStatus c)
               else fn (inr (taskId c)) (targetStatus c))
              (fun _ => fn (inr (taskId c)) (targetStatus c))
        | None =>
            _ <- apiRequest (PatchStatus (taskId c) (forceTopBody (targetStatus c))) ;;
            ret tt
        end) ;;
       invalidateQueries)
      (fun error => throw error).

Definition move_undo (c : MoveTaskCommand) : M World unit :=
  if taskId c <=? 0 then throw "Invalid task ID"
  else
    tryCatch
      (_ <- apiRequest (PatchStatus (taskId c) (forceTopBody (sourceStatus c))) ;;
       invalidateQueries)
      (fun _ => ret tt).

Definition MoveTaskCommand_as_Command (c : MoveTaskCommand) : Command :=
  {| execute := move_execute c;
     undo := move_undo c;
     description := move_description c |}.

(** **** ReorderTaskCommand

    [newOrder] is a private field that [execute] assigns and nothing
    reads; only the request that fetches it is kept. *)

Record ReorderTaskCommand := mkReorder {
  r_status : string;
  allTasks : list Task;
  executeFn : M World unit
}.

(** The snapshot taken by the constructor. *)
Definition previousOrder (c : ReorderTaskCommand) : list Task :=
  Js.sort Storage.byPosition
    (filter (fun t => String.eqb (status t) (r_status c)) (allTasks c)).

Definition reorder_execute (c : ReorderTaskCommand) : M World unit :=
  tryCatch
    (executeFn c ;;
     invalidateQueries ;;
     _ <- apiRequest GetTasks ;;
     ret tt)
    (fun error => throw error).

Definition reorder_undo (c : ReorderTaskCommand) : M World unit :=
  tryCatch invalidateQueries (fun error => throw error).

Definition ReorderTaskCommand_as_Command (c : ReorderTaskCommand) : Command :=
  {| execute := reorder_execute c;
     undo := reorder_undo c;
     description := String.append "Reorder task in "
                      (String.append (r_status c) " column") |}.

(** **** CommandHistoryProvider *)

Record Toast := mkToast {
  toast_title : string;
  toast_description : string;
  destructive : bool
}.

(** The provider's React state ([commandHistory] is the log's [past],
    [redoStack] its [future]), the toasts shown so far, and the world
    the commands act on.  Calls do not overlap, so the state a callback
    closes over is the current one. *)
Record Provider := mkProvider {
  world : World;
  commandHistory : list Command;
  redoStack : list Command;
  toasts : list Toast
}.

Definition canUndo (p : Provider) : bool := (0 <? List.length (commandHistory p))%nat.
Definition canRedo (p : Provider) : bool := (0 <? List.length (redoStack p))%nat.

(** [await command.execute()] inside the provider. *)
Definition await {A : Type} (c : M World A) : M Provider A :=
  fun p => let '(r, w) := c (world p) in
           (r, mkProvider w (commandHistory p) (redoStack p) (toasts p)).

Definition setCommandHistory (f : list Command -> list Command) : M Provider unit :=
  fun p => (Resolved tt, mkProvider (world p) (f (commandHistory p)) (redoStack p) (toasts p)).

Definition setRedoStack (f : list Command -> list Command) : M Provider unit :=
  fun p => (Resolved tt, mkProvider (world p) (commandHistory p) (f (redoStack p)) (toasts p)).

Definition toast (t : Toast) : M Provider unit :=
  fun p => (Resolved tt, mkProvider (world p) (commandHistory p) (redoStack p) (toasts p ++ [t])).

Definition executeCommand (command : Command) : M Provider unit :=
  tryCatch
    (await (execute command) ;;
     setCommandHistory (fun prev => prev ++ [command]) ;;
     setRedoStack (fun _ => []))
    (fun _ =>
       let isDragOperation := Js.includes "Move task" (description command) in
       if negb isDragOperation then
         toast (mkToast "Action failed" "Could not complete the requested action." true)
       else ret tt).

(** The provider's [undo]; the name is taken by the [Command] field. *)
Definition undoLast : M Provider unit :=
  fun p =>
    if negb (canUndo p) then (Resolved tt, p)
    else
      match last (map Some (commandHistory p)) None with
      | None =>
          (* [undefined.undo()] would throw inside the [try]; not reached
             when [canUndo] holds *)
          toast (mkToast "Undo failed" "Could not undo the last action." true) p
      | Some lastCommand =>
          tryCatch
            (await (undo lastCommand) ;;
             setCommandHistory (fun prev => removelast prev) ;;
             setRedoStack (fun prev => prev ++ [lastCommand]) ;;
             toast (mkToast "Undo successful"
                      (String.append "Undid: " (description lastCommand)) false))
            (fun _ =>
               toast (mkToast "Undo failed" "Could not undo the last action." true))
            p
      end.

(** The provider's [redo]. *)
Definition redoLast : M Provider unit :=
  fun p =>
    if negb (canRedo p) then (Resolved tt, p)
    else
      match last (map Some (redoStack p)) None with
      | None =>
          toast (mkToast "Redo failed" "Could not redo the action." true) p
      | Some lastUndoneCommand =>
          tryCatch
            (await (execute lastUndoneCommand) ;;
             setRedoStack (fun prev => removelast prev) ;;
             setCommandHistory (fun prev => prev ++ [lastUndoneCommand]) ;;
             toast (mkToast "Redo successful"
                      (String.append "Redid: " (description lastUndoneCommand)) false))
            (fun _ =>
               toast (mkToast "Redo failed" "Could not redo the action." true))
            p
      end.

(** **** middleware/commandHistory.ts

    The middleware keeps the two stacks under [state.commandHistory].  Its
    EXECUTE_COMMAND case awaits [command.execute()] and then builds the
    [updatedState] below from the state it reads and dispatches
    EXECUTE_COMMAND_SUCCESS; it does not store the object itself. *)

Record CommandHistoryState := mkHistory {
  past : list Command;
  future : list Command
}.

Definition execute_updatedState (state : CommandHistoryState) (command : Command)
  : CommandHistoryState :=
  {| past := past state ++ [command]; future := [] |}.

End Commands.

End Client.

(* ===================================================================== *)
(** ** Column order: hooks/useColumnReordering.ts and pages/KanbanBoard.tsx *)
(* ===================================================================== *)

Module Columns.

(** [ColumnData] of lib/types. *)
Record ColumnData := mkColumn {
  id : string;
  title : string;
  colorClass : string;
  tasks : list Task;
  index : Z
}.

(** [{ ...col, index }] *)
Definition with_index (col : ColumnData) (i : nat) : ColumnData :=
  {| id := id col; title := title col; colorClass := colorClass col;
     tasks := tasks col; index := Z.of_nat i |}.

(** [{ ...col, tasks }] *)
Definition with_tasks (col : ColumnData) (ts : list Task) : ColumnData :=
  {| id := id col; title := title col; colorClass := colorClass col;
     tasks := ts; index := index col |}.

(** [cols.map((col, index) => ({ ...col, index }))] *)
Definition reindex (cols : list ColumnData) : list ColumnData :=
  Js.mapi_from 0 with_index cols.

(** The hook's initial state. *)
Definition initialState (initialColumns : list ColumnData) : list ColumnData :=
  reindex initialColumns.

(** [updateColumnData], the updater passed to [setColumns]. *)
Definition updateColumnData (newInitialColumns prevColumns : list ColumnData)
  : list ColumnData :=
  let existingColumnIds := map id prevColumns in
  let newColumns :=
    filter (fun newCol => negb (existsb (String.eqb (id newCol)) existingColumnIds))
      newInitialColumns in
  let updatedExistingColumns :=
    map (fun col =>
           match find (fun newCol => String.eqb (id newCol) (id col)) newInitialColumns with
           | Some newData => with_tasks col (tasks newData)
           | None => col
           end) prevColumns in
  match newColumns with
  | [] => updatedExistingColumns
  | _ =>
      let columnsToAdd :=
        Js.mapi_from 0
          (fun newCol idx => with_index newCol (List.length updatedExistingColumns + idx))
          newColumns in
      updatedExistingColumns ++ columnsToAdd
  end.

(** [swapColumns], the updater passed to [setColumns].  The two elements
    are read before either is written. *)
Definition swapColumns (sourceId targetId : string) (prevColumns : list ColumnData)
  : list ColumnData :=
  match Js.findIndex (fun col => String.eqb (id col) sourceId) prevColumns,
        Js.findIndex (fun col => String.eqb (id col) targetId) prevColumns with
  | Some sourceIndex, Some targetIndex =>
      match nth_error prevColumns sourceIndex, nth_error prevColumns targetIndex with
      | Some atSource, Some atTarget =>
          reindex (Js.assign targetIndex atSource
                     (Js.assign sourceIndex atTarget prevColumns))
      | _, _ => prevColumns (* not reached: both indices come from [findIndex] *)
      end
  | _, _ => prevColumns
  end.

(** The hook's state: the columns and the column being dragged. *)
Record HookState := mkHook {
  columns : list ColumnData;
  draggedColumnId : option string
}.

Definition handleDragStart (columnId : string) (h : HookState) : HookState :=
  mkHook (columns h) (Some columnId).

(** [!draggedColumnId] also holds for the empty string. *)
Definition handleDragOver (targetColumnId : string) (h : HookState) : HookState :=
  match draggedColumnId h with
  | None => h
  | Some dragged =>
      if String.eqb dragged "" || String.eqb targetColumnId dragged then h
      else mkHook (swapColumns dragged targetColumnId (columns h)) (draggedColumnId h)
  end.

Definition handleDragEnd (h : HookState) : HookState := mkHook (columns h) None.

(** [handleColumnDragOver] of the board page: the dragged column is taken
    out and put back in at the target's index. *)
Definition handleColumnDragOver (targetColumnId : string) (h : HookState) : HookState :=
  match draggedColumnId h with
  | None => h
  | Some dragged =>
      if String.eqb dragged "" || String.eqb dragged targetColumnId then h
      else
        match Js.findIndex (fun col => String.eqb (id col) dragged) (columns h),
              Js.findIndex (fun col => String.eqb (id col) targetColumnId) (columns h) with
        | Some sourceIndex, Some targetIndex =>
            match nth_error (columns h) sourceIndex with
            | Some draggedColumn =>
                let newColumns :=
                  Js.insertAt targetIndex draggedColumn
                    (Js.removeAt sourceIndex (columns h)) in
                mkHook (reindex newColumns) (draggedColumnId h)
            | None => h (* not reached *)
            end
        | _, _ => h
        end
  end.

(** The board page's [defaultColumns], over the tasks of the three
    statuses. *)
Definition defaultColumns (todoTasks inProgressTasks doneTasks : list Task)
  : list ColumnData :=
  [ mkColumn "todo" "To Do" "bg-warning" todoTasks 0;
    mkColumn "in-progress" "In Progress" "bg-primary" inProgressTasks 1;
    mkColumn "done" "Done" "bg-success" doneTasks 2 ].

End Columns.

(* ===================================================================== *)
(** ** A board in one piece: the client talking to the server *)
(* ===================================================================== *)

Module Board.

Import Client.

(** The server's store, whether requests currently get through, and the
    task list held by the query cache. *)
Record World := mkWorld {
  server : Storage.MemStorage;
  online : bool;
  cache : list Task
}.

(** A response with an error status makes the request reject. *)
Definition settle (w : World) (r : Storage.MemStorage * Routes.Response)
  : Result Routes.Payload * World :=
  let w' := mkWorld (fst r) (online w) (cache w) in
  if Routes.code (snd r) <? 400 then (Resolved (Routes.payload (snd r)), w')
  else (Rejected (match Routes.payload (snd r) with
                  | Routes.PMessage m => m
                  | _ => "request failed"
                  end), w').

Definition request (req : Request) : M World Routes.Payload :=
  fun w =>
    if online w then
      match req with
      | GetTasks => settle w (server w, Routes.getTasks (server w))
      | GetTaskById i => settle w (server w, Routes.getTaskById (server w) (Some i))
      | PatchStatus i b => settle w (Routes.patchStatus (server w) (Some i) b)
      | PostReorder i b => settle w (Routes.postReorder (server w) (Some i) b)
      end
    else (Rejected "Failed to fetch", w).

(** Invalidation refetches the task list; it never writes to the server
    and does not reject when the refetch fails. *)
Definition refetch : M World unit :=
  fun w =>
    if online w then
      (Resolved tt, mkWorld (server w) (online w) (Storage.getAllTasks (server w)))
    else (Resolved tt, w).

#[export] Instance env : Env := {|
  Client.World := World;
  Resp := Routes.Payload;
  apiRequest := request;
  invalidateQueries := refetch;
  isObject := fun r => match r with Routes.PEmpty => false | _ => true end
|}.

(** What the board's reorder closure sends: the target only. *)
Definition reorderRequest (taskId targetTaskId : Z) : M World unit :=
  bind (request (PostReorder taskId (Routes.mkReorderBody targetTaskId None)))
       (fun _ => ret tt).

(** The connection is lost right after [c] has been answered. *)
Definition thenOffline (c : M World unit) : M World unit :=
  fun w => let '(r, w') := c w in (r, mkWorld (server w') false (cache w')).

(** A column of three cards: the sample tasks are deleted and [A], [B],
    [C] (ids 10, 11, 12) are created at the bottom of "todo". *)
Definition card (ti : string) : InsertTask :=
  mkInsertTask ti None "todo" "feature" None None None.

Definition threeCards : Storage.MemStorage :=
  fold_left Storage.step
    (map Storage.OpDeleteTask [1; 2; 3; 4; 5; 6; 7; 8; 9]
     ++ [Storage.OpCreateTask 0 (card "A");
         Storage.OpCreateTask 0 (card "B");
         Storage.OpCreateTask 0 (card "C")])
    (Storage.initial 0).

(** The same with [A] and [B] only. *)
Definition twoCards : Storage.MemStorage :=
  fold_left Storage.step
    (map Storage.OpDeleteTask [1; 2; 3; 4; 5; 6; 7; 8; 9]
     ++ [Storage.OpCreateTask 0 (card "A");
         Storage.OpCreateTask 0 (card "B")])
    (Storage.initial 0).

(** The body of a drop on a column's free space: [{ status, toTop: true }]. *)
Definition topBody (st : string) : Routes.StatusBody :=
  Routes.mkStatusBody st None None (Some true) None None None.

(** [(id, status, position)] of every stored task, in store order. *)
Definition summary (s : Storage.MemStorage) : list (Z * string * option Z) :=
  map (fun t => (id t, status t, position t)) (Storage.getAllTasks s).

(** The provider over this world. *)
Definition provider (w : World) (past future : list (@Command env)) : Provider :=
  @mkProvider env w past future [].

(** A provider that has run nothing yet, over a given server. *)
Definition start (s : Storage.MemStorage) (on : bool) : Provider :=
  mkProvider (mkWorld s on []) [] [] [].

(** The connection drops or comes back; nothing else changes. *)
Definition setOnline (on : bool) (p : Provider) : Provider :=
  mkProvider (mkWorld (server (world p)) on (cache (world p)))
    (commandHistory p) (redoStack p) (toasts p).

(** [new MoveTaskCommand(taskId, source, target)], as the keyboard
    handler builds it. *)
Definition moveCmd (i : Z) (src tgt : string) : Command :=
  MoveTaskCommand_as_Command (newMoveTaskCommand (ObjNumber i) src tgt None).

(** [new ReorderTaskCommand(status, tasks, () => reorder(taskId, targetTaskId))]
    built from what the server holds. *)
Definition reorderOf (s : Storage.MemStorage) (st : string) (taskId targetTaskId : Z)
  : ReorderTaskCommand :=
  mkReorder st (Storage.getAllTasks s) (reorderRequest taskId targetTaskId).

(** Some other implementation of the [Command] interface whose [undo]
    rejects. *)
Definition brokenUndo : Command :=
  mkCommand (ret tt) (throw "cannot undo") "Edit task".

Definition titles (l : list Task) : list string := map title l.

End Board.

(* ===================================================================== *)
(** ** Auxiliary notions for the proofs *)
(* ===================================================================== *)

Unset Implicit Arguments.

Module Aux.

(** Store every task of a list under its own id. *)
Definition writeAll (l : list Task) (m : Js.NumMap Task) : Js.NumMap Task :=
  fold_left (fun m t => Js.set (id t) t m) l m.

(** The tasks of a list with positions [i], [i+1], ... *)
Fixpoint renumbered (i : Z) (l : list Task) : list Task :=
  match l with
  | [] => []
  | t :: r => with_position t (Some i) :: renumbered (i + 1) r
  end.

(** What the top-placement loop leaves of one task. *)
Definition shiftOrKeep (moved : Z) (t : Task) : Task :=
  if id t =? moved then t else with_position t (Some (Js.plus (pos0 t) 1)).

Definition has_status (st : string) (t : Task) : bool := String.eqb (status t) st.

Definition not_task (i : Z) (t : Task) : bool := negb (id t =? i).

(** Ascending by [position || 0]. *)
Definition le_pos (a b : Task) : Prop := pos0 a <= pos0 b.

(** [p || 0] on a stored position. *)
Definition unpos (o : option Z) : Z := match o with Some p => p | None => 0 end.

(** What a full listing [l] of the status group [st] of [m] satisfies. *)
Record listing (m : Js.NumMap Task) (st : string) (l : list Task) : Prop := {
  listing_ids : NoDup (map id l);
  listing_get : forall t, In t l -> Js.get (id t) m = Some t;
  listing_status : forall t, In t l -> status t = st;
  listing_all : forall k v, Js.get k m = Some v -> status v = st -> In k (map id l)
}.

(** The moved task as [updateTaskStatus] first stores it. *)
Definition movedTask (m : Js.NumMap Task) (task : Task) (st : string)
    (tp tg : option Z) : Task :=
  with_status_position task st (Some (fst (Storage.placement m tp tg))).

(** The list the reorder writes back: the column without the moved task,
    with the moved task spliced in at index [n]. *)
Definition spliced (m : Js.NumMap Task) (task : Task) (n : nat) : list Task :=
  let others := filter (not_task (id task)) (Storage.column m (status task)) in
  firstn n others ++ task :: skipn n others.

(** The index a swap of [i] and [j] reads from. *)
Definition swapped (i j n : nat) : nat :=
  if Nat.eqb n i then j else if Nat.eqb n j then i else n.

(** A column without its index. *)
Definition unindexed (c : Columns.ColumnData) : string * string * string * list Task :=
  (Columns.id c, Columns.title c, Columns.colorClass c, Columns.tasks c).

End Aux.

(* ===================================================================== *)
(** * Properties *)
(* ===================================================================== *)

Import Aux.

Example threeCards_summary :
  Board.summary Board.threeCards
  = [(10, "todo", Some 0); (11, "todo", Some 1); (12, "todo", Some 2)].
Proof. vm_compute. reflexivity. Qed.

(** ** Number arithmetic *)

Lemma toDouble_exact (z : Z) : Z.abs z <= 2 ^ 53 -> Js.toDouble z = z.
Proof.
  intros H. unfold Js.toDouble. cbv zeta.
  destruct (Z.ltb_spec (Z.abs z) (2 ^ 53)) as [_ | Hge]; [reflexivity|].
  assert (Hz : z = 2 ^ 53 \/ z = - 2 ^ 53) by lia.
  destruct Hz as [-> | ->]; vm_compute; reflexivity.
Qed.

Lemma plus_safe (a : Z) : Z.abs a <= Js.MAX_SAFE_INTEGER -> Js.plus a 1 = a + 1.
Proof.
  unfold Js.MAX_SAFE_INTEGER, Js.plus. intros H. apply toDouble_exact. lia.
Qed.

Lemma toDouble_positive (z : Z) : 0 < z -> 0 < Js.toDouble z.
Proof.
  intros Hz. unfold Js.toDouble. cbv zeta.
  destruct (Z.ltb_spec (Z.abs z) (2 ^ 53)) as [_ | Hge]; [exact Hz|].
  rewrite (Z.abs_eq z) in * by lia. rewrite (Z.sgn_pos z Hz), Z.mul_1_l.
  assert (Hlog : 53 <= Z.log2 z).
  { rewrite <- (Z.log2_pow2 53) by lia. now apply Z.log2_le_mono. }
  set (ulp := 2 ^ (Z.log2 z - 52)).
  assert (Hulp : 0 < ulp) by (apply Z.pow_pos_nonneg; lia).
  assert (Hle : ulp <= z).
  { pose proof (Z.log2_spec z Hz) as [Hlo _].
    apply Z.le_trans with (2 ^ Z.log2 z); [|exact Hlo].
    apply Z.pow_le_mono_r; lia. }
  assert (Hq : 1 <= z / ulp).
  { apply Z.div_le_lower_bound; lia. }
  destruct (2 * (z mod ulp) <? ulp); [nia|].
  destruct (ulp <? 2 * (z mod ulp)); [nia|].
  destruct (Z.even (z / ulp)); nia.
Qed.

Lemma plus_one_positive (a : Z) : 0 <= a -> 0 < Js.plus a 1.
Proof. intros H. apply toDouble_positive. lia. Qed.

(** From 2^53 on, adding one gives the same number back. *)
Example plus_at_two_to_53 : Js.plus (2 ^ 53) 1 = 2 ^ 53.
Proof. vm_compute. reflexivity. Qed.

(** ** The [Map] operations *)

Section MapFacts.
Context {V : Type}.
Implicit Types (m : Js.NumMap V) (k : Z) (v : V).

Lemma get_set_eq m k v : Js.get k (Js.set k v m) = Some v.
Proof.
  induction m as [|[k' v'] r IH]; simpl.
  - now rewrite Z.eqb_refl.
  - destruct (k' =? k) eqn:E; simpl.
    + now rewrite Z.eqb_refl.
    + now rewrite E.
Qed.

Lemma get_set_ne m k k' v : k <> k' -> Js.get k' (Js.set k v m) = Js.get k' m.
Proof.
  intros Hne. induction m as [|[k0 v0] r IH]; simpl.
  - destruct (k =? k') eqn:E; [apply Z.eqb_eq in E; contradiction | reflexivity].
  - destruct (k0 =? k) eqn:E; simpl.
    + apply Z.eqb_eq in E. subst k0.
      destruct (k =? k') eqn:E'; [apply Z.eqb_eq in E'; contradiction | reflexivity].
    + destruct (k0 =? k'); [reflexivity | exact IH].
Qed.

Lemma set_same m k v : Js.get k m = Some v -> Js.set k v m = m.
Proof.
  induction m as [|[k0 v0] r IH]; simpl; [discriminate|].
  destruct (k0 =? k) eqn:E.
  - apply Z.eqb_eq in E. intros [= ->]. now subst.
  - intros H. now rewrite IH.
Qed.

Lemma keys_set_present m k v :
  In k (Storage.keys m) -> Storage.keys (Js.set k v m) = Storage.keys m.
Proof.
  unfold Storage.keys.
  induction m as [|[k0 v0] r IH]; simpl; [tauto|].
  intros [-> | Hin].
  - now rewrite Z.eqb_refl.
  - destruct (k0 =? k) eqn:E; simpl.
    + apply Z.eqb_eq in E. now subst.
    + now rewrite IH.
Qed.

Lemma keys_set_absent m k v :
  ~ In k (Storage.keys m) -> Storage.keys (Js.set k v m) = Storage.keys m ++ [k].
Proof.
  unfold Storage.keys.
  induction m as [|[k0 v0] r IH]; simpl; [reflexivity|].
  intros Hn. destruct (k0 =? k) eqn:E.
  - apply Z.eqb_eq in E. tauto.
  - simpl. rewrite IH; tauto.
Qed.

Lemma get_in_keys m k v : Js.get k m = Some v -> In k (Storage.keys m).
Proof.
  unfold Storage.keys.
  induction m as [|[k0 v0] r IH]; simpl; [discriminate|].
  destruct (k0 =? k) eqn:E.
  - apply Z.eqb_eq in E. now left.
  - intros H. right. now apply IH.
Qed.

Lemma get_in m k v : Js.get k m = Some v -> In (k, v) m.
Proof.
  induction m as [|[k0 v0] r IH]; simpl; [discriminate|].
  destruct (k0 =? k) eqn:E.
  - apply Z.eqb_eq in E. intros [= ->]. left. now subst.
  - intros H. right. now apply IH.
Qed.

Lemma in_get m k v : NoDup (Storage.keys m) -> In (k, v) m -> Js.get k m = Some v.
Proof.
  unfold Storage.keys.
  induction m as [|[k0 v0] r IH]; simpl; [tauto|].
  intros Hnd [H | H].
  - injection H as -> ->. now rewrite Z.eqb_refl.
  - inversion Hnd as [|? ? Hnotin Hnd']; subst.
    destruct (k0 =? k) eqn:E.
    + apply Z.eqb_eq in E. subst k0. exfalso. apply Hnotin.
      change k with (fst (k, v)). now apply in_map.
    + now apply IH.
Qed.

Lemma keys_not_in_get_none m k : ~ In k (Storage.keys m) -> Js.get k m = None.
Proof.
  intros Hn. destruct (Js.get k m) eqn:E; [|reflexivity].
  exfalso. apply Hn. eapply get_in_keys; eauto.
Qed.

Lemma nodup_keys_set m k v : NoDup (Storage.keys m) -> NoDup (Storage.keys (Js.set k v m)).
Proof.
  intros Hnd. destruct (in_dec Z.eq_dec k (Storage.keys m)) as [Hin | Hout].
  - now rewrite keys_set_present.
  - rewrite keys_set_absent by assumption.
    apply NoDup_app; [assumption | repeat constructor; simpl; tauto |].
    intros x Hx [<- | []]. contradiction.
Qed.

End MapFacts.

(** ** Well-formed stores *)

Lemma keyed_set m k v : Storage.keyed m -> id v = k -> Storage.keyed (Js.set k v m).
Proof.
  unfold Storage.keyed. intros Hk Hid.
  induction m as [|[k0 v0] r IH]; simpl.
  - repeat constructor. exact Hid.
  - inversion Hk as [|? ? Hhd Htl]; subst.
    destruct (k0 =? id v); constructor; auto.
Qed.

Lemma wf_map_set m k v : Storage.wf_map m -> id v = k -> Storage.wf_map (Js.set k v m).
Proof.
  intros [Hnd Hk] Hid. split; [now apply nodup_keys_set | now apply keyed_set].
Qed.

Lemma keys_delete_incl (m : Js.NumMap Task) k x :
  In x (Storage.keys (Js.delete k m)) -> In x (Storage.keys m).
Proof.
  unfold Storage.keys. induction m as [|[k0 v0] r IH]; simpl; [tauto|].
  destruct (k0 =? k); simpl; [tauto|]. intros [H | H]; auto.
Qed.

Lemma wf_map_delete m k : Storage.wf_map m -> Storage.wf_map (Js.delete k m).
Proof.
  unfold Storage.wf_map, Storage.keyed. intros [Hnd Hk].
  induction m as [|[k0 v0] r IH]; simpl; [split; constructor|].
  inversion Hnd as [|? ? Hnotin Hnd']; subst.
  inversion Hk as [|? ? Hhd Htl]; subst.
  destruct (k0 =? k); [now split|].
  destruct (IH Hnd' Htl) as [IH1 IH2].
  split; [|now constructor].
  simpl. constructor; [|exact IH1].
  intros Hin. apply Hnotin. eapply keys_delete_incl. exact Hin.
Qed.

Lemma wf_map_value_id m k v : Storage.wf_map m -> Js.get k m = Some v -> id v = k.
Proof.
  intros [_ Hk] Hget. apply get_in in Hget.
  unfold Storage.keyed in Hk. rewrite Forall_forall in Hk.
  exact (Hk _ Hget).
Qed.

Lemma in_values_get m v : Storage.wf_map m -> In v (Js.values m) -> Js.get (id v) m = Some v.
Proof.
  intros [Hnd Hk] Hin. unfold Js.values in Hin.
  apply in_map_iff in Hin. destruct Hin as [[k v'] [Hv Hin]]. simpl in Hv. subst v'.
  unfold Storage.keyed in Hk. rewrite Forall_forall in Hk.
  pose proof (Hk _ Hin) as Hid. simpl in Hid. rewrite Hid.
  now apply in_get.
Qed.

Lemma get_in_values (m : Js.NumMap Task) k v : Js.get k m = Some v -> In v (Js.values m).
Proof.
  intros H. apply get_in in H. unfold Js.values.
  change v with (snd (k, v)). now apply in_map.
Qed.

Lemma nodup_value_ids m : Storage.wf_map m -> NoDup (map id (Js.values m)).
Proof.
  intros [Hnd Hk]. unfold Js.values. rewrite map_map.
  unfold Storage.keys in Hnd.
  replace (map (fun e => id (snd e)) m) with (map fst m); [exact Hnd|].
  unfold Storage.keyed in Hk. rewrite Forall_forall in Hk.
  apply map_ext_in. intros e He. symmetry. exact (Hk _ He).
Qed.

(** ** Writing a batch of tasks *)

Lemma writeAll_keys l m :
  (forall t, In t l -> In (id t) (Storage.keys m)) ->
  Storage.keys (Aux.writeAll l m) = Storage.keys m.
Proof.
  unfold Aux.writeAll. revert m.
  induction l as [|t r IH]; intros m Hin; simpl; [reflexivity|].
  rewrite IH.
  - apply keys_set_present. apply Hin. now left.
  - intros u Hu. rewrite keys_set_present; apply Hin; simpl; auto.
Qed.

Lemma writeAll_wf l m : Storage.wf_map m -> Storage.wf_map (Aux.writeAll l m).
Proof.
  unfold Aux.writeAll. revert m.
  induction l as [|t r IH]; intros m Hwf; simpl; [exact Hwf|].
  apply IH. now apply wf_map_set.
Qed.

Lemma writeAll_get_out l m k :
  ~ In k (map id l) -> Js.get k (Aux.writeAll l m) = Js.get k m.
Proof.
  unfold Aux.writeAll. revert m.
  induction l as [|t r IH]; intros m Hout; simpl; [reflexivity|].
  simpl in Hout. rewrite IH by tauto.
  apply get_set_ne. intros E. apply Hout. now left.
Qed.

Lemma writeAll_get_in l m t :
  NoDup (map id l) -> In t l -> Js.get (id t) (Aux.writeAll l m) = Some t.
Proof.
  revert m. induction l as [|u r IH]; intros m Hnd Hin; [destruct Hin|].
  simpl in Hnd. inversion Hnd as [|? ? Hnotin Hnd']; subst.
  destruct Hin as [-> | Hin].
  - change (Aux.writeAll (t :: r) m) with (Aux.writeAll r (Js.set (id t) t m)).
    rewrite writeAll_get_out by assumption. apply get_set_eq.
  - change (Aux.writeAll (u :: r) m) with (Aux.writeAll r (Js.set (id u) u m)).
    now apply IH.
Qed.

(** The tasks of one status after a batch that rewrites that whole
    status group. *)
Lemma writeAll_group l m st :
  Storage.wf_map m ->
  NoDup (map id l) ->
  (forall t, In t l -> In (id t) (Storage.keys m)) ->
  (forall t, In t l -> status t = st) ->
  (forall k v, Js.get k m = Some v -> status v = st -> In k (map id l)) ->
  Permutation (filter (Aux.has_status st) (Js.values (Aux.writeAll l m))) l.
Proof.
  intros Hwf Hnd Hkeys Hst Hall.
  pose proof (writeAll_wf l m Hwf) as Hwf'.
  assert (Hndl : NoDup l) by (eapply NoDup_map_inv; exact Hnd).
  apply NoDup_Permutation; [| exact Hndl |].
  - apply NoDup_filter. eapply NoDup_map_inv. apply nodup_value_ids. exact Hwf'.
  - intros x. rewrite filter_In. unfold Aux.has_status. split.
    + intros [Hin Hs]. apply String.eqb_eq in Hs.
      pose proof (in_values_get _ _ Hwf' Hin) as Hget.
      destruct (in_dec Z.eq_dec (id x) (map id l)) as [Hi | Ho].
      * apply in_map_iff in Hi. destruct Hi as [t [Hid Ht]].
        pose proof (writeAll_get_in l m t Hnd Ht) as Hget'.
        rewrite Hid, Hget in Hget'. injection Hget' as ->. exact Ht.
      * rewrite writeAll_get_out in Hget by assumption.
        exfalso. apply Ho. eapply Hall; eauto.
    + intros Hx. split.
      * eapply get_in_values. apply writeAll_get_in; assumption.
      * apply String.eqb_eq. now apply Hst.
Qed.

Lemma renumbered_ids i l : map id (Aux.renumbered i l) = map id l.
Proof. revert i. induction l as [|t r IH]; intros i; simpl; [|rewrite IH]; reflexivity. Qed.

Lemma renumbered_status i l st :
  (forall t, In t l -> status t = st) ->
  forall t, In t (Aux.renumbered i l) -> status t = st.
Proof.
  revert i. induction l as [|u r IH]; intros i H t; simpl; [tauto|].
  intros [<- | Hin].
  - simpl. apply H. now left.
  - eapply IH; [|exact Hin]. intros; apply H; now right.
Qed.

Lemma renumbered_positions i l :
  map position (Aux.renumbered i l)
  = map (fun k => Some (i + Z.of_nat k)) (seq 0 (List.length l)).
Proof.
  revert i. induction l as [|u r IH]; intros i; [reflexivity|].
  cbn [Aux.renumbered List.length seq map position with_position].
  rewrite Z.add_0_r. f_equal.
  rewrite IH, <- seq_shift, map_map. apply map_ext. intros k. f_equal. lia.
Qed.

Lemma renumbered_length i l : List.length (Aux.renumbered i l) = List.length l.
Proof. revert i. induction l as [|u r IH]; intros i; simpl; [|rewrite IH]; reflexivity. Qed.

Lemma with_position_same t p : position t = Some p -> with_position t (Some p) = t.
Proof. destruct t; simpl. now intros ->. Qed.

Lemma renumber_writeAll i l m :
  NoDup (map id l) ->
  (forall t, In t l -> Js.get (id t) m = Some t) ->
  Storage.renumber i l m = Aux.writeAll (Aux.renumbered i l) m.
Proof.
  revert i m. induction l as [|t r IH]; intros i m Hnd Hget; [reflexivity|].
  simpl in Hnd. inversion Hnd as [|? ? Hnotin Hnd']; subst.
  cbn [Storage.renumber Aux.renumbered].
  change (Aux.writeAll (with_position t (Some i) :: Aux.renumbered (i + 1) r) m)
    with (Aux.writeAll (Aux.renumbered (i + 1) r)
            (Js.set (id t) (with_position t (Some i)) m)).
  assert (Hm : (match position t with
                | Some p => if p =? i then m
                            else Js.set (id t) (with_position t (Some i)) m
                | None => Js.set (id t) (with_position t (Some i)) m
                end) = Js.set (id t) (with_position t (Some i)) m).
  { destruct (position t) as [p|] eqn:Ep; [|reflexivity].
    destruct (p =? i) eqn:E; [|reflexivity].
    apply Z.eqb_eq in E. subst p.
    rewrite (with_position_same t i Ep). symmetry. apply set_same.
    apply Hget. now left. }
  rewrite Hm. apply IH; [exact Hnd'|].
  intros u Hu. rewrite get_set_ne.
  - apply Hget. now right.
  - intros E. apply Hnotin. rewrite E. now apply in_map.
Qed.

(** ** Sorting *)

Section SortFacts.
Context {A : Type} (cmp : A -> A -> Z).

Lemma insert_sorted_perm x l : Permutation (Js.insert_sorted cmp x l) (x :: l).
Proof.
  induction l as [|y r IH]; simpl; [apply Permutation_refl|].
  destruct (cmp x y <=? 0); [apply Permutation_refl|].
  eapply Permutation_trans; [apply perm_skip, IH | apply perm_swap].
Qed.

Lemma sort_perm l : Permutation (Js.sort cmp l) l.
Proof.
  induction l as [|x r IH]; simpl; [constructor|].
  eapply Permutation_trans; [apply insert_sorted_perm | now apply perm_skip].
Qed.

Lemma sort_length l : List.length (Js.sort cmp l) = List.length l.
Proof. apply Permutation_length, sort_perm. Qed.

End SortFacts.


Lemma insert_sorted_sorted x l :
  Sorted le_pos l -> Sorted le_pos (Js.insert_sorted Storage.byPosition x l).
Proof.
  induction l as [|y r IH]; intros Hs; simpl.
  - repeat constructor.
  - unfold Storage.byPosition at 1.
    destruct (pos0 x - pos0 y <=? 0) eqn:E.
    + constructor; [exact Hs|]. constructor. unfold le_pos. lia.
    + inversion Hs as [|? ? Hr Hhd]; subst.
      constructor; [now apply IH|].
      destruct r as [|z r']; simpl.
      * constructor. unfold le_pos. lia.
      * unfold Storage.byPosition at 1.
        destruct (pos0 x - pos0 z <=? 0) eqn:E'.
        -- constructor. unfold le_pos. lia.
        -- inversion Hhd; subst. now constructor.
Qed.

Lemma sort_sorted l : Sorted le_pos (Js.sort Storage.byPosition l).
Proof.
  induction l as [|x r IH]; simpl; [constructor|].
  now apply insert_sorted_sorted.
Qed.

Lemma sorted_map_pos0 l : Sorted le_pos l -> StronglySorted Z.le (map pos0 l).
Proof.
  intros Hs. apply Sorted_StronglySorted.
  - intros a b c; apply Z.le_trans.
  - induction Hs as [|a l Hs IH Hhd]; simpl; constructor; [exact IH|].
    destruct Hhd; simpl; constructor. assumption.
Qed.

(** A list of integers has one ascending arrangement. *)
Lemma sorted_perm_unique (l1 l2 : list Z) :
  StronglySorted Z.le l1 -> StronglySorted Z.le l2 -> Permutation l1 l2 -> l1 = l2.
Proof.
  revert l2. induction l1 as [|a r1 IH]; intros l2 H1 H2 Hp.
  - apply Permutation_nil in Hp. now subst.
  - destruct l2 as [|b r2].
    + apply Permutation_sym, Permutation_nil in Hp. discriminate.
    + inversion H1 as [|? ? Hs1 Hall1]; subst.
      inversion H2 as [|? ? Hs2 Hall2]; subst.
      rewrite Forall_forall in Hall1, Hall2.
      assert (Hab : a = b).
      { assert (Hb : In b (a :: r1))
          by (eapply Permutation_in; [apply Permutation_sym; exact Hp | now left]).
        assert (Ha : In a (b :: r2))
          by (eapply Permutation_in; [exact Hp | now left]).
        destruct Hb as [-> | Hb]; [reflexivity|].
        destruct Ha as [-> | Ha]; [reflexivity|].
        pose proof (Hall1 _ Hb). pose proof (Hall2 _ Ha). lia. }
      subst b. f_equal. apply IH; try assumption.
      eapply Permutation_cons_inv. exact Hp.
Qed.

Lemma dense_sorted (i : Z) (n : nat) (k0 : nat) :
  StronglySorted Z.le (map (fun k => i + Z.of_nat k) (seq k0 n)).
Proof.
  revert k0. induction n as [|n IH]; intros k0; simpl; constructor; [apply IH|].
  rewrite Forall_forall. intros x Hx. apply in_map_iff in Hx.
  destruct Hx as [k [<- Hk]]. apply in_seq in Hk. lia.
Qed.


Lemma map_unpos_position l : map unpos (map position l) = map pos0 l.
Proof. rewrite map_map. reflexivity. Qed.

(** Sorting a group whose positions are [0..n-1] in some order lists the
    positions in order. *)
Lemma positions_sorted_dense l n :
  Permutation (map position l) (Storage.dense n) ->
  map position (Js.sort Storage.byPosition l) = Storage.dense n.
Proof.
  intros Hp.
  set (s := Js.sort Storage.byPosition l).
  assert (Hps : Permutation (map position s) (Storage.dense n)).
  { eapply Permutation_trans; [|exact Hp]. apply Permutation_map, sort_perm. }
  assert (Hsome : forall t, In t s -> position t = Some (pos0 t)).
  { intros t Ht.
    assert (Hin : In (position t) (Storage.dense n))
      by (eapply Permutation_in; [exact Hps | now apply in_map]).
    unfold Storage.dense in Hin. apply in_map_iff in Hin.
    destruct Hin as [k [Hk _]]. unfold pos0. now rewrite <- Hk. }
  assert (Hkeys : map pos0 s = map (fun k => 0 + Z.of_nat k) (seq 0 n)).
  { apply sorted_perm_unique.
    - apply sorted_map_pos0, sort_sorted.
    - apply dense_sorted.
    - rewrite <- map_unpos_position.
      replace (map (fun k => 0 + Z.of_nat k) (seq 0 n))
        with (map unpos (Storage.dense n))
        by (unfold Storage.dense; rewrite map_map; reflexivity).
      now apply Permutation_map. }
  transitivity (map (fun t => Some (pos0 t)) s).
  - apply map_ext_in. exact Hsome.
  - rewrite <- (map_map pos0 Some), Hkeys, map_map. reflexivity.
Qed.

(** Two arrangements of the same elements with the same, pairwise
    distinct keys are the same list. *)
Lemma perm_same_keys {A : Type} (f : A -> Z) (l1 l2 : list A) :
  Permutation l1 l2 -> map f l1 = map f l2 -> NoDup (map f l1) -> l1 = l2.
Proof.
  revert l2. induction l1 as [|a r1 IH]; intros l2 Hp Hk Hnd.
  - apply Permutation_nil in Hp. now subst.
  - destruct l2 as [|b r2]; [discriminate|].
    simpl in Hk. injection Hk as Hab Hk.
    simpl in Hnd. inversion Hnd as [|? ? Hnotin Hnd']; subst.
    assert (a = b) as ->.
    { assert (Ha : In a (b :: r2)) by (eapply Permutation_in; [exact Hp | now left]).
      destruct Ha as [-> | Ha]; [reflexivity|].
      exfalso. apply Hnotin. rewrite Hk. now apply in_map. }
    f_equal. apply IH; try assumption.
    eapply Permutation_cons_inv. exact Hp.
Qed.

(** Sorting any arrangement of a group gives the arrangement with
    positions [0, 1, ...] in order. *)
Lemma sort_to_renumbered l r :
  Permutation l (Aux.renumbered 0 r) ->
  Js.sort Storage.byPosition l = Aux.renumbered 0 r.
Proof.
  intros Hp.
  assert (Hpos : map position (Js.sort Storage.byPosition l)
                 = Storage.dense (List.length r)).
  { apply positions_sorted_dense.
    eapply Permutation_trans; [apply Permutation_map; exact Hp|].
    rewrite renumbered_positions. apply Permutation_refl. }
  assert (Hkeys : map pos0 (Js.sort Storage.byPosition l)
                  = map pos0 (Aux.renumbered 0 r)).
  { rewrite <- !map_unpos_position. rewrite Hpos, renumbered_positions. reflexivity. }
  apply (perm_same_keys pos0).
  - eapply Permutation_trans; [apply sort_perm | exact Hp].
  - exact Hkeys.
  - rewrite Hkeys, <- map_unpos_position, renumbered_positions, map_map.
    simpl. apply Finite.Injective_map_NoDup; [|apply seq_NoDup].
    intros x y H. lia.
Qed.

(** ** Columns *)

Lemma perm_filter {A : Type} (p : A -> bool) (l l' : list A) :
  Permutation l l' -> Permutation (filter p l) (filter p l').
Proof.
  induction 1 as [|x l l' _ IH|x y l|l l' l'' _ IH1 _ IH2]; simpl.
  - constructor.
  - destruct (p x); [now apply perm_skip | exact IH].
  - destruct (p x), (p y); try apply Permutation_refl. apply perm_swap.
  - eapply Permutation_trans; eassumption.
Qed.

Lemma column_perm m st :
  Permutation (Storage.column m st) (filter (Aux.has_status st) (Js.values m)).
Proof. unfold Storage.column. apply sort_perm. Qed.

(** The special cases of the STEP 3 comparator compare by position too. *)
Lemma moveCmp_byPosition i a b :
  id a <> id b -> Storage.moveCmp i a b = Storage.byPosition a b.
Proof.
  intros Hne. unfold Storage.moveCmp, Storage.byPosition.
  destruct (id a =? i) eqn:Ea, (id b =? i) eqn:Eb; try reflexivity.
  apply Z.eqb_eq in Ea, Eb. congruence.
Qed.


Lemma listing_of_perm m st l :
  Storage.wf_map m ->
  Permutation l (filter (Aux.has_status st) (Js.values m)) ->
  listing m st l.
Proof.
  intros Hwf Hp.
  assert (Hin : forall t, In t l <-> In t (Js.values m) /\ status t = st).
  { intros t. rewrite <- String.eqb_eq.
    change (String.eqb (status t) st) with (Aux.has_status st t).
    rewrite <- filter_In. split; apply Permutation_in;
      [exact Hp | apply Permutation_sym; exact Hp]. }
  split.
  - eapply Permutation_NoDup.
    + apply Permutation_map, Permutation_sym. exact Hp.
    + pose proof (nodup_value_ids m Hwf) as Hnd. revert Hnd.
      generalize (Js.values m). intros vs.
      induction vs as [|v r IH]; simpl; intros Hnd; [constructor|].
      inversion Hnd as [|? ? Hnotin Hnd']; subst.
      destruct (Aux.has_status st v); simpl; [constructor|]; auto.
      intros Hc. apply Hnotin. apply in_map_iff in Hc.
      destruct Hc as [x [Hx Hc]]. apply filter_In in Hc.
      rewrite <- Hx. apply in_map. tauto.
  - intros t Ht. apply in_values_get; [exact Hwf | now apply Hin].
  - intros t Ht. now apply Hin.
  - intros k v Hget Hs.
    rewrite <- (wf_map_value_id m k v Hwf Hget).
    apply in_map. apply Hin. split; [eapply get_in_values; exact Hget | exact Hs].
Qed.

Lemma listing_keys m st l t : listing m st l -> In t l -> In (id t) (Storage.keys m).
Proof. intros H Ht. eapply get_in_keys. apply (listing_get _ _ _ H). exact Ht. Qed.

(** Renumbering a full listing of a status group makes that listing,
    numbered from 0, the column. *)
Lemma column_writeAll_renumbered m st l :
  Storage.wf_map m -> listing m st l ->
  Storage.column (Aux.writeAll (Aux.renumbered 0 l) m) st = Aux.renumbered 0 l.
Proof.
  intros Hwf Hl. unfold Storage.column.
  apply sort_to_renumbered.
  apply (writeAll_group (Aux.renumbered 0 l) m st Hwf).
  - rewrite renumbered_ids. apply (listing_ids _ _ _ Hl).
  - intros t Ht.
    assert (Hid : In (id t) (map id (Aux.renumbered 0 l))) by now apply in_map.
    rewrite renumbered_ids in Hid. apply in_map_iff in Hid.
    destruct Hid as [u [<- Hu]]. eapply listing_keys; eauto.
  - apply renumbered_status. apply (listing_status _ _ _ Hl).
  - intros k v Hget Hs. rewrite renumbered_ids.
    eapply (listing_all _ _ _ Hl); eauto.
Qed.

Lemma renumber_column m st l :
  Storage.wf_map m ->
  Permutation l (filter (Aux.has_status st) (Js.values m)) ->
  Storage.column (Storage.renumber 0 l m) st = Aux.renumbered 0 l.
Proof.
  intros Hwf Hp. pose proof (listing_of_perm m st l Hwf Hp) as Hl.
  rewrite renumber_writeAll.
  - now apply column_writeAll_renumbered.
  - apply (listing_ids _ _ _ Hl).
  - apply (listing_get _ _ _ Hl).
Qed.

Lemma mapi_from_renumbered i l :
  Js.mapi_from i (fun t idx => with_position t (Some (Z.of_nat idx))) l
  = Aux.renumbered (Z.of_nat i) l.
Proof.
  revert i. induction l as [|t r IH]; intros i; simpl; [reflexivity|].
  rewrite IH. do 2 f_equal. lia.
Qed.

Lemma writeIndexed_writeAll i l m :
  Storage.writeIndexed i l m = Aux.writeAll (Aux.renumbered (Z.of_nat i) l) m.
Proof.
  revert i m. induction l as [|t r IH]; intros i m; simpl; [reflexivity|].
  rewrite IH. replace (Z.of_nat (S i)) with (Z.of_nat i + 1) by lia. reflexivity.
Qed.

Lemma writeIndexed_column m st l :
  Storage.wf_map m ->
  Permutation l (filter (Aux.has_status st) (Js.values m)) ->
  Storage.column (Storage.writeIndexed 0 l m) st = Aux.renumbered 0 l.
Proof.
  intros Hwf Hp. rewrite writeIndexed_writeAll.
  apply column_writeAll_renumbered; [exact Hwf | now apply listing_of_perm].
Qed.

Lemma positions_renumbered l :
  map position (Aux.renumbered 0 l) = Storage.dense (List.length l).
Proof. rewrite renumbered_positions. reflexivity. Qed.

(** Taking one task out of a list with distinct ids and putting it back. *)
Lemma filter_out_perm (l : list Task) (t : Task) :
  NoDup (map id l) -> In t l ->
  Permutation (t :: filter (Aux.not_task (id t)) l) l.
Proof.
  induction l as [|u r IH]; intros Hnd Hin; [destruct Hin|].
  simpl in Hnd. inversion Hnd as [|? ? Hnotin Hnd']; subst.
  simpl. unfold Aux.not_task at 1.
  destruct Hin as [-> | Hin].
  - rewrite Z.eqb_refl. simpl. apply perm_skip.
    replace (filter (Aux.not_task (id t)) r) with r; [apply Permutation_refl|].
    symmetry. apply forallb_filter_id. apply forallb_forall.
    intros x Hx. unfold Aux.not_task. apply negb_true_iff, Z.eqb_neq.
    intros E. apply Hnotin. rewrite <- E. now apply in_map.
  - destruct (id u =? id t) eqn:E.
    + apply Z.eqb_eq in E. exfalso. apply Hnotin. rewrite E. now apply in_map.
    + simpl. eapply Permutation_trans; [apply perm_swap|].
      apply perm_skip. now apply IH.
Qed.

(** ** The storage operations, unfolded *)

Lemma placement_toTop m tp tg :
  snd (Storage.placement m tp tg) = Storage.is_undefined tp && Storage.is_undefined tg.
Proof.
  unfold Storage.placement.
  destruct (Storage.truthy tg) eqn:Et.
  - destruct tg as [n|]; [|discriminate]. simpl.
    destruct (Js.get n m); simpl; [now rewrite andb_false_r | reflexivity].
  - destruct tp; reflexivity.
Qed.

Lemma placement_top m : Storage.placement m None None = (0, true).
Proof. reflexivity. Qed.


Lemma updateTaskStatus_found s i st tp tg pb task :
  Storage.getTask s i = Some task ->
  Storage.updateTaskStatus s i st tp tg pb
  = (let u := movedTask (Storage.tasks s) task st tp tg in
     let m1 := Js.set i u (Storage.tasks s) in
     (Storage.with_tasks s
        (if negb (Storage.is_undefined tp && Storage.is_undefined tg)
         then Storage.renumber 0 (Js.sort (Storage.moveCmp i) (Storage.column m1 st)) m1
         else Storage.shiftDown i (Storage.column m1 st) m1),
      Some u)).
Proof.
  unfold Storage.getTask, Storage.updateTaskStatus, movedTask. intros ->.
  pose proof (placement_toTop (Storage.tasks s) tp tg) as Htop.
  destruct (Storage.placement (Storage.tasks s) tp tg) as [ip top].
  simpl in Htop. subst top. reflexivity.
Qed.

Lemma updateTaskStatus_missing s i st tp tg pb :
  Storage.getTask s i = None ->
  Storage.updateTaskStatus s i st tp tg pb = (s, None).
Proof. unfold Storage.getTask, Storage.updateTaskStatus. now intros ->. Qed.

Lemma shiftDown_writeAll moved l m :
  NoDup (map id l) ->
  (forall t, In t l -> Js.get (id t) m = Some t) ->
  Storage.shiftDown moved l m = Aux.writeAll (map (Aux.shiftOrKeep moved) l) m.
Proof.
  revert m. induction l as [|t r IH]; intros m Hnd Hget; [reflexivity|].
  simpl in Hnd. inversion Hnd as [|? ? Hnotin Hnd']; subst.
  cbn [Storage.shiftDown map].
  change (Aux.writeAll (Aux.shiftOrKeep moved t :: map (Aux.shiftOrKeep moved) r) m)
    with (Aux.writeAll (map (Aux.shiftOrKeep moved) r)
            (Js.set (id (Aux.shiftOrKeep moved t)) (Aux.shiftOrKeep moved t) m)).
  assert (Hm : (if id t =? moved then m
                else Js.set (id t) (with_position t (Some (Js.plus (pos0 t) 1))) m)
               = Js.set (id (Aux.shiftOrKeep moved t)) (Aux.shiftOrKeep moved t) m).
  { unfold Aux.shiftOrKeep. destruct (id t =? moved); [|reflexivity].
    symmetry. apply set_same. apply Hget. now left. }
  rewrite Hm. apply IH; [exact Hnd'|].
  intros u Hu. rewrite get_set_ne.
  - apply Hget. now right.
  - intros E. apply Hnotin.
    replace (id t) with (id u); [now apply in_map|].
    rewrite <- E. unfold Aux.shiftOrKeep. destruct (id t =? moved); reflexivity.
Qed.

Lemma shiftOrKeep_id moved t : id (Aux.shiftOrKeep moved t) = id t.
Proof. unfold Aux.shiftOrKeep. destruct (id t =? moved); reflexivity. Qed.

Lemma shiftOrKeep_status moved t : status (Aux.shiftOrKeep moved t) = status t.
Proof. unfold Aux.shiftOrKeep. destruct (id t =? moved); reflexivity. Qed.

Lemma map_shiftOrKeep_ids moved l : map id (map (Aux.shiftOrKeep moved) l) = map id l.
Proof. rewrite map_map. apply map_ext. intros t. apply shiftOrKeep_id. Qed.

(** ** Every reachable store is well formed *)

Lemma wf_with_tasks s m :
  Storage.wf_map m -> Storage.keys m = Storage.keys (Storage.tasks s) ->
  Storage.wf s -> Storage.wf (Storage.with_tasks s m).
Proof.
  intros Hm Hk [_ Hb]. split; simpl; [exact Hm | now rewrite Hk].
Qed.

Lemma wf_empty : Storage.wf Storage.empty.
Proof. repeat split; constructor. Qed.

Lemma createTask_wf s now ins : Storage.wf s -> Storage.wf (fst (Storage.createTask s now ins)).
Proof.
  intros [Hm Hb]. unfold Storage.createTask. cbn [fst Storage.tasks Storage.taskCurrentId].
  split; cbn [Storage.tasks Storage.taskCurrentId].
  - now apply wf_map_set.
  - rewrite keys_set_absent.
    + apply Forall_app. split.
      * eapply Forall_impl; [|exact Hb]. simpl. intros; lia.
      * repeat constructor. lia.
    + intros Hin. rewrite Forall_forall in Hb. specialize (Hb _ Hin). lia.
Qed.

Lemma set_present_wf s i u task :
  Storage.wf s -> Js.get i (Storage.tasks s) = Some task -> id u = id task ->
  Storage.wf (Storage.with_tasks s (Js.set i u (Storage.tasks s))).
Proof.
  intros Hwf Hget Hid. pose proof Hwf as [Hm _].
  apply wf_with_tasks; [| |exact Hwf].
  - apply wf_map_set; [exact Hm|]. rewrite Hid. eapply wf_map_value_id; eauto.
  - apply keys_set_present. eapply get_in_keys; eauto.
Qed.

Lemma updateTask_wf s i u : Storage.wf s -> Storage.wf (fst (Storage.updateTask s i u)).
Proof.
  intros Hwf. unfold Storage.updateTask.
  destruct (Js.get i (Storage.tasks s)) as [task|] eqn:E; [|exact Hwf].
  cbn [fst]. eapply set_present_wf; eauto.
Qed.

Lemma updateTaskPosition_wf s i p :
  Storage.wf s -> Storage.wf (fst (Storage.updateTaskPosition s i p)).
Proof.
  intros Hwf. unfold Storage.updateTaskPosition.
  destruct (Js.get i (Storage.tasks s)) as [task|] eqn:E; [|exact Hwf].
  cbn [fst]. eapply set_present_wf; eauto.
Qed.

Lemma deleteTask_wf s i : Storage.wf s -> Storage.wf (fst (Storage.deleteTask s i)).
Proof.
  intros Hwf. unfold Storage.deleteTask.
  destruct (Js.get i (Storage.tasks s)) as [task|] eqn:E; [|exact Hwf].
  destruct Hwf as [Hm Hb]. split; cbn [fst Storage.with_tasks Storage.tasks Storage.taskCurrentId].
  - now apply wf_map_delete.
  - rewrite Forall_forall in *. intros k Hk. apply Hb. eapply keys_delete_incl; eauto.
Qed.

(** A batch over a full listing keeps the keys and their order. *)
Lemma writeAll_listing_keys m st l f :
  listing m st l -> (forall t, id (f t) = id t) ->
  Storage.keys (Aux.writeAll (map f l) m) = Storage.keys m.
Proof.
  intros Hl Hf. apply writeAll_keys. intros t Ht.
  apply in_map_iff in Ht. destruct Ht as [u [<- Hu]].
  rewrite Hf. eapply listing_keys; eauto.
Qed.

Lemma writeAll_renumbered_keys m st l i :
  listing m st l ->
  Storage.keys (Aux.writeAll (renumbered i l) m) = Storage.keys m.
Proof.
  intros Hl. apply writeAll_keys. intros t Ht.
  assert (Hid : In (id t) (map id (renumbered i l))) by now apply in_map.
  rewrite renumbered_ids in Hid. apply in_map_iff in Hid.
  destruct Hid as [u [<- Hu]]. eapply listing_keys; eauto.
Qed.

Lemma sorted_column_listing m st cmp :
  Storage.wf_map m -> listing m st (Js.sort cmp (Storage.column m st)).
Proof.
  intros Hwf. apply listing_of_perm; [exact Hwf|].
  eapply Permutation_trans; [apply sort_perm | apply column_perm].
Qed.

Lemma column_listing m st : Storage.wf_map m -> listing m st (Storage.column m st).
Proof. intros Hwf. apply listing_of_perm; [exact Hwf | apply column_perm]. Qed.

Lemma updateTaskStatus_wf s i st tp tg pb :
  Storage.wf s -> Storage.wf (fst (Storage.updateTaskStatus s i st tp tg pb)).
Proof.
  intros Hwf. destruct (Storage.getTask s i) as [task|] eqn:E.
  - rewrite (updateTaskStatus_found s i st tp tg pb task E). cbn [fst].
    set (u := movedTask (Storage.tasks s) task st tp tg).
    assert (Hwf1 : Storage.wf (Storage.with_tasks s (Js.set i u (Storage.tasks s))))
      by (eapply set_present_wf; eauto).
    set (m1 := Js.set i u (Storage.tasks s)) in *.
    pose proof Hwf1 as [Hm1 _]. cbn [Storage.with_tasks Storage.tasks] in Hm1.
    change (Storage.with_tasks s ?m) with (Storage.with_tasks (Storage.with_tasks s m1) m).
    destruct (negb (Storage.is_undefined tp && Storage.is_undefined tg)).
    + pose proof (sorted_column_listing m1 st (Storage.moveCmp i) Hm1) as Hl.
      rewrite renumber_writeAll;
        [| apply (listing_ids _ _ _ Hl) | apply (listing_get _ _ _ Hl)].
      apply wf_with_tasks; [now apply writeAll_wf | | exact Hwf1].
      eapply writeAll_renumbered_keys; eauto.
    + pose proof (column_listing m1 st Hm1) as Hl.
      rewrite shiftDown_writeAll;
        [| apply (listing_ids _ _ _ Hl) | apply (listing_get _ _ _ Hl)].
      apply wf_with_tasks; [now apply writeAll_wf | | exact Hwf1].
      eapply writeAll_listing_keys; [exact Hl | apply shiftOrKeep_id].
  - now rewrite updateTaskStatus_missing.
Qed.

(** ** Same-column reorder, unfolded *)

Lemma findIndex_some {A : Type} (p : A -> bool) (l : list A) (x : A) :
  In x l -> p x = true ->
  exists k y, Js.findIndex p l = Some k /\ nth_error l k = Some y /\ p y = true.
Proof.
  induction l as [|z r IH]; intros Hin Hp; [destruct Hin|].
  simpl. destruct (p z) eqn:Ez.
  - exists O, z. repeat split; assumption.
  - destruct Hin as [-> | Hin]; [congruence|].
    destruct (IH Hin Hp) as [k [y [Hk [Hn Hy]]]].
    exists (S k), y. rewrite Hk. repeat split; assumption.
Qed.

Lemma splice_perm (others col : list Task) (task : Task) (n : nat) :
  Permutation (task :: others) col ->
  Permutation (firstn n others ++ task :: skipn n others) col.
Proof.
  intros Hp. eapply Permutation_trans; [|exact Hp].
  apply Permutation_sym.
  rewrite <- (firstn_skipn n others) at 1. apply Permutation_middle.
Qed.

Lemma in_column m st k t :
  Js.get k m = Some t -> status t = st -> In t (Storage.column m st).
Proof.
  intros Hget Hs. eapply Permutation_in; [apply Permutation_sym, column_perm|].
  apply filter_In. split; [eapply get_in_values; eauto|].
  unfold has_status. now apply String.eqb_eq.
Qed.

Lemma spliced_perm m k task n :
  Storage.wf_map m -> Js.get k m = Some task ->
  Permutation (spliced m task n) (filter (has_status (status task)) (Js.values m)).
Proof.
  intros Hwf Hget. unfold spliced.
  eapply Permutation_trans; [|apply column_perm].
  apply splice_perm. apply filter_out_perm.
  - apply (listing_ids _ _ _ (column_listing m (status task) Hwf)).
  - eapply in_column; eauto.
Qed.

Lemma reorder_found s a b pa task target :
  Storage.wf_map (Storage.tasks s) ->
  Storage.getTask s a = Some task ->
  Storage.getTask s b = Some target ->
  status task = status target ->
  a <> b ->
  exists k,
    nth_error (filter (not_task a) (Storage.column (Storage.tasks s) (status task))) k
      = Some target
    /\ Storage.reorderTaskInColumn s a b pa
       = (let n := if pa then S k else k in
          (Storage.with_tasks s
             (Storage.writeIndexed 0 (spliced (Storage.tasks s) task n) (Storage.tasks s)),
           renumbered 0 (spliced (Storage.tasks s) task n))).
Proof.
  unfold Storage.getTask. intros Hwf Ha Hb Hst Hne.
  pose proof (wf_map_value_id _ _ _ Hwf Ha) as Hida.
  pose proof (wf_map_value_id _ _ _ Hwf Hb) as Hidb.
  set (col := Storage.column (Storage.tasks s) (status task)).
  assert (Hin : In target (filter (not_task a) col)).
  { apply filter_In. split.
    - eapply in_column; eauto.
    - unfold not_task. apply negb_true_iff, Z.eqb_neq. congruence. }
  destruct (findIndex_some (fun t => id t =? id target) _ target Hin (Z.eqb_refl _))
    as [k [y [Hk [Hn Hy]]]].
  assert (y = target) as ->.
  { apply Z.eqb_eq in Hy.
    pose proof (column_listing _ (status task) Hwf) as Hl.
    apply nth_error_In in Hn. apply filter_In in Hn. destruct Hn as [Hn _].
    pose proof (listing_get _ _ _ Hl y Hn) as Hy'.
    pose proof (listing_get _ _ _ Hl target (proj1 (proj1 (filter_In _ _ _) Hin))) as Ht'.
    rewrite Hy in Hy'. congruence. }
  exists k. split; [exact Hn|].
  unfold Storage.reorderTaskInColumn. rewrite Ha, Hb.
  rewrite <- Hst, String.eqb_refl. cbn [negb].
  fold col. unfold not_task in Hk. rewrite <- Hida in Hk.
  change (fun t : Task => negb (id t =? id task)) with (not_task (id task)).
  unfold not_task at 1. rewrite Hk.
  cbn zeta. unfold spliced, Js.slice_to, Js.slice_from. fold col.
  rewrite mapi_from_renumbered. reflexivity.
Qed.

Lemma reorderTaskInColumn_wf s a b pa :
  Storage.wf s -> Storage.wf (fst (Storage.reorderTaskInColumn s a b pa)).
Proof.
  intros Hwf. pose proof Hwf as [Hm _].
  unfold Storage.reorderTaskInColumn.
  destruct (Js.get a (Storage.tasks s)) as [task|] eqn:Ea;
    destruct (Js.get b (Storage.tasks s)) as [target|] eqn:Eb; try exact Hwf.
  destruct (negb (String.eqb (status task) (status target))); [exact Hwf|].
  destruct (Js.findIndex _ _) as [k|]; [|exact Hwf].
  cbn [fst]. rewrite writeIndexed_writeAll.
  pose proof (listing_of_perm _ _ _ Hm
                (spliced_perm (Storage.tasks s) a task (if pa then S k else k) Hm Ea)) as Hl.
  apply wf_with_tasks; [now apply writeAll_wf | | exact Hwf].
  apply (writeAll_renumbered_keys _ (status task)). exact Hl.
Qed.

Lemma step_wf s o : Storage.wf s -> Storage.wf (Storage.step s o).
Proof.
  intros Hwf. destruct o; simpl.
  - now apply createTask_wf.
  - now apply updateTask_wf.
  - now apply updateTaskStatus_wf.
  - now apply updateTaskPosition_wf.
  - now apply reorderTaskInColumn_wf.
  - now apply deleteTask_wf.
Qed.

Lemma initial_wf now : Storage.wf (Storage.initial now).
Proof.
  unfold Storage.initial, Storage.initializeSampleTasks.
  generalize Storage.sampleTasks. generalize Storage.empty wf_empty.
  intros s Hs l. revert s Hs.
  induction l as [|ins r IH]; intros s Hs; simpl; [exact Hs|].
  apply IH. now apply createTask_wf.
Qed.

(** The invariant of the store. *)
Lemma reachable_wf s : Storage.reachable s -> Storage.wf s.
Proof.
  induction 1 as [now | s o _ IH]; [apply initial_wf | now apply step_wf].
Qed.

Lemma fold_step_reachable ops s :
  Storage.reachable s -> Storage.reachable (fold_left Storage.step ops s).
Proof.
  revert s. induction ops as [|o r IH]; intros s Hs; simpl; [exact Hs|].
  apply IH. now constructor.
Qed.

Lemma threeCards_reachable : Storage.reachable Board.threeCards.
Proof. apply fold_step_reachable. constructor. Qed.

Lemma twoCards_reachable : Storage.reachable Board.twoCards.
Proof. apply fold_step_reachable. constructor. Qed.

(** ** Same-column reorder *)

Lemma renumbered_filter_ids a i l :
  map id (filter (not_task a) (renumbered i l)) = map id (filter (not_task a) l).
Proof.
  revert i. induction l as [|t r IH]; intros i; [reflexivity|].
  cbn [renumbered filter].
  change (not_task a (with_position t (Some i))) with (not_task a t).
  destruct (not_task a t); cbn [map]; now rewrite IH.
Qed.

Lemma filter_idem {A : Type} (p : A -> bool) (l : list A) :
  filter p (filter p l) = filter p l.
Proof.
  induction l as [|x r IH]; simpl; [reflexivity|].
  destruct (p x) eqn:E; simpl; [rewrite E|]; now rewrite IH.
Qed.

Lemma nth_error_splice {A : Type} (l : list A) (x : A) (n : nat) :
  (n <= List.length l)%nat -> nth_error (firstn n l ++ x :: skipn n l) n = Some x.
Proof.
  intros Hn. rewrite nth_error_app2; rewrite length_firstn, Nat.min_l by lia; [|lia].
  now rewrite Nat.sub_diag.
Qed.

Lemma nth_error_splice_before {A : Type} (l : list A) (x : A) (n k : nat) :
  (k < n)%nat -> (n <= List.length l)%nat ->
  nth_error (firstn n l ++ x :: skipn n l) k = nth_error l k.
Proof.
  intros Hk Hn. rewrite nth_error_app1 by (rewrite length_firstn; lia).
  rewrite nth_error_firstn. apply Nat.ltb_lt in Hk. now rewrite Hk.
Qed.

Lemma nth_error_splice_after {A : Type} (l : list A) (x : A) (n k : nat) :
  (n <= k)%nat -> (n <= List.length l)%nat ->
  nth_error (firstn n l ++ x :: skipn n l) (S k) = nth_error l k.
Proof.
  intros Hk Hn. rewrite nth_error_app2; rewrite length_firstn, Nat.min_l by lia; [|lia].
  replace (S k - n)%nat with (S (k - n)) by lia. simpl.
  rewrite nth_error_skipn. f_equal. lia.
Qed.

(** C7. In a same-column reorder the moved task is spliced into the column
    without it: with [placeBefore] at the target's index [k] there (the target
    ends at [k+1]), without it at [k+1] (the target stays at [k]); positions
    are then the indices, the store's column is the returned list, and the
    other tasks keep their relative order. *)
Theorem reorder_inserts_next_to_target s a b placeBefore task target :
  Storage.wf_map (Storage.tasks s) ->
  Storage.getTask s a = Some task ->
  Storage.getTask s b = Some target ->
  status task = status target ->
  a <> b ->
  let others := filter (not_task a) (Storage.column (Storage.tasks s) (status task)) in
  let r := Storage.reorderTaskInColumn s a b (negb placeBefore) in
  exists k,
    nth_error others k = Some target
    /\ snd r = renumbered 0 (let n := if placeBefore then k else S k in
                             firstn n others ++ task :: skipn n others)
    /\ Storage.column (Storage.tasks (fst r)) (status task) = snd r
    /\ map position (snd r) = Storage.dense (List.length (snd r))
    /\ nth_error (map id (snd r)) (if placeBefore then k else S k) = Some a
    /\ nth_error (map id (snd r)) (if placeBefore then S k else k) = Some b
    /\ map id (filter (not_task a) (snd r)) = map id others.
Proof.
  intros Hwf Ha Hb Hst Hne others r.
  destruct (reorder_found s a b (negb placeBefore) task target Hwf Ha Hb Hst Hne)
    as [k [Hk Hr]].
  pose proof (wf_map_value_id _ _ _ Hwf Ha) as Hida.
  pose proof (wf_map_value_id _ _ _ Hwf Hb) as Hidb.
  assert (Hn : (if negb placeBefore then S k else k) = (if placeBefore then k else S k))
    by (destruct placeBefore; reflexivity).
  cbn zeta in Hr. rewrite Hn in Hr. unfold spliced in Hr. rewrite Hida in Hr.
  fold others in Hr, Hk.
  set (n := if placeBefore then k else S k) in *.
  set (L := firstn n others ++ task :: skipn n others) in *.
  assert (Hklt : (k < List.length others)%nat)
    by (apply nth_error_Some; rewrite Hk; discriminate).
  assert (Hnle : (n <= List.length others)%nat) by (subst n; destruct placeBefore; lia).
  exists k. subst r. rewrite Hr. cbn [fst snd Storage.with_tasks Storage.tasks].
  split; [exact Hk|]. split; [reflexivity|].
  split.
  { apply writeIndexed_column; [exact Hwf|].
    pose proof (spliced_perm (Storage.tasks s) a task n Hwf Ha) as Hp.
    unfold spliced in Hp. rewrite Hida in Hp. exact Hp. }
  split.
  { rewrite positions_renumbered, renumbered_length. reflexivity. }
  rewrite renumbered_ids.
  split; [|split].
  - unfold L. rewrite nth_error_map, nth_error_splice by exact Hnle.
    simpl. now rewrite Hida.
  - rewrite nth_error_map. unfold L, n. destruct placeBefore.
    + rewrite nth_error_splice_after by lia. rewrite Hk. simpl. now rewrite Hidb.
    + rewrite nth_error_splice_before by lia. rewrite Hk. simpl. now rewrite Hidb.
  - rewrite renumbered_filter_ids. unfold L.
    rewrite filter_app. simpl. unfold not_task at 2. rewrite Hida, Z.eqb_refl. simpl.
    rewrite <- filter_app, firstn_skipn. unfold others. now rewrite filter_idem.
Qed.

Lemma reorder_scenario :
  let r := Routes.postReorder Board.threeCards (Some 12)
             (Routes.mkReorderBody 10 (Some "before")) in
  map (fun t => (title t, position t)) (Storage.column (Storage.tasks (fst r)) "todo")
  = [("C", Some 0); ("A", Some 1); ("B", Some 2)].
Proof. vm_compute. reflexivity. Qed.

Lemma reorder_inserts_next_to_target_witness :
  exists task target k,
    Storage.getTask Board.threeCards 12 = Some task
    /\ Storage.getTask Board.threeCards 10 = Some target
    /\ nth_error (filter (not_task 12)
                    (Storage.column (Storage.tasks Board.threeCards) (status task))) k
       = Some target
    /\ map id (snd (Storage.reorderTaskInColumn Board.threeCards 12 10 (negb true)))
       = [12; 10; 11]
    /\ map position (snd (Storage.reorderTaskInColumn Board.threeCards 12 10 (negb true)))
       = Storage.dense 3.
Proof.
  eexists. eexists.
  assert (Ha : Storage.getTask Board.threeCards 12 = Some _) by (vm_compute; reflexivity).
  assert (Hb : Storage.getTask Board.threeCards 10 = Some _) by (vm_compute; reflexivity).
  destruct (reorder_inserts_next_to_target Board.threeCards 12 10 true _ _
              (proj1 (reachable_wf _ threeCards_reachable)) Ha Hb
              ltac:(reflexivity) ltac:(lia))
    as [k [Hk _]].
  exists k. split; [exact Ha|]. split; [exact Hb|]. split; [exact Hk|].
  split; vm_compute; reflexivity.
Defined.

(** The two routes hand the side over as [placeAfter]. *)
Lemma postReorder_side s i tgt side :
  i <> tgt ->
  Storage.getTask s i <> None ->
  Storage.getTask s tgt <> None ->
  side = "before" \/ side = "after" ->
  Routes.postReorder s (Some i) (Routes.mkReorderBody tgt (Some side))
  = (let r := Storage.reorderTaskInColumn s i tgt (String.eqb side "after") in
     (fst r, Routes.mkResponse 200 (Routes.PTasks (snd r)))).
Proof.
  intros Hne Hi Ht Hside. unfold Routes.postReorder.
  cbn [Routes.r_targetTaskId Routes.r_position].
  apply Z.eqb_neq in Hne. rewrite Hne.
  destruct (Storage.getTask s i) as [a|]; [|congruence].
  destruct (Storage.getTask s tgt) as [t|]; [|congruence].
  assert (Hpa : (String.eqb side "after"
                 || (String.eqb (status a) (status t) && (pos0 a <? pos0 t))
                    && negb (String.eqb side "before"))%bool
                = String.eqb side "after").
  { destruct Hside as [-> | ->]; simpl; [now rewrite andb_false_r | reflexivity]. }
  rewrite Hpa.
  destruct (Storage.reorderTaskInColumn s i tgt (String.eqb side "after")); reflexivity.
Qed.

Lemma patchStatus_same_column s i tgt placeBefore b task :
  Storage.getTask s i = Some task ->
  Routes.b_status b = status task ->
  Routes.b_targetTaskId b = Some tgt ->
  tgt <> 0 ->
  Routes.b_placeBefore b = Some placeBefore ->
  fst (Routes.patchStatus s (Some i) b)
  = fst (Storage.reorderTaskInColumn s i tgt (negb placeBefore)).
Proof.
  intros Hget Hst Htg Hnz Hpb. unfold Routes.patchStatus.
  rewrite Hget, Hst, String.eqb_refl, Htg, Hpb. cbn [negb Storage.truthy].
  apply Z.eqb_neq in Hnz. rewrite Hnz. cbn [negb].
  destruct (Storage.reorderTaskInColumn s i tgt (negb placeBefore)); reflexivity.
Qed.

(** ** Positions after a move *)

Lemma movedTask_id m task st tp tg : id (movedTask m task st tp tg) = id task.
Proof. reflexivity. Qed.

Lemma movedTask_status m task st tp tg : status (movedTask m task st tp tg) = st.
Proof. reflexivity. Qed.

(** Replacing the entry of [i] does not change who the others are. *)
Lemma others_set m i u st :
  Storage.keyed m -> id u = i ->
  filter (not_task i) (filter (has_status st) (Js.values (Js.set i u m)))
  = filter (not_task i) (filter (has_status st) (Js.values m)).
Proof.
  unfold Storage.keyed. intros Hk Hu.
  assert (Hdrop : forall v l, id v = i ->
            filter (not_task i) (filter (has_status st) (v :: l))
            = filter (not_task i) (filter (has_status st) l)).
  { intros v l Hv. simpl. destruct (has_status st v); [|reflexivity].
    simpl. unfold not_task at 1. now rewrite Hv, Z.eqb_refl. }
  induction m as [|[k0 v0] r IH].
  - simpl Js.set. unfold Js.values. simpl map. now rewrite Hdrop.
  - inversion Hk as [|? ? Hhd Htl]; subst. simpl in Hhd.
    cbn [Js.set]. destruct (k0 =? id u) eqn:E.
    + apply Z.eqb_eq in E. unfold Js.values. cbn [map snd].
      rewrite !Hdrop by congruence. reflexivity.
    + unfold Js.values in *. cbn [map snd filter].
      destruct (has_status st v0); cbn [filter]; [|now apply IH].
      destruct (not_task (id u) v0); [f_equal|]; now apply IH.
Qed.

Lemma dense_S n :
  Storage.dense (S n) = Some 0 :: map (fun k => Some (Z.of_nat k + 1)) (seq 0 n).
Proof.
  unfold Storage.dense. simpl. f_equal.
  rewrite <- seq_shift, map_map. apply map_ext. intros k. f_equal. lia.
Qed.

Lemma shifted_positions moved l :
  (forall t, In t l -> id t <> moved) ->
  map position (map (shiftOrKeep moved) l)
  = map (fun p => Some (Js.plus (unpos p) 1)) (map position l).
Proof.
  intros Hne. rewrite !map_map. apply map_ext_in. intros t Ht.
  unfold shiftOrKeep. destruct (id t =? moved) eqn:E; [|reflexivity].
  apply Z.eqb_eq in E. exfalso. eapply Hne; eauto.
Qed.

Lemma reorder_dense s a b pa task target :
  Storage.wf_map (Storage.tasks s) ->
  Storage.getTask s a = Some task ->
  Storage.getTask s b = Some target ->
  status task = status target ->
  a <> b ->
  let s' := fst (Storage.reorderTaskInColumn s a b pa) in
  Storage.positions (Storage.tasks s') (status task)
  = Storage.dense (List.length (Storage.column (Storage.tasks s') (status task))).
Proof.
  intros Hwf Ha Hb Hst Hne s'.
  destruct (reorder_found s a b pa task target Hwf Ha Hb Hst Hne) as [k [_ Hr]].
  subst s'. rewrite Hr. cbn [fst Storage.with_tasks Storage.tasks].
  unfold Storage.positions.
  rewrite writeIndexed_column.
  - rewrite positions_renumbered, renumbered_length. reflexivity.
  - exact Hwf.
  - eapply spliced_perm; eauto.
Qed.

Lemma move_with_placement_dense s i st tp tg pb task :
  Storage.wf_map (Storage.tasks s) ->
  Storage.getTask s i = Some task ->
  tp <> None \/ tg <> None ->
  let s' := fst (Storage.updateTaskStatus s i st tp tg pb) in
  Storage.positions (Storage.tasks s') st
  = Storage.dense (List.length (Storage.column (Storage.tasks s') st)).
Proof.
  intros Hwf Hget Hgiven s'. subst s'.
  rewrite (updateTaskStatus_found s i st tp tg pb task Hget).
  cbn [fst Storage.with_tasks Storage.tasks].
  assert (Htop : Storage.is_undefined tp && Storage.is_undefined tg = false).
  { destruct tp, tg; try reflexivity. destruct Hgiven; congruence. }
  rewrite Htop. cbn [negb].
  set (u := movedTask (Storage.tasks s) task st tp tg).
  set (m1 := Js.set i u (Storage.tasks s)).
  assert (Hwf1 : Storage.wf_map m1).
  { apply wf_map_set; [exact Hwf|]. exact (wf_map_value_id _ _ _ Hwf Hget). }
  unfold Storage.positions. rewrite renumber_column.
  - rewrite positions_renumbered, renumbered_length. reflexivity.
  - exact Hwf1.
  - eapply Permutation_trans; [apply sort_perm | apply column_perm].
Qed.

Lemma move_to_top s i st pb task :
  Storage.wf_map (Storage.tasks s) ->
  Storage.getTask s i = Some task ->
  let s' := fst (Storage.updateTaskStatus s i st None None pb) in
  Storage.getTask s' i = Some (with_status_position task st (Some 0))
  /\ (forall k t, k <> i -> Storage.getTask s k = Some t -> status t = st ->
        Storage.getTask s' k = Some (with_position t (Some (Js.plus (pos0 t) 1)))
        /\ (Z.abs (pos0 t) <= Js.MAX_SAFE_INTEGER ->
            Storage.getTask s' k = Some (with_position t (Some (pos0 t + 1)))))
  /\ (forall n,
        Z.of_nat n <= 2 ^ 53 ->
        map position (filter (not_task i) (Storage.column (Storage.tasks s) st))
          = Storage.dense n ->
        Storage.positions (Storage.tasks s') st = Storage.dense (S n)).
Proof.
  intros Hwf Hget s'. subst s'.
  rewrite (updateTaskStatus_found s i st None None pb task Hget).
  cbn [fst Storage.with_tasks Storage.tasks Storage.is_undefined andb negb].
  unfold movedTask. rewrite placement_top. cbn [fst].
  set (u := with_status_position task st (Some 0)).
  set (m1 := Js.set i u (Storage.tasks s)).
  pose proof (wf_map_value_id _ _ _ Hwf Hget) as Hid.
  assert (Hidu : id u = i) by exact Hid.
  assert (Hwf1 : Storage.wf_map m1) by (apply wf_map_set; assumption).
  pose proof (column_listing m1 st Hwf1) as Hl.
  set (col := Storage.column m1 st) in *.
  rewrite shiftDown_writeAll;
    [| apply (listing_ids _ _ _ Hl) | apply (listing_get _ _ _ Hl)].
  assert (Hnd : NoDup (map id (map (shiftOrKeep i) col)))
    by (rewrite map_shiftOrKeep_ids; apply (listing_ids _ _ _ Hl)).
  assert (Hu : In u col).
  { eapply in_column; [apply get_set_eq | reflexivity]. }
  unfold Storage.getTask. cbn [Storage.tasks].
  split; [|split].
  - assert (Hsu : shiftOrKeep i u = u)
      by (unfold shiftOrKeep; now rewrite Hidu, Z.eqb_refl).
    pose proof (writeAll_get_in (map (shiftOrKeep i) col) m1 (shiftOrKeep i u) Hnd
                  (in_map _ _ _ Hu)) as H.
    rewrite Hsu, Hidu in H. exact H.
  - intros k t Hk Ht Hs.
    pose proof (wf_map_value_id _ _ _ Hwf Ht) as Hidt.
    assert (Ht1 : Js.get k m1 = Some t)
      by (unfold m1; rewrite get_set_ne by congruence; exact Ht).
    assert (Hin : In t col) by (eapply in_column; eauto).
    assert (Hsh : shiftOrKeep i t = with_position t (Some (Js.plus (pos0 t) 1))).
    { unfold shiftOrKeep. destruct (id t =? i) eqn:E; [|reflexivity].
      apply Z.eqb_eq in E. congruence. }
    pose proof (writeAll_get_in (map (shiftOrKeep i) col) m1 (shiftOrKeep i t) Hnd
                  (in_map _ _ _ Hin)) as H.
    rewrite shiftOrKeep_id, Hsh, Hidt in H.
    split; [exact H|]. intros Hsafe. now rewrite <- (plus_safe _ Hsafe).
  - intros n Hn Hdense. unfold Storage.positions, Storage.column.
    apply positions_sorted_dense.
    eapply Permutation_trans.
    { apply Permutation_map.
      apply (writeAll_group (map (shiftOrKeep i) col) m1 st Hwf1 Hnd).
      - intros t Ht. apply in_map_iff in Ht. destruct Ht as [x [<- Hx]].
        rewrite shiftOrKeep_id. eapply listing_keys; eauto.
      - intros t Ht. apply in_map_iff in Ht. destruct Ht as [x [<- Hx]].
        rewrite shiftOrKeep_status. apply (listing_status _ _ _ Hl). exact Hx.
      - intros k v Hk Hs. rewrite map_shiftOrKeep_ids.
        eapply (listing_all _ _ _ Hl); eauto. }
    assert (Hsplit : Permutation (u :: filter (not_task i) col) col).
    { rewrite <- Hidu at 1. apply filter_out_perm; [apply (listing_ids _ _ _ Hl) | exact Hu]. }
    eapply Permutation_trans.
    { apply Permutation_map, Permutation_map, Permutation_sym. exact Hsplit. }
    cbn [map]. rewrite dense_S.
    replace (position (shiftOrKeep i u)) with (Some 0)
      by (unfold shiftOrKeep; now rewrite Hidu, Z.eqb_refl).
    apply perm_skip.
    rewrite shifted_positions.
    2:{ intros t Ht. apply filter_In in Ht. destruct Ht as [_ Ht].
        unfold not_task in Ht. apply negb_true_iff, Z.eqb_neq in Ht. exact Ht. }
    assert (Hothers : Permutation (filter (not_task i) col)
                        (filter (not_task i) (Storage.column (Storage.tasks s) st))).
    { eapply Permutation_trans; [apply perm_filter, column_perm|].
      unfold m1. rewrite others_set; [| apply Hwf | exact Hidu].
      apply perm_filter, Permutation_sym, column_perm. }
    eapply Permutation_trans.
    { apply Permutation_map, Permutation_map. exact Hothers. }
    rewrite Hdense. unfold Storage.dense. rewrite map_map. simpl.
    replace (map (fun k => Some (Js.plus (Z.of_nat k) 1)) (seq 0 n))
      with (map (fun k => Some (Z.of_nat k + 1)) (seq 0 n)); [apply Permutation_refl|].
    apply map_ext_in. intros k Hk. apply in_seq in Hk. f_equal. symmetry.
    apply plus_safe. unfold Js.MAX_SAFE_INTEGER. lia.
Qed.

(** Every request handled by the status and reorder routes is a storage
    step, so the routes keep the store reachable. *)
Lemma patchStatus_reachable s i b :
  Storage.reachable s -> Storage.reachable (fst (Routes.patchStatus s i b)).
Proof.
  intros Hs. unfold Routes.patchStatus.
  destruct i as [i|]; [|exact Hs].
  destruct (Storage.getTask s i) as [task|]; [|exact Hs].
  destruct (negb (String.eqb (status task) (Routes.b_status b))).
  - destruct (Storage.truthy (Routes.b_targetTaskId b));
      [|destruct (negb (Storage.is_undefined (Routes.b_position b)));
         [|destruct (_ || _)]];
      cbn [fst];
      match goal with
      | |- Storage.reachable (fst (Storage.updateTaskStatus ?s ?i ?st ?tp ?tg ?pb)) =>
          exact (@Storage.reach_step s (Storage.OpUpdateTaskStatus i st tp tg pb) Hs)
      end.
  - destruct (Storage.truthy (Routes.b_targetTaskId b)).
    + match goal with
      | |- context [Storage.reorderTaskInColumn ?s ?a ?t ?pa] =>
          pose proof (@Storage.reach_step s (Storage.OpReorderTaskInColumn a t pa) Hs) as H;
          cbn [Storage.step] in H;
          destruct (Storage.reorderTaskInColumn s a t pa) as [s' l]
      end.
      exact H.
    + cbn [fst].
      match goal with
      | |- Storage.reachable (fst (Storage.updateTaskStatus ?s ?i ?st ?tp ?tg ?pb)) =>
          exact (@Storage.reach_step s (Storage.OpUpdateTaskStatus i st tp tg pb) Hs)
      end.
Qed.

Lemma postReorder_reachable s i b :
  Storage.reachable s -> Storage.reachable (fst (Routes.postReorder s i b)).
Proof.
  intros Hs. unfold Routes.postReorder.
  destruct i as [i|]; [|exact Hs].
  destruct (i =? Routes.r_targetTaskId b); [exact Hs|].
  destruct (Storage.getTask s i) as [a|]; [|exact Hs].
  destruct (Storage.getTask s (Routes.r_targetTaskId b)) as [t|]; [|exact Hs].
  match goal with
  | |- context [Storage.reorderTaskInColumn ?s ?a ?t ?pa] =>
      pose proof (@Storage.reach_step s (Storage.OpReorderTaskInColumn a t pa) Hs) as H;
      cbn [Storage.step] in H;
      destruct (Storage.reorderTaskInColumn s a t pa) as [s' l]
  end.
  exact H.
Qed.

(** C1 (as amended). After a same-column reorder of two distinct tasks of one
    column, and after a move that is given a target position or a target task,
    the positions of the affected column are exactly 0..N-1 in order, N its
    number of tasks.  After a move given neither (top placement) the moved task
    is at position 0 and every other task of the target column has its
    position plus one as a [number]: one position further down than before
    when its position is a safe integer (at most 2^53 - 1 in magnitude), the
    rounded sum otherwise.  The column is then 0..N-1 when the other tasks of
    the target column were numbered 0..N-2 before (N - 1 at most 2^53). *)
Theorem positions_after_move_or_reorder :
  (forall s a b placeAfter task target,
      Storage.wf_map (Storage.tasks s) ->
      Storage.getTask s a = Some task ->
      Storage.getTask s b = Some target ->
      status task = status target ->
      a <> b ->
      let s' := fst (Storage.reorderTaskInColumn s a b placeAfter) in
      Storage.positions (Storage.tasks s') (status task)
      = Storage.dense (List.length (Storage.column (Storage.tasks s') (status task))))
  /\ (forall s i st targetPosition targetTaskId placeBefore task,
        Storage.wf_map (Storage.tasks s) ->
        Storage.getTask s i = Some task ->
        targetPosition <> None \/ targetTaskId <> None ->
        let s' := fst (Storage.updateTaskStatus s i st targetPosition targetTaskId
                         placeBefore) in
        Storage.positions (Storage.tasks s') st
        = Storage.dense (List.length (Storage.column (Storage.tasks s') st)))
  /\ (forall s i st placeBefore task,
        Storage.wf_map (Storage.tasks s) ->
        Storage.getTask s i = Some task ->
        let s' := fst (Storage.updateTaskStatus s i st None None placeBefore) in
        Storage.getTask s' i = Some (with_status_position task st (Some 0))
        /\ (forall k t, k <> i -> Storage.getTask s k = Some t -> status t = st ->
              Storage.getTask s' k = Some (with_position t (Some (Js.plus (pos0 t) 1)))
              /\ (Z.abs (pos0 t) <= Js.MAX_SAFE_INTEGER ->
                  Storage.getTask s' k = Some (with_position t (Some (pos0 t + 1)))))
        /\ (forall n,
              Z.of_nat n <= 2 ^ 53 ->
              map position (filter (not_task i) (Storage.column (Storage.tasks s) st))
                = Storage.dense n ->
              Storage.positions (Storage.tasks s') st = Storage.dense (S n))).
Proof.
  split; [|split].
  - exact reorder_dense.
  - exact move_with_placement_dense.
  - exact move_to_top.
Qed.

Lemma positions_after_move_or_reorder_witness :
  Storage.positions
    (Storage.tasks (fst (Storage.reorderTaskInColumn Board.threeCards 12 10 false))) "todo"
  = Storage.dense 3
  /\ Storage.positions
       (Storage.tasks (fst (Storage.updateTaskStatus (Storage.initial 0) 1 "done"
                              (Some 0) None false))) "done"
     = Storage.dense 3
  /\ Storage.positions
       (Storage.tasks (fst (Storage.updateTaskStatus Board.twoCards 10 "done"
                              None None false))) "done"
     = Storage.dense 1.
Proof.
  destruct positions_after_move_or_reorder as [Ha [Hb Hc]].
  split; [|split].
  - assert (H1 : Storage.getTask Board.threeCards 12 = Some _) by (vm_compute; reflexivity).
    assert (H2 : Storage.getTask Board.threeCards 10 = Some _) by (vm_compute; reflexivity).
    exact (Ha Board.threeCards 12 10 false _ _
             (proj1 (reachable_wf _ threeCards_reachable)) H1 H2
             ltac:(reflexivity) ltac:(lia)).
  - assert (H1 : Storage.getTask (Storage.initial 0) 1 = Some _) by (vm_compute; reflexivity).
    exact (Hb (Storage.initial 0) 1 "done" (Some 0) None false _
             (proj1 (initial_wf 0)) H1 ltac:(left; discriminate)).
  - assert (H1 : Storage.getTask Board.twoCards 10 = Some _) by (vm_compute; reflexivity).
    destruct (Hc Board.twoCards 10 "done" false _
                (proj1 (reachable_wf _ twoCards_reachable)) H1) as [_ [_ Hd]].
    apply (Hd O); [simpl; lia | reflexivity].
Defined.

(** Two successful top-placement moves from the initial board: task 1 from
    "todo" to "done", then task 8 from "done" to "todo".  The first leaves
    "todo" as 1,2,3; the second shifts it to 2,3,4 under the new 0. *)
Lemma dense_after_every_move_counterexample :
  let r1 := Routes.patchStatus (Storage.initial 0) (Some 1) (Board.topBody "done") in
  let r2 := Routes.patchStatus (fst r1) (Some 8) (Board.topBody "todo") in
  Routes.code (snd r1) = 200
  /\ Routes.code (snd r2) = 200
  /\ Storage.positions (Storage.tasks (fst r2)) "todo" = [Some 0; Some 2; Some 3; Some 4]
  /\ Storage.positions (Storage.tasks (fst r2)) "todo"
     <> Storage.dense (List.length (Storage.column (Storage.tasks (fst r2)) "todo")).
Proof.
  cbv zeta. repeat split; try (vm_compute; reflexivity).
  vm_compute. discriminate.
Qed.

(** Beyond the safe integers the shift of a top placement is not a
    successor: task 8 is given position 2^53 by PATCH /position; task 1 is
    then moved to the top of its column; task 8 is still at 2^53. *)
Example top_placement_shift_at_two_to_53 :
  let r1 := Routes.patchPosition (Storage.initial 0) (Some 8) (2 ^ 53) in
  let r2 := Routes.patchStatus (fst r1) (Some 1) (Board.topBody "done") in
  Routes.code (snd r1) = 200
  /\ Routes.code (snd r2) = 200
  /\ option_map position (Storage.getTask (fst r1) 8) = Some (Some (2 ^ 53))
  /\ option_map position (Storage.getTask (fst r2) 8) = Some (Some (2 ^ 53))
  /\ option_map position (Storage.getTask (fst r1) 9) = Some (Some 1)
  /\ option_map position (Storage.getTask (fst r2) 9) = Some (Some 2).
Proof. cbv zeta. repeat split; vm_compute; reflexivity. Qed.

(** ** What a position write and a move leave alone *)

Lemma updateTaskPosition_found s i p task :
  Storage.getTask s i = Some task ->
  Storage.updateTaskPosition s i p
  = (Storage.with_tasks s (Js.set i (with_position task (Some p)) (Storage.tasks s)),
     Some (with_position task (Some p))).
Proof. unfold Storage.getTask, Storage.updateTaskPosition. now intros ->. Qed.

(** C9. [updateTaskPosition(id, p)] stores [p] as given on task [id] and on
    nothing else: every other entry, and the order of the entries, is as
    before, whatever the other positions are; the position route adds nothing
    to it.  From the initial board, setting task 1 to position 1 leaves tasks
    1 and 2 of "todo" both at position 1. *)
Theorem updateTaskPosition_writes_one_task :
  (forall s i p task,
      Storage.getTask s i = Some task ->
      let s' := fst (Storage.updateTaskPosition s i p) in
      Storage.getTask s' i = Some (with_position task (Some p))
      /\ (forall k, k <> i -> Storage.getTask s' k = Storage.getTask s k)
      /\ Storage.keys (Storage.tasks s') = Storage.keys (Storage.tasks s)
      /\ fst (Routes.patchPosition s (Some i) p) = s')
  /\ (exists s i p a b ta tb,
        Storage.reachable s
        /\ a <> b
        /\ Storage.getTask (fst (Storage.updateTaskPosition s i p)) a = Some ta
        /\ Storage.getTask (fst (Storage.updateTaskPosition s i p)) b = Some tb
        /\ status ta = status tb
        /\ position ta = position tb).
Proof.
  split.
  - intros s i p task Hget s'. subst s'.
    unfold Routes.patchPosition.
    rewrite (updateTaskPosition_found s i p task Hget).
    cbn [fst Storage.with_tasks Storage.tasks]. unfold Storage.getTask in *.
    cbn [Storage.tasks]. repeat split.
    + apply get_set_eq.
    + intros k Hk. apply get_set_ne. congruence.
    + apply keys_set_present. eapply get_in_keys; eauto.
  - exists (Storage.initial 0), 1, 1, 1, 2.
    eexists. eexists.
    split; [constructor|]. split; [lia|].
    split; [vm_compute; reflexivity|].
    split; [vm_compute; reflexivity|].
    split; reflexivity.
Qed.

Lemma updateTaskPosition_writes_one_task_witness :
  exists task,
    Storage.getTask (Storage.initial 0) 1 = Some task
    /\ Storage.getTask (fst (Storage.updateTaskPosition (Storage.initial 0) 1 7)) 1
       = Some (with_position task (Some 7))
    /\ Storage.getTask (fst (Storage.updateTaskPosition (Storage.initial 0) 1 7)) 2
       = Storage.getTask (Storage.initial 0) 2.
Proof.
  eexists.
  assert (H : Storage.getTask (Storage.initial 0) 1 = Some _) by (vm_compute; reflexivity).
  destruct (proj1 updateTaskPosition_writes_one_task (Storage.initial 0) 1 7 _ H)
    as [H1 [H2 _]].
  split; [exact H|]. split; [exact H1|]. apply H2. lia.
Defined.

Lemma updateTaskStatus_frame s i st tp tg pb k t :
  Storage.wf_map (Storage.tasks s) ->
  Storage.getTask s k = Some t ->
  k <> i ->
  status t <> st ->
  Storage.getTask (fst (Storage.updateTaskStatus s i st tp tg pb)) k = Some t.
Proof.
  intros Hwf Hk Hne Hst.
  destruct (Storage.getTask s i) as [task|] eqn:Hget.
  2:{ now rewrite updateTaskStatus_missing. }
  rewrite (updateTaskStatus_found s i st tp tg pb task Hget).
  cbn [fst]. unfold Storage.getTask in *. cbn [Storage.with_tasks Storage.tasks].
  set (u := movedTask (Storage.tasks s) task st tp tg).
  set (m1 := Js.set i u (Storage.tasks s)).
  assert (Hwf1 : Storage.wf_map m1).
  { apply wf_map_set; [exact Hwf|]. exact (wf_map_value_id _ _ _ Hwf Hget). }
  assert (Hk1 : Js.get k m1 = Some t)
    by (unfold m1; rewrite get_set_ne by congruence; exact Hk).
  assert (Hout : forall l, listing m1 st l -> ~ In k (map id l)).
  { intros l Hl Hin. apply in_map_iff in Hin. destruct Hin as [x [Hx Hin]].
    pose proof (listing_get _ _ _ Hl x Hin) as Hgx.
    rewrite Hx, Hk1 in Hgx. injection Hgx as <-.
    apply Hst. apply (listing_status _ _ _ Hl). exact Hin. }
  destruct (negb (Storage.is_undefined tp && Storage.is_undefined tg)).
  - pose proof (sorted_column_listing m1 st (Storage.moveCmp i) Hwf1) as Hl.
    rewrite renumber_writeAll;
      [| apply (listing_ids _ _ _ Hl) | apply (listing_get _ _ _ Hl)].
    rewrite writeAll_get_out; [exact Hk1|].
    rewrite renumbered_ids. now apply Hout.
  - pose proof (column_listing m1 st Hwf1) as Hl.
    rewrite shiftDown_writeAll;
      [| apply (listing_ids _ _ _ Hl) | apply (listing_get _ _ _ Hl)].
    rewrite writeAll_get_out; [exact Hk1|].
    rewrite map_shiftOrKeep_ids. now apply Hout.
Qed.

Lemma reorderTaskInColumn_frame s a b pa task k t :
  Storage.wf_map (Storage.tasks s) ->
  Storage.getTask s a = Some task ->
  Storage.getTask s k = Some t ->
  status t <> status task ->
  Storage.getTask (fst (Storage.reorderTaskInColumn s a b pa)) k = Some t.
Proof.
  intros Hwf Ha Hk Hst. unfold Storage.getTask in *.
  unfold Storage.reorderTaskInColumn. rewrite Ha.
  destruct (Js.get b (Storage.tasks s)) as [target|] eqn:Hb; [|exact Hk].
  destruct (negb (String.eqb (status task) (status target))); [exact Hk|].
  destruct (Js.findIndex _ _) as [n|]; [|exact Hk].
  cbn [fst Storage.with_tasks Storage.tasks].
  rewrite writeIndexed_writeAll.
  pose proof (listing_of_perm _ _ _ Hwf
                (spliced_perm (Storage.tasks s) a task (if pa then S n else n) Hwf Ha))
    as Hl.
  rewrite writeAll_get_out; [exact Hk|].
  rewrite renumbered_ids. intros Hin.
  apply in_map_iff in Hin. destruct Hin as [x [Hx Hin]].
  pose proof (listing_get _ _ _ Hl x Hin) as Hgx.
  rewrite Hx, Hk in Hgx. injection Hgx as <-.
  apply Hst. apply (listing_status _ _ _ Hl). exact Hin.
Qed.

(** C6. A move writes to the moved task and to the target column only: every
    other task whose status is not the target status is stored unchanged,
    through the storage call and through the status route alike, so the column
    the task leaves is not renumbered.  With A (position 0) and B (position 1)
    in "todo" and "done" empty, moving A to "done" with [toTop] leaves A at
    position 0 of "done" and B at position 1 of "todo". *)
Theorem move_writes_target_column_only :
  (forall s i st targetPosition targetTaskId placeBefore k t,
      Storage.wf_map (Storage.tasks s) ->
      Storage.getTask s k = Some t ->
      k <> i ->
      status t <> st ->
      Storage.getTask
        (fst (Storage.updateTaskStatus s i st targetPosition targetTaskId placeBefore)) k
      = Some t)
  /\ (forall s i b k t,
        Storage.wf_map (Storage.tasks s) ->
        Storage.getTask s k = Some t ->
        k <> i ->
        status t <> Routes.b_status b ->
        Storage.getTask (fst (Routes.patchStatus s (Some i) b)) k = Some t)
  /\ (Board.summary Board.twoCards = [(10, "todo", Some 0); (11, "todo", Some 1)]
      /\ Board.summary (fst (Routes.patchStatus Board.twoCards (Some 10)
                               (Board.topBody "done")))
         = [(10, "done", Some 0); (11, "todo", Some 1)]).
Proof.
  split; [|split].
  - intros. now apply updateTaskStatus_frame.
  - intros s i b k t Hwf Hk Hne Hst. unfold Routes.patchStatus.
    destruct (Storage.getTask s i) as [task|] eqn:Hget; [|exact Hk].
    destruct (negb (String.eqb (status task) (Routes.b_status b))) eqn:Hcross.
    + destruct (Storage.truthy (Routes.b_targetTaskId b));
        [|destruct (negb (Storage.is_undefined (Routes.b_position b)));
           [|destruct (_ || _)]];
        cbn [fst]; now apply updateTaskStatus_frame.
    + apply negb_false_iff, String.eqb_eq in Hcross.
      destruct (Storage.truthy (Routes.b_targetTaskId b)).
      * match goal with
        | |- context [Storage.reorderTaskInColumn ?s ?a ?tg ?pa] =>
            pose proof (reorderTaskInColumn_frame s a tg pa task k t Hwf Hget Hk
                          ltac:(congruence)) as H;
            destruct (Storage.reorderTaskInColumn s a tg pa) as [s' l]
        end.
        exact H.
      * cbn [fst]. now apply updateTaskStatus_frame.
  - split; vm_compute; reflexivity.
Qed.

Lemma move_writes_target_column_only_witness :
  exists t,
    Storage.getTask Board.twoCards 11 = Some t
    /\ Storage.getTask
         (fst (Routes.patchStatus Board.twoCards (Some 10) (Board.topBody "done"))) 11
       = Some t.
Proof.
  eexists.
  assert (H : Storage.getTask Board.twoCards 11 = Some _) by (vm_compute; reflexivity).
  split; [exact H|].
  apply (proj1 (proj2 move_writes_target_column_only) Board.twoCards 10
           (Board.topBody "done") 11 _
           (proj1 (reachable_wf _ twoCards_reachable)) H);
    [lia | simpl; discriminate].
Defined.

(** ** A move whose target task is missing *)

Lemma find_by_id (l : list Task) (t : Task) :
  NoDup (map id l) -> In t l -> find (fun x => id x =? id t) l = Some t.
Proof.
  induction l as [|u r IH]; intros Hnd Hin; [destruct Hin|].
  simpl in Hnd. inversion Hnd as [|? ? Hnotin Hnd']; subst.
  simpl. destruct Hin as [-> | Hin].
  - now rewrite Z.eqb_refl.
  - destruct (id u =? id t) eqn:E; [|now apply IH].
    apply Z.eqb_eq in E. exfalso. apply Hnotin. rewrite E. now apply in_map.
Qed.

Lemma in_renumbered i l t :
  In t l -> exists p, In (with_position t (Some p)) (renumbered i l).
Proof.
  revert i. induction l as [|u r IH]; intros i Hin; [destruct Hin|].
  destruct Hin as [-> | Hin].
  - exists i. now left.
  - destruct (IH (i + 1) Hin) as [p Hp]. exists p. now right.
Qed.

Lemma placement_missing_target m tp tg :
  tg <> 0 -> Js.get tg m = None -> Storage.placement m tp (Some tg) = (0, false).
Proof.
  intros Hnz Hget. unfold Storage.placement. cbn [Storage.truthy].
  apply Z.eqb_neq in Hnz. rewrite Hnz. cbn [negb]. rewrite Hget.
  now rewrite andb_false_r.
Qed.

(** C8 (as amended). The status route answers NotFound, writing nothing, when
    the moved task does not exist.  When the request names a non-zero target
    task id that does not exist, the call succeeds: a task already in the
    requested column is returned as it is and nothing is written; otherwise
    the task is stored in the requested column, answered with raw position 0,
    and that column is renumbered 0..N-1. *)
Theorem move_with_missing_target :
  (forall s i b,
      Storage.getTask s i = None ->
      Routes.patchStatus s (Some i) b
      = (s, Routes.mkResponse 404 (Routes.PMessage "Task not found")))
  /\ (forall s i b tgt task,
        Storage.wf_map (Storage.tasks s) ->
        Storage.getTask s i = Some task ->
        Routes.b_targetTaskId b = Some tgt ->
        tgt <> 0 ->
        Storage.getTask s tgt = None ->
        let r := Routes.patchStatus s (Some i) b in
        Routes.code (snd r) = 200
        /\ (status task = Routes.b_status b ->
            fst r = s /\ Routes.payload (snd r) = Routes.PTask task)
        /\ (status task <> Routes.b_status b ->
            Routes.payload (snd r)
              = Routes.PTask (with_status_position task (Routes.b_status b) (Some 0))
            /\ (exists p, Storage.getTask (fst r) i
                          = Some (with_status_position task (Routes.b_status b) (Some p)))
            /\ Storage.positions (Storage.tasks (fst r)) (Routes.b_status b)
               = Storage.dense
                   (List.length (Storage.column (Storage.tasks (fst r)) (Routes.b_status b))))).
Proof.
  split.
  - intros s i b Hget. unfold Routes.patchStatus. now rewrite Hget.
  - intros s i b tgt task Hwf Hget Htg Hnz Hmiss r. subst r.
    pose proof (wf_map_value_id _ _ _ Hwf Hget) as Hid.
    unfold Routes.patchStatus. rewrite Hget, Htg.
    assert (Htruthy : Storage.truthy (Some tgt) = true)
      by (cbn [Storage.truthy]; apply negb_true_iff, Z.eqb_neq; exact Hnz).
    rewrite Htruthy.
    destruct (String.eqb (status task) (Routes.b_status b)) eqn:Hsame; cbn [negb].
    + apply String.eqb_eq in Hsame.
      unfold Storage.reorderTaskInColumn.
      unfold Storage.getTask in Hget, Hmiss. rewrite Hget, Hmiss.
      cbn [fst snd Routes.code Routes.payload].
      split; [reflexivity|]. split; [|congruence].
      intros _. split; [reflexivity|].
      rewrite <- Hid.
      rewrite find_by_id; [reflexivity | |].
      * apply (listing_ids _ _ _ (column_listing _ (status task) Hwf)).
      * eapply in_column; eauto.
    + apply String.eqb_neq in Hsame.
      rewrite (updateTaskStatus_found s i (Routes.b_status b) None (Some tgt) _ task Hget).
      cbn [fst snd Routes.code Routes.payload].
      unfold movedTask. rewrite (placement_missing_target _ None tgt Hnz Hmiss).
      cbn [fst Storage.is_undefined andb negb Storage.with_tasks Storage.tasks].
      split; [reflexivity|]. split; [congruence|].
      intros _. split; [reflexivity|].
      set (st := Routes.b_status b).
      set (u := with_status_position task st (Some 0)).
      set (m1 := Js.set i u (Storage.tasks s)).
      assert (Hwf1 : Storage.wf_map m1) by (apply wf_map_set; assumption).
      pose proof (sorted_column_listing m1 st (Storage.moveCmp i) Hwf1) as Hl.
      set (L := Js.sort (Storage.moveCmp i) (Storage.column m1 st)) in *.
      split.
      * assert (Hu : In u L).
        { eapply Permutation_in; [apply Permutation_sym, sort_perm|].
          eapply in_column; [apply get_set_eq | reflexivity]. }
        destruct (in_renumbered 0 L u Hu) as [p Hp].
        exists p. unfold Storage.getTask. cbn [Storage.tasks].
        rewrite renumber_writeAll;
          [| apply (listing_ids _ _ _ Hl) | apply (listing_get _ _ _ Hl)].
        rewrite <- Hid.
        change (id task) with (id (with_position u (Some p))).
        change (with_status_position task st (Some p)) with (with_position u (Some p)).
        apply writeAll_get_in; [|exact Hp].
        rewrite renumbered_ids. apply (listing_ids _ _ _ Hl).
      * unfold Storage.positions. rewrite renumber_column.
        -- rewrite positions_renumbered, renumbered_length. reflexivity.
        -- exact Hwf1.
        -- eapply Permutation_trans; [apply sort_perm | apply column_perm].
Qed.

Lemma move_with_missing_target_witness :
  exists task,
    Storage.getTask (Storage.initial 0) 1 = Some task
    /\ Routes.code (snd (Routes.patchStatus (Storage.initial 0) (Some 1)
                           (Routes.mkStatusBody "todo" (Some 99) None None None None None)))
       = 200
    /\ fst (Routes.patchStatus (Storage.initial 0) (Some 1)
              (Routes.mkStatusBody "todo" (Some 99) None None None None None))
       = Storage.initial 0.
Proof.
  eexists.
  assert (H : Storage.getTask (Storage.initial 0) 1 = Some _) by (vm_compute; reflexivity).
  destruct (proj2 move_with_missing_target (Storage.initial 0) 1
              (Routes.mkStatusBody "todo" (Some 99) None None None None None) 99 _
              (proj1 (initial_wf 0)) H ltac:(reflexivity) ltac:(lia) ltac:(reflexivity))
    as [Hcode [Hsame _]].
  split; [exact H|]. split; [exact Hcode|].
  apply Hsame. reflexivity.
Defined.

(** Task 1 of the initial board is moved to "done" relative to task 99, which
    does not exist: the answer is 200 and task 1 is stored in "done". *)
Lemma missing_target_not_found_counterexample :
  let r := Routes.patchStatus (Storage.initial 0) (Some 1)
             (Routes.mkStatusBody "done" (Some 99) None None None None None) in
  Storage.getTask (Storage.initial 0) 99 = None
  /\ Routes.code (snd r) = 200
  /\ Routes.code (snd r) <> 404
  /\ option_map status (Storage.getTask (Storage.initial 0) 1) = Some "todo"
  /\ option_map status (Storage.getTask (fst r) 1) = Some "done"
  /\ fst r <> Storage.initial 0.
Proof.
  cbv zeta.
  assert (Hbefore : option_map status (Storage.getTask (Storage.initial 0) 1) = Some "todo")
    by (vm_compute; reflexivity).
  assert (Hafter :
            option_map status
              (Storage.getTask
                 (fst (Routes.patchStatus (Storage.initial 0) (Some 1)
                         (Routes.mkStatusBody "done" (Some 99) None None None None None))) 1)
            = Some "done")
    by (vm_compute; reflexivity).
  repeat split; try (vm_compute; reflexivity); try assumption.
  - vm_compute. discriminate.
  - intros E. rewrite E, Hbefore in Hafter. discriminate.
Qed.

(* ===================================================================== *)
(** * The command log *)
(* ===================================================================== *)

Import Client.

Section LogFacts.
Context {env : Env}.

Lemma last_snoc (h : list Command) (c : Command) :
  last (map Some (h ++ [c])) None = Some c.
Proof. rewrite map_app. simpl. apply last_last. Qed.

Lemma canUndo_snoc (p : Provider) h c :
  commandHistory p = h ++ [c] -> canUndo p = true.
Proof.
  intros H. unfold canUndo. rewrite H, length_app. simpl.
  apply Nat.ltb_lt. lia.
Qed.

(** [executeCommand] when [execute] resolves. *)
Lemma executeCommand_resolved (p : Provider) (command : Command) (w' : World) :
  execute command (world p) = (Resolved tt, w') ->
  executeCommand command p
  = (Resolved tt, mkProvider w' (commandHistory p ++ [command]) [] (toasts p)).
Proof.
  intros H. unfold executeCommand, tryCatch, bind, await. rewrite H. reflexivity.
Qed.

(** [executeCommand] when [execute] rejects. *)
Lemma executeCommand_rejected (p : Provider) (command : Command) (e : string) (w' : World) :
  execute command (world p) = (Rejected e, w') ->
  executeCommand command p
  = (Resolved tt,
     mkProvider w' (commandHistory p) (redoStack p)
       (if Js.includes "Move task" (description command) then toasts p
        else toasts p ++ [mkToast "Action failed"
                            "Could not complete the requested action." true])).
Proof.
  intros H. unfold executeCommand, tryCatch, bind, await. rewrite H.
  destruct (Js.includes "Move task" (description command)); reflexivity.
Qed.

(** The provider's [undo] when the top command's [undo] resolves. *)
Lemma undoLast_resolved (p : Provider) (h : list Command) (c : Command) (w' : World) :
  commandHistory p = h ++ [c] ->
  undo c (world p) = (Resolved tt, w') ->
  undoLast p
  = (Resolved tt,
     mkProvider w' h (redoStack p ++ [c])
       (toasts p ++ [mkToast "Undo successful"
                       (String.append "Undid: " (description c)) false])).
Proof.
  intros Hh Hu. unfold undoLast. rewrite (canUndo_snoc p h c Hh). cbn [negb].
  rewrite Hh, last_snoc.
  unfold tryCatch, bind, await, setCommandHistory, setRedoStack, toast.
  rewrite Hu. cbn [world commandHistory redoStack toasts].
  rewrite Hh, removelast_last. reflexivity.
Qed.

(** The provider's [undo] when the top command's [undo] rejects. *)
Lemma undoLast_rejected (p : Provider) (h : list Command) (c : Command)
    (e : string) (w' : World) :
  commandHistory p = h ++ [c] ->
  undo c (world p) = (Rejected e, w') ->
  undoLast p
  = (Resolved tt,
     mkProvider w' (h ++ [c]) (redoStack p)
       (toasts p ++ [mkToast "Undo failed" "Could not undo the last action." true])).
Proof.
  intros Hh Hu. unfold undoLast. rewrite (canUndo_snoc p h c Hh). cbn [negb].
  rewrite Hh, last_snoc.
  unfold tryCatch, bind, await, toast.
  rewrite Hu. cbn [world commandHistory redoStack toasts]. now rewrite Hh.
Qed.

Lemma undoLast_empty (p : Provider) :
  commandHistory p = [] -> undoLast p = (Resolved tt, p).
Proof. intros H. unfold undoLast, canUndo. now rewrite H. Qed.

(** [MoveTaskCommand.undo] with a valid id resolves, whatever the request
    and the invalidation do. *)
Lemma move_undo_resolves (c : MoveTaskCommand) (w : World) :
  0 < taskId c -> fst (move_undo c w) = Resolved tt.
Proof.
  intros Hid. unfold move_undo.
  destruct (taskId c <=? 0) eqn:E; [apply Z.leb_le in E; lia|].
  unfold tryCatch, bind, ret.
  destruct (apiRequest _ w) as [[r|e] w1]; [|reflexivity].
  destruct (invalidateQueries w1) as [[[]|e] w2]; reflexivity.
Qed.

Lemma move_execute_valid_id (c : MoveTaskCommand) (w w' : World) :
  move_execute c w = (Resolved tt, w') -> 0 < taskId c.
Proof.
  unfold move_execute. destruct (taskId c <=? 0) eqn:E.
  - discriminate.
  - intros _. apply Z.leb_gt in E. exact E.
Qed.

Lemma move_description_drag (c : MoveTaskCommand) :
  Js.includes "Move task" (move_description c) = true.
Proof. reflexivity. Qed.

(** [ReorderTaskCommand.undo] is the cache invalidation and nothing else;
    the snapshot does not enter it. *)
Lemma reorder_undo_is_invalidation (c : ReorderTaskCommand) (w : World) :
  reorder_undo c w = invalidateQueries w.
Proof.
  unfold reorder_undo, tryCatch, throw.
  destruct (invalidateQueries w) as [[[]|e] w1]; reflexivity.
Qed.

End LogFacts.

(** C3. When [cmd.execute()] resolves, [executeCommand] appends [cmd] to the
    past ([commandHistory]) and empties the future ([redoStack]), whatever it
    held: [canRedo] is false afterwards.  The state the middleware builds for
    EXECUTE_COMMAND has the same two stacks. *)
Theorem executeCommand_clears_future :
  (forall (env : Env) (p : Provider) (command : Command) (w' : World),
      execute command (world p) = (Resolved tt, w') ->
      fst (executeCommand command p) = Resolved tt
      /\ commandHistory (snd (executeCommand command p)) = commandHistory p ++ [command]
      /\ redoStack (snd (executeCommand command p)) = []
      /\ canRedo (snd (executeCommand command p)) = false
      /\ canUndo (snd (executeCommand command p)) = true
      /\ world (snd (executeCommand command p)) = w')
  /\ (forall (env : Env) (state : CommandHistoryState) (command : Command),
        past (execute_updatedState state command) = past state ++ [command]
        /\ future (execute_updatedState state command) = []).
Proof.
  split.
  - intros env p command w' H. rewrite (executeCommand_resolved p command w' H).
    cbn [fst snd commandHistory redoStack world]. repeat split.
    unfold canUndo. cbn [commandHistory]. rewrite length_app. simpl.
    apply Nat.ltb_lt. lia.
  - intros env state command. split; reflexivity.
Qed.

Lemma executeCommand_clears_future_witness :
  let undone := Board.moveCmd 2 "todo" "done" in
  let p := Board.provider (Board.mkWorld (Storage.initial 0) true []) [] [undone; undone] in
  let cmd := Board.moveCmd 1 "todo" "done" in
  canRedo p = true
  /\ redoStack (snd (executeCommand cmd p)) = []
  /\ commandHistory (snd (executeCommand cmd p)) = [cmd]
  /\ canRedo (snd (executeCommand cmd p)) = false.
Proof.
  cbv zeta.
  assert (H : exists w',
             execute (Board.moveCmd 1 "todo" "done")
               (Board.mkWorld (Storage.initial 0) true [])
             = (Resolved tt, w'))
    by (eexists; vm_compute; reflexivity).
  destruct H as [w' H].
  destruct (proj1 executeCommand_clears_future Board.env
              (Board.provider (Board.mkWorld (Storage.initial 0) true [])
                 [] [Board.moveCmd 2 "todo" "done"; Board.moveCmd 2 "todo" "done"])
              (Board.moveCmd 1 "todo" "done") w' H)
    as [_ [Hpast [Hfuture [Hredo _]]]].
  split; [reflexivity|]. split; [exact Hfuture|]. split; [exact Hpast | exact Hredo].
Defined.

(** C5 (as amended). When [cmd.execute()] rejects, [executeCommand] leaves
    the past and the future as they were and does not push the command.  The
    error is not passed on: [executeCommand] resolves; it shows an "Action
    failed" toast, except for a command whose description contains "Move task",
    for which it shows nothing. *)
Theorem executeCommand_failure_keeps_stacks (env : Env) (p : Provider) (command : Command)
    (e : string) (w' : World) :
  execute command (world p) = (Rejected e, w') ->
  fst (executeCommand command p) = Resolved tt
  /\ commandHistory (snd (executeCommand command p)) = commandHistory p
  /\ redoStack (snd (executeCommand command p)) = redoStack p
  /\ toasts (snd (executeCommand command p))
     = (if Js.includes "Move task" (description command) then toasts p
        else toasts p ++ [mkToast "Action failed"
                            "Could not complete the requested action." true]).
Proof.
  intros H. rewrite (executeCommand_rejected p command e w' H).
  cbn [fst snd commandHistory redoStack toasts]. repeat split.
Qed.

Lemma executeCommand_failure_keeps_stacks_witness :
  let p := Board.start (Storage.initial 0) false in
  let cmd := ReorderTaskCommand_as_Command (Board.reorderOf (Storage.initial 0) "todo" 3 1) in
  fst (executeCommand cmd p) = Resolved tt
  /\ commandHistory (snd (executeCommand cmd p)) = []
  /\ redoStack (snd (executeCommand cmd p)) = []
  /\ map toast_title (toasts (snd (executeCommand cmd p))) = ["Action failed"].
Proof.
  cbv zeta.
  assert (H : exists e w',
             execute (ReorderTaskCommand_as_Command
                        (Board.reorderOf (Storage.initial 0) "todo" 3 1))
               (world (Board.start (Storage.initial 0) false))
             = (Rejected e, w'))
    by (eexists; eexists; vm_compute; reflexivity).
  destruct H as [e [w' H]].
  destruct (executeCommand_failure_keeps_stacks Board.env _ _ e w' H)
    as [Hr [Hpast [Hfuture Htoasts]]].
  split; [exact Hr|]. split; [exact Hpast|]. split; [exact Hfuture|].
  rewrite Htoasts. reflexivity.
Defined.

(** A move command is executed while the server cannot be reached:
    [execute] rejects, [executeCommand] resolves and nothing is shown. *)
Lemma execute_error_surfaced_counterexample :
  let p := Board.start (Storage.initial 0) false in
  let cmd := Board.moveCmd 1 "todo" "done" in
  fst (execute cmd (world p)) = Rejected "Failed to fetch"
  /\ fst (executeCommand cmd p) = Resolved tt
  /\ toasts (snd (executeCommand cmd p)) = [].
Proof. cbv zeta. repeat split; vm_compute; reflexivity. Qed.

(** C4 (as amended). When the past is not empty and the [undo()] of its top
    command rejects, the provider's [undo] leaves both stacks as they were:
    the command stays on top of the past.  The provider's [undo] itself
    resolves; the failure is reported by an "Undo failed" toast. *)
Theorem undo_failure_keeps_command (env : Env) (p : Provider) (h : list Command)
    (c : Command) (e : string) (w' : World) :
  commandHistory p = h ++ [c] ->
  undo c (world p) = (Rejected e, w') ->
  fst (undoLast p) = Resolved tt
  /\ commandHistory (snd (undoLast p)) = h ++ [c]
  /\ redoStack (snd (undoLast p)) = redoStack p
  /\ toasts (snd (undoLast p))
     = toasts p ++ [mkToast "Undo failed" "Could not undo the last action." true].
Proof.
  intros Hh Hu. rewrite (undoLast_rejected p h c e w' Hh Hu).
  cbn [fst snd commandHistory redoStack toasts]. repeat split.
Qed.

Lemma undo_failure_keeps_command_witness :
  let p := Board.provider (Board.mkWorld (Storage.initial 0) true []) [Board.brokenUndo] [] in
  commandHistory (snd (undoLast p)) = [Board.brokenUndo]
  /\ redoStack (snd (undoLast p)) = []
  /\ map toast_title (toasts (snd (undoLast p))) = ["Undo failed"].
Proof.
  cbv zeta.
  destruct (undo_failure_keeps_command Board.env
              (Board.provider (Board.mkWorld (Storage.initial 0) true []) [Board.brokenUndo] [])
              [] Board.brokenUndo "cannot undo" (Board.mkWorld (Storage.initial 0) true [])
              ltac:(reflexivity) ltac:(reflexivity))
    as [_ [Hpast [Hfuture Htoasts]]].
  split; [exact Hpast|]. split; [exact Hfuture|]. rewrite Htoasts. reflexivity.
Defined.

(** The past holds one command whose [undo] rejects: after the provider's
    [undo] it is still in the past, and the call resolved. *)
Lemma failed_undo_popped_counterexample :
  let p := Board.provider (Board.mkWorld (Storage.initial 0) true []) [Board.brokenUndo] [] in
  fst (undo Board.brokenUndo (world p)) = Rejected "cannot undo"
  /\ fst (undoLast p) = Resolved tt
  /\ In Board.brokenUndo (commandHistory (snd (undoLast p))).
Proof. cbv zeta. repeat split; try reflexivity. left. reflexivity. Qed.

(** C10. [MoveTaskCommand.undo()] with a valid task id (which every move
    command that [execute] accepted has) resolves whatever the status request
    and the invalidation do, so the provider's [undo] moves a move command
    from the past to the future and shows "Undo successful".  This also
    happens when the request never reached the server: on the board below
    task 1 is still in "done" after the undo of its move from "todo". *)
Theorem move_undo_always_succeeds :
  (forall (env : Env) (c : MoveTaskCommand) (w : World),
      0 < taskId c -> fst (move_undo c w) = Resolved tt)
  /\ (forall (env : Env) (c : MoveTaskCommand) (w w' : World),
        move_execute c w = (Resolved tt, w') -> 0 < taskId c)
  /\ (forall (env : Env) (c : MoveTaskCommand) (p : Provider) (h : list Command),
        0 < taskId c ->
        commandHistory p = h ++ [MoveTaskCommand_as_Command c] ->
        fst (undoLast p) = Resolved tt
        /\ commandHistory (snd (undoLast p)) = h
        /\ redoStack (snd (undoLast p)) = redoStack p ++ [MoveTaskCommand_as_Command c]
        /\ toasts (snd (undoLast p))
           = toasts p ++ [mkToast "Undo successful"
                            (String.append "Undid: " (move_description c)) false])
  /\ (let cmd := Board.moveCmd 1 "todo" "done" in
      let moved := snd (executeCommand cmd (Board.start (Storage.initial 0) true)) in
      let after := snd (undoLast (Board.setOnline false moved)) in
      commandHistory moved = [cmd]
      /\ option_map status (Storage.getTask (Board.server (world moved)) 1) = Some "done"
      /\ commandHistory after = []
      /\ redoStack after = [cmd]
      /\ map toast_title (toasts after) = ["Undo successful"]
      /\ option_map status (Storage.getTask (Board.server (world after)) 1) = Some "done").
Proof.
  split; [|split; [|split]].
  - intros env c w. apply move_undo_resolves.
  - intros env c w w'. apply move_execute_valid_id.
  - intros env c p h Hid Hh.
    pose proof (move_undo_resolves c (world p) Hid) as Hu.
    destruct (move_undo c (world p)) as [r w'] eqn:E. simpl in Hu. subst r.
    rewrite (undoLast_resolved p h (MoveTaskCommand_as_Command c) w' Hh E).
    cbn [fst snd commandHistory redoStack toasts]. repeat split.
  - cbv zeta. repeat split; vm_compute; reflexivity.
Qed.

Lemma move_undo_always_succeeds_witness :
  let c := newMoveTaskCommand (ObjNumber 1) "todo" "done" None in
  let p := Board.provider (Board.mkWorld (Storage.initial 0) false [])
             [MoveTaskCommand_as_Command c] [] in
  fst (undoLast p) = Resolved tt
  /\ commandHistory (snd (undoLast p)) = []
  /\ redoStack (snd (undoLast p)) = [MoveTaskCommand_as_Command c].
Proof.
  cbv zeta.
  destruct (proj1 (proj2 (proj2 move_undo_always_succeeds)) Board.env
              (newMoveTaskCommand (ObjNumber 1) "todo" "done" None)
              (Board.provider (Board.mkWorld (Storage.initial 0) false [])
                 [MoveTaskCommand_as_Command
                    (newMoveTaskCommand (ObjNumber 1) "todo" "done" None)] [])
              [] ltac:(simpl; lia) ltac:(reflexivity))
    as [Hr [Hpast [Hfuture _]]].
  split; [exact Hr|]. split; [exact Hpast | exact Hfuture].
Defined.

(** C2 (the code at the failing input). [ReorderTaskCommand.undo()] is the
    cache invalidation alone; on the board it writes nothing to the server.
    With A, B, C in "todo", the command that puts C before A captures the
    order A, B, C; after [execute] the column is C, A, B, and after the
    provider's [undo], reported as successful, it still is. *)
Theorem reorder_undo_leaves_new_order :
  (forall (env : Env) (c : ReorderTaskCommand) (w : World),
      reorder_undo c w = invalidateQueries w)
  /\ (forall (c : @ReorderTaskCommand Board.env) (w : Board.World),
        Board.server (snd (reorder_undo c w)) = Board.server w)
  /\ (let c := Board.reorderOf Board.threeCards "todo" 12 10 in
      let cmd := ReorderTaskCommand_as_Command c in
      let done := snd (executeCommand cmd (Board.start Board.threeCards true)) in
      let undone := snd (undoLast done) in
      Board.titles (previousOrder c) = ["A"; "B"; "C"]
      /\ commandHistory done = [cmd]
      /\ Board.titles (Storage.column (Storage.tasks (Board.server (world done))) "todo")
         = ["C"; "A"; "B"]
      /\ commandHistory undone = []
      /\ redoStack undone = [cmd]
      /\ map toast_title (toasts undone) = ["Undo successful"]
      /\ Board.titles (Storage.column (Storage.tasks (Board.server (world undone))) "todo")
         = ["C"; "A"; "B"]
      /\ Storage.column (Storage.tasks (Board.server (world undone))) "todo"
         <> previousOrder c).
Proof.
  split; [|split].
  - intros env c w. apply reorder_undo_is_invalidation.
  - intros c w. rewrite reorder_undo_is_invalidation.
    simpl. unfold Board.refetch. destruct (Board.online w); reflexivity.
  - cbv zeta. repeat split; try (vm_compute; reflexivity).
    intros E. apply (f_equal Board.titles) in E. vm_compute in E. discriminate.
Qed.

(* ===================================================================== *)
(** * Further properties of the store *)
(* ===================================================================== *)

(** ** Creating and deleting *)

Lemma set_fresh {V : Type} (m : Js.NumMap V) k v :
  ~ In k (Storage.keys m) -> Js.set k v m = m ++ [(k, v)].
Proof.
  unfold Storage.keys. induction m as [|[k0 v0] r IH]; simpl; intros Hn; [reflexivity|].
  destruct (k0 =? k) eqn:E.
  - apply Z.eqb_eq in E. tauto.
  - rewrite IH by tauto. reflexivity.
Qed.

Lemma get_delete_ne {V : Type} (m : Js.NumMap V) k k' :
  k <> k' -> Js.get k' (Js.delete k m) = Js.get k' m.
Proof.
  intros Hne. induction m as [|[k0 v0] r IH]; simpl; [reflexivity|].
  destruct (k0 =? k) eqn:E.
  - apply Z.eqb_eq in E. subst k0.
    destruct (k =? k') eqn:E'; [apply Z.eqb_eq in E'; contradiction | reflexivity].
  - simpl. destruct (k0 =? k'); [reflexivity | exact IH].
Qed.

Lemma get_delete_eq {V : Type} (m : Js.NumMap V) k :
  NoDup (Storage.keys m) -> Js.get k (Js.delete k m) = None.
Proof.
  unfold Storage.keys. induction m as [|[k0 v0] r IH]; simpl; intros Hnd; [reflexivity|].
  inversion Hnd as [|? ? Hnotin Hnd']; subst.
  destruct (k0 =? k) eqn:E.
  - apply Z.eqb_eq in E. subst k0. now apply keys_not_in_get_none.
  - simpl. rewrite E. now apply IH.
Qed.

Lemma delete_absent {V : Type} (m : Js.NumMap V) k :
  ~ In k (Storage.keys m) -> Js.delete k m = m.
Proof.
  unfold Storage.keys. induction m as [|[k0 v0] r IH]; simpl; intros Hn; [reflexivity|].
  destruct (k0 =? k) eqn:E.
  - apply Z.eqb_eq in E. tauto.
  - rewrite IH by tauto. reflexivity.
Qed.

Lemma delete_last {V : Type} (m : Js.NumMap V) k v :
  ~ In k (Storage.keys m) -> Js.delete k (m ++ [(k, v)]) = m.
Proof.
  unfold Storage.keys. induction m as [|[k0 v0] r IH]; simpl; intros Hn.
  - now rewrite Z.eqb_refl.
  - destruct (k0 =? k) eqn:E.
    + apply Z.eqb_eq in E. tauto.
    + rewrite IH by tauto. reflexivity.
Qed.

Lemma counter_fresh s : Storage.wf s -> ~ In (Storage.taskCurrentId s) (Storage.keys (Storage.tasks s)).
Proof.
  intros [_ Hb] Hin. rewrite Forall_forall in Hb. specialize (Hb _ Hin). lia.
Qed.

Lemma fold_max_ge (l : list Z) (a : Z) :
  a <= fold_left Z.max l a /\ forall x, In x l -> x <= fold_left Z.max l a.
Proof.
  revert a. induction l as [|y r IH]; intros a; simpl.
  - split; [lia | tauto].
  - destruct (IH (Z.max a y)) as [H1 H2]. split; [lia|].
    intros x [<- | Hx]; [lia | now apply H2].
Qed.

Lemma max_list_ge (l : list Z) x : In x l -> x <= Storage.max_list l.
Proof.
  destruct l as [|a r]; [intros []|]. simpl.
  destruct (fold_max_ge r a) as [H1 H2].
  intros [<- | Hx]; [exact H1 | now apply H2].
Qed.

Lemma fold_max_in (l : list Z) (a : Z) :
  fold_left Z.max l a = a \/ In (fold_left Z.max l a) l.
Proof.
  revert a. induction l as [|y r IH]; intros a; simpl; [now left|].
  destruct (IH (Z.max a y)) as [H | H]; [|right; now right].
  rewrite H. destruct (Z.max_spec a y) as [[_ ->] | [_ ->]]; [right; now left | now left].
Qed.

Lemma max_list_in (l : list Z) : l <> [] -> In (Storage.max_list l) l.
Proof.
  destruct l as [|a r]; [congruence|]. intros _. simpl.
  destruct (fold_max_in r a) as [-> | H]; [now left | now right].
Qed.

(** Positions that are safe integers, decided by evaluation. *)
Lemma safe_positions_dec (l : list Task) :
  forallb (fun t => Z.abs (pos0 t) <=? Js.MAX_SAFE_INTEGER) l = true ->
  Forall (fun t => Z.abs (pos0 t) <= Js.MAX_SAFE_INTEGER) l.
Proof.
  intros H. apply Forall_forall. intros t Ht.
  apply Z.leb_le. exact (proj1 (forallb_forall _ l) H t Ht).
Qed.

(** A task that compares no greater than the last one is inserted in
    front of it. *)
Lemma insert_sorted_before_last (y x : Task) (l : list Task) :
  pos0 y <= pos0 x ->
  Js.insert_sorted Storage.byPosition y (l ++ [x])
  = Js.insert_sorted Storage.byPosition y l ++ [x].
Proof.
  intros Hle. induction l as [|z r IH]; simpl.
  - unfold Storage.byPosition.
    destruct (pos0 y - pos0 x <=? 0) eqn:E; [reflexivity | apply Z.leb_gt in E; lia].
  - destruct (Storage.byPosition y z <=? 0); [reflexivity|]. now rewrite IH.
Qed.

Lemma sort_app_last (l : list Task) (x : Task) :
  (forall y, In y l -> pos0 y <= pos0 x) ->
  Js.sort Storage.byPosition (l ++ [x]) = Js.sort Storage.byPosition l ++ [x].
Proof.
  induction l as [|y r IH]; intros Hle; [reflexivity|].
  simpl. rewrite IH by (intros; apply Hle; now right).
  apply insert_sorted_before_last. apply Hle. now left.
Qed.

Lemma createTask_tasks s now ins :
  Storage.wf s ->
  Storage.tasks (fst (Storage.createTask s now ins))
  = Storage.tasks s ++ [(Storage.taskCurrentId s, snd (Storage.createTask s now ins))].
Proof.
  intros Hwf. unfold Storage.createTask. cbn [fst snd Storage.tasks].
  apply set_fresh. now apply counter_fresh.
Qed.

(** X1. [createTask] hands out the counter as the new id, which no stored
    task has; the new task is found under it, goes last in the store and
    leaves every other entry alone; the counter moves on by one. *)
Theorem createTask_fresh_id s now ins :
  Storage.wf s ->
  let s' := fst (Storage.createTask s now ins) in
  let task := snd (Storage.createTask s now ins) in
  id task = Storage.taskCurrentId s
  /\ Storage.getTask s (id task) = None
  /\ Storage.getTask s' (id task) = Some task
  /\ (forall k, k <> id task -> Storage.getTask s' k = Storage.getTask s k)
  /\ Storage.getAllTasks s' = Storage.getAllTasks s ++ [task]
  /\ Storage.taskCurrentId s' = Storage.taskCurrentId s + 1.
Proof.
  intros Hwf s' task.
  assert (Hid : id task = Storage.taskCurrentId s) by reflexivity.
  split; [exact Hid|]. rewrite Hid.
  split; [apply keys_not_in_get_none; now apply counter_fresh|].
  split; [|split; [|split]].
  - unfold s', task, Storage.getTask, Storage.createTask.
    cbn [fst snd Storage.tasks]. apply get_set_eq.
  - intros k Hk. unfold s', Storage.getTask, Storage.createTask.
    cbn [fst Storage.tasks]. apply get_set_ne. congruence.
  - unfold s', Storage.getAllTasks, Js.values.
    rewrite (createTask_tasks s now ins Hwf), map_app. reflexivity.
  - reflexivity.
Qed.

Lemma createTask_fresh_id_witness :
  Storage.getTask (fst (Storage.createTask (Storage.initial 0) 5 (Board.card "A"))) 10
  = Some (snd (Storage.createTask (Storage.initial 0) 5 (Board.card "A")))
  /\ Storage.getTask (Storage.initial 0) 10 = None.
Proof.
  destruct (createTask_fresh_id (Storage.initial 0) 5 (Board.card "A") (initial_wf 0))
    as [_ [Hnone [Hget _]]].
  split; [exact Hget | exact Hnone].
Defined.

(** A task created without a position goes last in its column, one
    position after the last, when the positions of the column are safe
    integers. *)
Lemma createTask_bottom s now ins :
  Storage.wf s ->
  ins_position ins = None ->
  Forall (fun t => Z.abs (pos0 t) <= Js.MAX_SAFE_INTEGER)
    (Storage.column (Storage.tasks s) (ins_status ins)) ->
  let s' := fst (Storage.createTask s now ins) in
  let task := snd (Storage.createTask s now ins) in
  let old := Storage.column (Storage.tasks s) (ins_status ins) in
  Storage.column (Storage.tasks s') (ins_status ins) = old ++ [task]
  /\ (old = [] -> position task = Some 0)
  /\ (old <> [] ->
      exists top, In top old
                  /\ position task = Some (pos0 top + 1)
                  /\ forall t, In t old -> pos0 t <= pos0 top)
  /\ (forall st, st <> ins_status ins ->
        Storage.column (Storage.tasks s') st = Storage.column (Storage.tasks s) st).
Proof.
  intros Hwf Hpos Hsafe s' task old.
  set (group := filter (has_status (ins_status ins)) (Js.values (Storage.tasks s))).
  assert (Hold : old = Js.sort Storage.byPosition group) by reflexivity.
  assert (Hperm : Permutation old group) by (rewrite Hold; apply sort_perm).
  assert (Hp : position task
               = Some (match group with
                       | [] => 0
                       | _ => Js.plus (Storage.max_list (map pos0 group)) 1
                       end)).
  { unfold task, Storage.createTask. cbn [snd position]. rewrite Hpos. reflexivity. }
  assert (Htop : group <> [] ->
                 exists top, In top old
                             /\ position task = Some (pos0 top + 1)
                             /\ forall t, In t old -> pos0 t <= pos0 top).
  { intros Hne.
    assert (Hin : In (Storage.max_list (map pos0 group)) (map pos0 group)).
    { apply max_list_in. destruct group; [congruence | discriminate]. }
    apply in_map_iff in Hin. destruct Hin as [top [Htop Hin]].
    assert (Hino : In top old)
      by (eapply Permutation_in; [apply Permutation_sym, Hperm | exact Hin]).
    exists top. split; [exact Hino|]. split.
    - rewrite Hp. destruct group as [|g r] eqn:Eg; [congruence|].
      rewrite <- Htop. f_equal. apply plus_safe.
      exact (proj1 (Forall_forall _ _) Hsafe top Hino).
    - intros t Ht. rewrite Htop. apply max_list_ge. apply in_map.
      eapply Permutation_in; [apply Hperm | exact Ht]. }
  assert (Hlt : forall t, In t group -> pos0 t < pos0 task).
  { intros t Ht.
    destruct Htop as [top [_ [Htask Hle]]]; [intros E; rewrite E in Ht; destruct Ht|].
    unfold pos0 at 2. rewrite Htask.
    assert (pos0 t <= pos0 top); [|lia].
    apply Hle. eapply Permutation_in; [apply Permutation_sym, Hperm | exact Ht]. }
  assert (Hvalues : Js.values (Storage.tasks s') = Js.values (Storage.tasks s) ++ [task]).
  { unfold s', Js.values. rewrite (createTask_tasks s now ins Hwf), map_app. reflexivity. }
  split; [|split; [|split]].
  - unfold Storage.column. rewrite Hvalues, filter_app. cbn [filter].
    replace (String.eqb (status task) (ins_status ins)) with true
      by (symmetry; apply String.eqb_refl).
    fold (has_status (ins_status ins)). fold group.
    rewrite sort_app_last; [now rewrite Hold|].
    intros y Hy. specialize (Hlt y Hy). lia.
  - intros Hempty. rewrite Hp. destruct group as [|g r] eqn:Eg; [reflexivity|].
    exfalso. assert (Hin : In g old).
    { rewrite Hold. eapply Permutation_in; [apply Permutation_sym, sort_perm | now left]. }
    rewrite Hempty in Hin. destruct Hin.
  - intros Hne. apply Htop. intros E. apply Hne.
    rewrite E in Hperm. now apply Permutation_sym, Permutation_nil in Hperm.
  - intros st Hst. unfold Storage.column. rewrite Hvalues, filter_app. cbn [filter].
    replace (String.eqb (status task) st) with false.
    + now rewrite app_nil_r.
    + symmetry. apply String.eqb_neq. intros E. apply Hst. rewrite <- E. reflexivity.
Qed.

(** Filtering a sorted list and sorting the filtered list agree: the sort
    is stable. *)
Lemma insert_sorted_head (x : Task) (l : list Task) :
  (forall y, In y l -> pos0 x <= pos0 y) ->
  Js.insert_sorted Storage.byPosition x l = x :: l.
Proof.
  destruct l as [|y r]; intros H; [reflexivity|]. simpl.
  unfold Storage.byPosition.
  destruct (pos0 x - pos0 y <=? 0) eqn:E; [reflexivity|].
  apply Z.leb_gt in E. specialize (H y (or_introl eq_refl)). lia.
Qed.

Lemma sorted_strongly l : Sorted le_pos l -> StronglySorted le_pos l.
Proof.
  apply Sorted_StronglySorted. intros a b c. unfold le_pos. lia.
Qed.

Lemma filter_insert_sorted (p : Task -> bool) (x : Task) (l : list Task) :
  StronglySorted le_pos l ->
  filter p (Js.insert_sorted Storage.byPosition x l)
  = if p x then Js.insert_sorted Storage.byPosition x (filter p l) else filter p l.
Proof.
  induction 1 as [|z r Hr IH Hall].
  - simpl. destruct (p x); reflexivity.
  - rewrite Forall_forall in Hall. cbn [Js.insert_sorted].
    unfold Storage.byPosition at 1.
    destruct (pos0 x - pos0 z <=? 0) eqn:E.
    + apply Z.leb_le in E. cbn [filter]. destruct (p x) eqn:Epx; [|reflexivity].
      symmetry. apply insert_sorted_head.
      intros y Hy. destruct (p z) eqn:Epz.
      * destruct Hy as [<- | Hy]; [lia|].
        apply filter_In in Hy. destruct Hy as [Hy _].
        specialize (Hall y Hy). unfold le_pos in Hall. lia.
      * apply filter_In in Hy. destruct Hy as [Hy _].
        specialize (Hall y Hy). unfold le_pos in Hall. lia.
    + cbn [filter]. destruct (p z) eqn:Epz.
      * rewrite IH. destruct (p x); [|reflexivity].
        cbn [Js.insert_sorted]. unfold Storage.byPosition at 2. now rewrite E.
      * exact IH.
Qed.

Lemma filter_sort (p : Task -> bool) (l : list Task) :
  filter p (Js.sort Storage.byPosition l) = Js.sort Storage.byPosition (filter p l).
Proof.
  induction l as [|x r IH]; [reflexivity|].
  cbn [Js.sort fold_right filter].
  rewrite filter_insert_sorted by (apply sorted_strongly, sort_sorted).
  fold (Js.sort Storage.byPosition r). rewrite IH.
  destruct (p x); reflexivity.
Qed.

Lemma values_delete m i :
  Storage.wf_map m -> Js.values (Js.delete i m) = filter (not_task i) (Js.values m).
Proof.
  unfold Storage.wf_map, Storage.keyed, Storage.keys, Js.values. intros [Hnd Hk].
  induction m as [|[k0 v0] r IH]; [reflexivity|].
  inversion Hnd as [|? ? Hnotin Hnd']; subst.
  inversion Hk as [|? ? Hhd Htl]; subst. simpl in Hhd.
  cbn [Js.delete map snd filter]. unfold not_task at 1. rewrite Hhd.
  destruct (k0 =? i) eqn:E; cbn [negb].
  - apply Z.eqb_eq in E. subst k0. symmetry. apply forallb_filter_id.
    apply forallb_forall. intros t Ht. unfold not_task.
    apply negb_true_iff, Z.eqb_neq. intros Eid. apply Hnotin.
    apply in_map_iff in Ht. destruct Ht as [[k v] [Hv Hin]]. simpl in Hv. subst v.
    rewrite Forall_forall in Htl. specialize (Htl _ Hin). simpl in Htl.
    apply in_map_iff. exists (k, t). split; [simpl; congruence | exact Hin].
  - cbn [map snd]. f_equal. now apply IH.
Qed.

Lemma filter_comm {A : Type} (p q : A -> bool) (l : list A) :
  filter p (filter q l) = filter q (filter p l).
Proof.
  induction l as [|x r IH]; [reflexivity|]. simpl.
  destruct (p x) eqn:Ep, (q x) eqn:Eq; simpl; rewrite ?Ep, ?Eq, IH; reflexivity.
Qed.

(** X3. [deleteTask] answers whether the task existed.  A missing id changes
    nothing.  An existing task disappears, every other task is stored as
    before, and each column is the old column without the task, in the same
    order and with the same positions: nothing is renumbered. *)
Theorem deleteTask_removes_one s i :
  Storage.wf_map (Storage.tasks s) ->
  (Storage.getTask s i = None -> Storage.deleteTask s i = (s, false))
  /\ (forall t, Storage.getTask s i = Some t ->
        let s' := fst (Storage.deleteTask s i) in
        snd (Storage.deleteTask s i) = true
        /\ Storage.getTask s' i = None
        /\ (forall k, k <> i -> Storage.getTask s' k = Storage.getTask s k)
        /\ (forall st, Storage.column (Storage.tasks s') st
                       = filter (not_task i) (Storage.column (Storage.tasks s) st))
        /\ Storage.taskCurrentId s' = Storage.taskCurrentId s).
Proof.
  intros Hwf. unfold Storage.getTask, Storage.deleteTask. split.
  - now intros ->.
  - intros t Ht. rewrite Ht. cbn [fst snd Storage.with_tasks Storage.tasks Storage.taskCurrentId].
    split; [reflexivity|]. split; [apply get_delete_eq, Hwf|].
    split; [intros k Hk; apply get_delete_ne; congruence|].
    split; [|reflexivity].
    intros st. unfold Storage.column.
    rewrite values_delete by exact Hwf.
    rewrite filter_sort. f_equal. apply filter_comm.
Qed.

Lemma deleteTask_removes_one_witness :
  Board.titles
    (Storage.column (Storage.tasks (fst (Storage.deleteTask Board.threeCards 11))) "todo")
  = ["A"; "C"]
  /\ map position
       (Storage.column (Storage.tasks (fst (Storage.deleteTask Board.threeCards 11))) "todo")
     = [Some 0; Some 2].
Proof.
  assert (H : Storage.getTask Board.threeCards 11 = Some _) by (vm_compute; reflexivity).
  destruct (proj2 (deleteTask_removes_one Board.threeCards 11
                     (proj1 (reachable_wf _ threeCards_reachable))) _ H)
    as [_ [_ [_ [Hcol _]]]].
  rewrite (Hcol "todo"). split; vm_compute; reflexivity.
Defined.

(** X4. Deleting the task that was just created gives back the task map as it
    was, entry for entry, but not the counter: the id is not handed out
    again. *)
Theorem create_then_delete s now ins :
  Storage.wf s ->
  let created := Storage.createTask s now ins in
  let deleted := Storage.deleteTask (fst created) (id (snd created)) in
  snd deleted = true
  /\ Storage.tasks (fst deleted) = Storage.tasks s
  /\ Storage.taskCurrentId (fst deleted) = Storage.taskCurrentId s + 1
  /\ id (snd (Storage.createTask (fst deleted) now ins)) <> id (snd created).
Proof.
  intros Hwf created deleted.
  pose proof (counter_fresh s Hwf) as Hfresh.
  assert (Hid : id (snd created) = Storage.taskCurrentId s) by reflexivity.
  assert (Hget : Js.get (Storage.taskCurrentId s) (Storage.tasks (fst created))
                 = Some (snd created)).
  { unfold created, Storage.createTask. cbn [fst snd Storage.tasks]. apply get_set_eq. }
  assert (Hdel : deleted
                 = (Storage.with_tasks (fst created)
                      (Js.delete (Storage.taskCurrentId s) (Storage.tasks (fst created))),
                    true)).
  { unfold deleted, Storage.deleteTask. now rewrite Hid, Hget. }
  assert (Hcounter : Storage.taskCurrentId (fst deleted) = Storage.taskCurrentId s + 1)
    by (rewrite Hdel; reflexivity).
  split; [now rewrite Hdel|]. split; [|split; [exact Hcounter|]].
  - rewrite Hdel. cbn [fst Storage.with_tasks Storage.tasks].
    unfold created. rewrite (createTask_tasks s now ins Hwf). now apply delete_last.
  - change (id (snd (Storage.createTask (fst deleted) now ins)))
      with (Storage.taskCurrentId (fst deleted)).
    rewrite Hcounter, Hid. lia.
Qed.

Lemma create_then_delete_witness :
  Storage.tasks
    (fst (Storage.deleteTask (fst (Storage.createTask (Storage.initial 0) 3 (Board.card "A")))
            10))
  = Storage.tasks (Storage.initial 0).
Proof.
  destruct (create_then_delete (Storage.initial 0) 3 (Board.card "A") (initial_wf 0))
    as [_ [H _]].
  exact H.
Defined.

(** ** What moves and reorders keep *)

Lemma with_position_self t : with_position t (position t) = t.
Proof. destruct t; reflexivity. Qed.

(** A batch that only rewrites positions of a listing: every stored task
    is afterwards the same record up to its position. *)
Lemma repositioning_batch m st l l' :
  listing m st l ->
  NoDup (map id l') ->
  (forall t', In t' l' -> exists x p, In x l /\ t' = with_position x p) ->
  forall k t, Js.get k m = Some t ->
    exists p, Js.get k (writeAll l' m) = Some (with_position t p).
Proof.
  intros Hl Hnd Hfrom k t Hget.
  destruct (in_dec Z.eq_dec k (map id l')) as [Hin | Hout].
  - apply in_map_iff in Hin. destruct Hin as [t' [Hid Ht']].
    destruct (Hfrom t' Ht') as [x [p [Hx ->]]].
    pose proof (listing_get _ _ _ Hl x Hx) as Hgx.
    change (id (with_position x p)) with (id x) in Hid.
    rewrite Hid, Hget in Hgx. injection Hgx as ->.
    exists p. rewrite <- Hid.
    change (id x) with (id (with_position x p)).
    now apply writeAll_get_in.
  - exists (position t). rewrite writeAll_get_out by assumption.
    now rewrite with_position_self.
Qed.

Lemma renumbered_from i l t' :
  In t' (renumbered i l) -> exists x p, In x l /\ t' = with_position x p.
Proof.
  revert i. induction l as [|u r IH]; intros i; simpl; [tauto|].
  intros [<- | Hin].
  - exists u, (Some i). split; [now left | reflexivity].
  - destruct (IH _ Hin) as [x [p [Hx ->]]]. exists x, p. split; [now right | reflexivity].
Qed.

Lemma shifted_from moved l t' :
  In t' (map (shiftOrKeep moved) l) -> exists x p, In x l /\ t' = with_position x p.
Proof.
  intros Hin. apply in_map_iff in Hin. destruct Hin as [x [<- Hx]].
  unfold shiftOrKeep. destruct (id x =? moved).
  - exists x, (position x). split; [exact Hx | now rewrite with_position_self].
  - exists x, (Some (Js.plus (pos0 x) 1)). split; [exact Hx | reflexivity].
Qed.

(** The map [updateTaskStatus] leaves, as one batch over the map with the
    moved task stored. *)
Lemma updateTaskStatus_batch s i st tp tg pb task :
  Storage.wf_map (Storage.tasks s) ->
  Storage.getTask s i = Some task ->
  let m1 := Js.set i (movedTask (Storage.tasks s) task st tp tg) (Storage.tasks s) in
  exists l l',
    listing m1 st l
    /\ NoDup (map id l')
    /\ map id l' = map id l
    /\ (forall t', In t' l' -> exists x p, In x l /\ t' = with_position x p)
    /\ Storage.tasks (fst (Storage.updateTaskStatus s i st tp tg pb)) = writeAll l' m1.
Proof.
  intros Hwf Hget m1.
  assert (Hwf1 : Storage.wf_map m1).
  { apply wf_map_set; [exact Hwf|]. exact (wf_map_value_id _ _ _ Hwf Hget). }
  rewrite (updateTaskStatus_found s i st tp tg pb task Hget).
  cbn [fst Storage.with_tasks Storage.tasks]. fold m1.
  destruct (negb (Storage.is_undefined tp && Storage.is_undefined tg)).
  - pose proof (sorted_column_listing m1 st (Storage.moveCmp i) Hwf1) as Hl.
    exists (Js.sort (Storage.moveCmp i) (Storage.column m1 st)),
           (renumbered 0 (Js.sort (Storage.moveCmp i) (Storage.column m1 st))).
    split; [exact Hl|]. split; [rewrite renumbered_ids; apply (listing_ids _ _ _ Hl)|].
    split; [apply renumbered_ids|]. split; [apply renumbered_from|].
    apply renumber_writeAll; [apply (listing_ids _ _ _ Hl) | apply (listing_get _ _ _ Hl)].
  - pose proof (column_listing m1 st Hwf1) as Hl.
    exists (Storage.column m1 st), (map (shiftOrKeep i) (Storage.column m1 st)).
    split; [exact Hl|].
    split; [rewrite map_shiftOrKeep_ids; apply (listing_ids _ _ _ Hl)|].
    split; [apply map_shiftOrKeep_ids|]. split; [apply shifted_from|].
    apply shiftDown_writeAll; [apply (listing_ids _ _ _ Hl) | apply (listing_get _ _ _ Hl)].
Qed.

Lemma updateTaskStatus_keys s i st tp tg pb :
  Storage.wf_map (Storage.tasks s) ->
  Storage.keys (Storage.tasks (fst (Storage.updateTaskStatus s i st tp tg pb)))
  = Storage.keys (Storage.tasks s).
Proof.
  intros Hwf. destruct (Storage.getTask s i) as [task|] eqn:Hget.
  - destruct (updateTaskStatus_batch s i st tp tg pb task Hwf Hget)
      as [l [l' [Hl [_ [Hids [_ ->]]]]]].
    rewrite writeAll_keys.
    + apply keys_set_present. eapply get_in_keys; exact Hget.
    + intros t Ht.
      assert (Hin : In (id t) (map id l)) by (rewrite <- Hids; now apply in_map).
      apply in_map_iff in Hin. destruct Hin as [x [<- Hx]].
      eapply listing_keys; eauto.
  - now rewrite updateTaskStatus_missing.
Qed.

Lemma reorder_cases s a b pa :
  Storage.wf_map (Storage.tasks s) ->
  Storage.reorderTaskInColumn s a b pa = (s, snd (Storage.reorderTaskInColumn s a b pa))
  \/ exists task n,
       Storage.getTask s a = Some task
       /\ listing (Storage.tasks s) (status task) (spliced (Storage.tasks s) task n)
       /\ fst (Storage.reorderTaskInColumn s a b pa)
          = Storage.with_tasks s
              (writeAll (renumbered 0 (spliced (Storage.tasks s) task n)) (Storage.tasks s)).
Proof.
  intros Hwf. unfold Storage.reorderTaskInColumn, Storage.getTask.
  destruct (Js.get a (Storage.tasks s)) as [task|] eqn:Ea;
    destruct (Js.get b (Storage.tasks s)) as [target|] eqn:Eb; try (now left).
  destruct (negb (String.eqb (status task) (status target))); [now left|].
  destruct (Js.findIndex _ _) as [k|] eqn:Ek; [|now left].
  right. exists task, (if pa then S k else k). split; [reflexivity|].
  split.
  - apply listing_of_perm; [exact Hwf|]. eapply spliced_perm; eauto.
  - cbn [fst]. now rewrite writeIndexed_writeAll.
Qed.

Lemma reorder_keys s a b pa :
  Storage.wf_map (Storage.tasks s) ->
  Storage.keys (Storage.tasks (fst (Storage.reorderTaskInColumn s a b pa)))
  = Storage.keys (Storage.tasks s).
Proof.
  intros Hwf. destruct (reorder_cases s a b pa Hwf) as [-> | [task [n [_ [Hl ->]]]]];
    [reflexivity|].
  cbn [Storage.with_tasks Storage.tasks].
  eapply writeAll_renumbered_keys; eauto.
Qed.

(** X5. A move never creates or deletes a task and never edits one: after
    [updateTaskStatus] the ids and their order in the store are the same, and
    every task is the record it was except for its position and, for the moved
    task alone, its status, which is the requested one. *)
Theorem move_keeps_every_task s i st targetPosition targetTaskId placeBefore :
  Storage.wf_map (Storage.tasks s) ->
  let s' := fst (Storage.updateTaskStatus s i st targetPosition targetTaskId placeBefore) in
  Storage.keys (Storage.tasks s') = Storage.keys (Storage.tasks s)
  /\ Storage.taskCurrentId s' = Storage.taskCurrentId s
  /\ (forall k t, Storage.getTask s k = Some t ->
        exists p, Storage.getTask s' k
                  = Some (if k =? i then with_status_position t st p
                          else with_position t p)).
Proof.
  intros Hwf s'. split; [apply updateTaskStatus_keys, Hwf|]. split.
  - unfold s', Storage.updateTaskStatus.
    destruct (Js.get i (Storage.tasks s)); [|reflexivity].
    destruct (Storage.placement _ _ _); reflexivity.
  - intros k t Hk. unfold s'.
    destruct (Storage.getTask s i) as [task|] eqn:Hget.
    + destruct (updateTaskStatus_batch s i st targetPosition targetTaskId placeBefore
                  task Hwf Hget) as [l [l' [Hl [Hnd [_ [Hfrom Htasks]]]]]].
      unfold Storage.getTask in *. rewrite Htasks.
      destruct (k =? i) eqn:E.
      * apply Z.eqb_eq in E. subst k. rewrite Hk in Hget. injection Hget as <-.
        destruct (repositioning_batch _ st l l' Hl Hnd Hfrom i _ (get_set_eq _ _ _))
          as [p Hp].
        exists p. exact Hp.
      * apply Z.eqb_neq in E.
        assert (Hk1 : Js.get k
                        (Js.set i (movedTask (Storage.tasks s) task st targetPosition
                                     targetTaskId) (Storage.tasks s)) = Some t)
          by (rewrite get_set_ne by congruence; exact Hk).
        exact (repositioning_batch _ st l l' Hl Hnd Hfrom k t Hk1).
    + rewrite updateTaskStatus_missing by exact Hget.
      destruct (k =? i) eqn:E.
      * apply Z.eqb_eq in E. subst k. unfold Storage.getTask in *. congruence.
      * exists (position t). cbn [fst]. now rewrite with_position_self.
Qed.

Lemma move_keeps_every_task_witness :
  Storage.keys
    (Storage.tasks (fst (Storage.updateTaskStatus (Storage.initial 0) 1 "done" None (Some 8)
                           true)))
  = [1; 2; 3; 4; 5; 6; 7; 8; 9].
Proof.
  destruct (move_keeps_every_task (Storage.initial 0) 1 "done" None (Some 8) true
              (proj1 (initial_wf 0))) as [Hkeys _].
  cbn zeta in Hkeys. rewrite Hkeys. reflexivity.
Defined.

(** X6. A same-column reorder, whether it goes through or not, keeps the ids
    and their order in the store and changes nothing of any task but its
    position; no task changes column. *)
Theorem reorder_keeps_every_task s a b placeAfter :
  Storage.wf_map (Storage.tasks s) ->
  let s' := fst (Storage.reorderTaskInColumn s a b placeAfter) in
  Storage.keys (Storage.tasks s') = Storage.keys (Storage.tasks s)
  /\ Storage.taskCurrentId s' = Storage.taskCurrentId s
  /\ (forall k t, Storage.getTask s k = Some t ->
        exists p, Storage.getTask s' k = Some (with_position t p)).
Proof.
  intros Hwf s'. split; [apply reorder_keys, Hwf|].
  unfold s'.
  destruct (reorder_cases s a b placeAfter Hwf) as [-> | [task [n [_ [Hl ->]]]]].
  - split; [reflexivity|]. intros k t Hk. exists (position t).
    cbn [fst]. now rewrite with_position_self.
  - split; [reflexivity|]. intros k t Hk.
    unfold Storage.getTask in *. cbn [Storage.with_tasks Storage.tasks].
    apply (repositioning_batch _ (status task) _ _ Hl); [| apply renumbered_from | exact Hk].
    rewrite renumbered_ids. apply (listing_ids _ _ _ Hl).
Qed.

Lemma reorder_keeps_every_task_witness :
  Storage.keys (Storage.tasks (fst (Storage.reorderTaskInColumn Board.threeCards 12 10 false)))
  = [10; 11; 12].
Proof.
  destruct (reorder_keeps_every_task Board.threeCards 12 10 false
              (proj1 (reachable_wf _ threeCards_reachable))) as [Hkeys _].
  cbn zeta in Hkeys. rewrite Hkeys. reflexivity.
Defined.

(** ** Ids *)

Lemma step_counter s o : Storage.taskCurrentId s <= Storage.taskCurrentId (Storage.step s o).
Proof.
  destruct o; cbn [Storage.step].
  - unfold Storage.createTask. cbn [fst Storage.taskCurrentId]. lia.
  - unfold Storage.updateTask. destruct (Js.get _ _); cbn; lia.
  - unfold Storage.updateTaskStatus. destruct (Js.get _ _); [|cbn; lia].
    destruct (Storage.placement _ _ _). cbn. lia.
  - unfold Storage.updateTaskPosition. destruct (Js.get _ _); cbn; lia.
  - unfold Storage.reorderTaskInColumn.
    destruct (Js.get _ _); destruct (Js.get _ _); try (cbn; lia).
    destruct (negb _); [cbn; lia|]. destruct (Js.findIndex _ _); cbn; lia.
  - unfold Storage.deleteTask. destruct (Js.get _ _); cbn; lia.
Qed.

Lemma step_keys s o x :
  Storage.wf s ->
  In x (Storage.keys (Storage.tasks (Storage.step s o))) ->
  In x (Storage.keys (Storage.tasks s)) \/ x = Storage.taskCurrentId s.
Proof.
  intros Hwf. pose proof Hwf as [Hm _]. destruct o; cbn [Storage.step].
  - rewrite (createTask_tasks s now ins Hwf). unfold Storage.keys.
    rewrite map_app, in_app_iff. simpl. intuition.
  - unfold Storage.updateTask. destruct (Js.get i (Storage.tasks s)) eqn:E; [|now left].
    cbn [fst Storage.with_tasks Storage.tasks].
    rewrite keys_set_present by (eapply get_in_keys; eauto). now left.
  - rewrite updateTaskStatus_keys by exact Hm. now left.
  - unfold Storage.updateTaskPosition.
    destruct (Js.get i (Storage.tasks s)) eqn:E; [|now left].
    cbn [fst Storage.with_tasks Storage.tasks].
    rewrite keys_set_present by (eapply get_in_keys; eauto). now left.
  - rewrite reorder_keys by exact Hm. now left.
  - unfold Storage.deleteTask. destruct (Js.get i (Storage.tasks s)); [|now left].
    cbn [fst Storage.with_tasks Storage.tasks]. intros H. left.
    eapply keys_delete_incl; eauto.
Qed.

Lemma reachable_ids_from_one s :
  Storage.reachable s ->
  10 <= Storage.taskCurrentId s /\ Forall (fun k => 1 <= k) (Storage.keys (Storage.tasks s)).
Proof.
  induction 1 as [now | s o Hs [IHc IHk]].
  - split; [cbn; lia|]. cbn. repeat constructor; lia.
  - pose proof (reachable_wf s Hs) as Hwf.
    split; [pose proof (step_counter s o); lia|].
    rewrite Forall_forall in *. intros x Hx.
    destruct (step_keys s o x Hwf Hx) as [Hin | ->]; [now apply IHk | lia].
Qed.

(** X7. In every state the store can reach, no two tasks share an id, each
    task is stored under its own id, and the ids in use lie between 1 and the
    counter, which never drops below 10 nor goes back: an id, once handed out,
    is not given to another task. *)
Theorem reachable_store_ids s :
  Storage.reachable s ->
  NoDup (Storage.keys (Storage.tasks s))
  /\ (forall k t, Storage.getTask s k = Some t ->
        id t = k /\ 1 <= k < Storage.taskCurrentId s)
  /\ 10 <= Storage.taskCurrentId s
  /\ (forall o, Storage.taskCurrentId s <= Storage.taskCurrentId (Storage.step s o)).
Proof.
  intros Hs. pose proof (reachable_wf s Hs) as [[Hnd Hkeyed] Hb].
  destruct (reachable_ids_from_one s Hs) as [Hc Hpos].
  split; [exact Hnd|]. split; [|split; [exact Hc | intros o; apply step_counter]].
  intros k t Hget. unfold Storage.getTask in Hget.
  split; [exact (wf_map_value_id _ _ _ (conj Hnd Hkeyed) Hget)|].
  pose proof (get_in_keys _ _ _ Hget) as Hin.
  rewrite Forall_forall in Hb, Hpos. specialize (Hb _ Hin). specialize (Hpos _ Hin). lia.
Qed.

Lemma reachable_store_ids_witness :
  NoDup (Storage.keys (Storage.tasks Board.threeCards))
  /\ 10 <= Storage.taskCurrentId Board.threeCards.
Proof.
  destruct (reachable_store_ids Board.threeCards threeCards_reachable) as [H1 [_ [H2 _]]].
  split; [exact H1 | exact H2].
Defined.

(** ** Reorders that do nothing *)

Lemma findIndex_none {A : Type} (p : A -> bool) (l : list A) :
  (forall x, In x l -> p x = false) -> Js.findIndex p l = None.
Proof.
  induction l as [|x r IH]; intros H; [reflexivity|]. simpl.
  rewrite (H x (or_introl eq_refl)). rewrite IH; [reflexivity|].
  intros; apply H; now right.
Qed.

(** X8. [reorderTaskInColumn] writes nothing when either task is missing, when
    the two tasks are in different columns, and when a task is reordered
    relative to itself; it still returns a column, sorted by position: that of
    the moved task when it exists. *)
Theorem reorder_without_effect s a b placeAfter :
  (Storage.getTask s a = None \/ Storage.getTask s b = None
   \/ a = b
   \/ (exists ta tb, Storage.getTask s a = Some ta /\ Storage.getTask s b = Some tb
                     /\ status ta <> status tb)) ->
  fst (Storage.reorderTaskInColumn s a b placeAfter) = s
  /\ Sorted le_pos (snd (Storage.reorderTaskInColumn s a b placeAfter))
  /\ (forall ta, Storage.getTask s a = Some ta ->
        snd (Storage.reorderTaskInColumn s a b placeAfter)
        = Storage.column (Storage.tasks s) (status ta)).
Proof.
  unfold Storage.getTask, Storage.reorderTaskInColumn.
  intros [Ha | [Hb | [Hab | [ta [tb [Ha [Hb Hst]]]]]]].
  - rewrite Ha. destruct (Js.get b (Storage.tasks s));
      (split; [reflexivity|]; split; [apply sort_sorted | discriminate]).
  - rewrite Hb. destruct (Js.get a (Storage.tasks s));
      (split; [reflexivity|]; split; [apply sort_sorted|]); [|discriminate].
    now intros ta [= ->].
  - subst b. destruct (Js.get a (Storage.tasks s)) as [task|];
      [|split; [reflexivity|]; split; [apply sort_sorted | discriminate]].
    rewrite String.eqb_refl. cbn [negb].
    rewrite findIndex_none.
    + split; [reflexivity|]. split; [apply sort_sorted|]. now intros ta [= ->].
    + intros x Hx. apply filter_In in Hx. destruct Hx as [_ Hx].
      apply negb_true_iff in Hx. exact Hx.
  - rewrite Ha, Hb. apply String.eqb_neq in Hst. rewrite Hst. cbn [negb].
    split; [reflexivity|]. split; [apply sort_sorted|]. now intros t [= ->].
Qed.

Lemma reorder_without_effect_witness :
  fst (Storage.reorderTaskInColumn (Storage.initial 0) 1 5 false) = Storage.initial 0
  /\ fst (Storage.reorderTaskInColumn (Storage.initial 0) 1 1 true) = Storage.initial 0
  /\ fst (Storage.reorderTaskInColumn (Storage.initial 0) 1 99 true) = Storage.initial 0.
Proof.
  split; [|split].
  - apply (reorder_without_effect (Storage.initial 0) 1 5 false).
    right. right. right. eexists. eexists.
    split; [vm_compute; reflexivity|]. split; [vm_compute; reflexivity|].
    simpl. discriminate.
  - apply (reorder_without_effect (Storage.initial 0) 1 1 true). right. right. now left.
  - apply (reorder_without_effect (Storage.initial 0) 1 99 true). right. left. reflexivity.
Defined.

(** ** Top placement *)

Lemma sort_head_least (l : list Task) (u : Task) :
  In u l ->
  (forall y, In y l -> y = u \/ pos0 u < pos0 y) ->
  hd_error (Js.sort Storage.byPosition l) = Some u.
Proof.
  intros Hu Hleast.
  pose proof (sort_perm Storage.byPosition l) as Hp.
  pose proof (sorted_strongly _ (sort_sorted l)) as Hs.
  destruct (Js.sort Storage.byPosition l) as [|h r] eqn:E.
  - apply Permutation_nil in Hp. subst l. destruct Hu.
  - simpl. f_equal.
    assert (Hh : In h l) by (eapply Permutation_in; [exact Hp | now left]).
    assert (Hu' : In u (h :: r)) by (eapply Permutation_in; [apply Permutation_sym, Hp | exact Hu]).
    destruct Hu' as [-> | Hur]; [reflexivity|].
    inversion Hs as [|? ? _ Hall]; subst. rewrite Forall_forall in Hall.
    specialize (Hall u Hur). unfold le_pos in Hall.
    destruct (Hleast h Hh) as [-> | Hlt]; [reflexivity | lia].
Qed.

(** X9. After a move given neither a position nor a target (top placement)
    into a column whose other tasks have no negative position, the moved task
    is the first task of the target column, at position 0. *)
Theorem top_placement_is_first s i st placeBefore task :
  Storage.wf_map (Storage.tasks s) ->
  Storage.getTask s i = Some task ->
  (forall k t, k <> i -> Storage.getTask s k = Some t -> status t = st -> 0 <= pos0 t) ->
  hd_error
    (Storage.column
       (Storage.tasks (fst (Storage.updateTaskStatus s i st None None placeBefore))) st)
  = Some (with_status_position task st (Some 0)).
Proof.
  intros Hwf Hget Hnonneg.
  rewrite (updateTaskStatus_found s i st None None placeBefore task Hget).
  cbn [fst Storage.with_tasks Storage.tasks Storage.is_undefined andb negb].
  unfold movedTask. rewrite placement_top. cbn [fst].
  set (u := with_status_position task st (Some 0)).
  set (m1 := Js.set i u (Storage.tasks s)).
  pose proof (wf_map_value_id _ _ _ Hwf Hget) as Hid.
  assert (Hidu : id u = i) by exact Hid.
  assert (Hwf1 : Storage.wf_map m1) by (apply wf_map_set; assumption).
  pose proof (column_listing m1 st Hwf1) as Hl.
  set (col := Storage.column m1 st) in *.
  rewrite shiftDown_writeAll;
    [| apply (listing_ids _ _ _ Hl) | apply (listing_get _ _ _ Hl)].
  assert (Hnd : NoDup (map id (map (shiftOrKeep i) col)))
    by (rewrite map_shiftOrKeep_ids; apply (listing_ids _ _ _ Hl)).
  assert (Hu : In u col) by (eapply in_column; [apply get_set_eq | reflexivity]).
  assert (Hsu : shiftOrKeep i u = u)
    by (unfold shiftOrKeep; now rewrite Hidu, Z.eqb_refl).
  assert (Hperm : Permutation
                    (filter (has_status st)
                       (Js.values (writeAll (map (shiftOrKeep i) col) m1)))
                    (map (shiftOrKeep i) col)).
  { apply (writeAll_group (map (shiftOrKeep i) col) m1 st Hwf1 Hnd).
    - intros t Ht. apply in_map_iff in Ht. destruct Ht as [x [<- Hx]].
      rewrite shiftOrKeep_id. eapply listing_keys; eauto.
    - intros t Ht. apply in_map_iff in Ht. destruct Ht as [x [<- Hx]].
      rewrite shiftOrKeep_status. apply (listing_status _ _ _ Hl). exact Hx.
    - intros k v Hk Hs. rewrite map_shiftOrKeep_ids.
      eapply (listing_all _ _ _ Hl); eauto. }
  unfold Storage.column. apply sort_head_least.
  - eapply Permutation_in; [apply Permutation_sym, Hperm|].
    rewrite <- Hsu. now apply in_map.
  - intros y Hy.
    assert (Hy' : In y (map (shiftOrKeep i) col)) by (eapply Permutation_in; eauto).
    apply in_map_iff in Hy'. destruct Hy' as [x [<- Hx]].
    pose proof (listing_get _ _ _ Hl x Hx) as Hgx.
    destruct (Z.eq_dec (id x) i) as [Hxi | Hxi].
    + left. rewrite Hxi in Hgx. unfold m1 in Hgx. rewrite get_set_eq in Hgx.
      injection Hgx as <-. exact Hsu.
    + right. unfold shiftOrKeep.
      destruct (id x =? i) eqn:E; [apply Z.eqb_eq in E; contradiction|].
      unfold m1 in Hgx. rewrite get_set_ne in Hgx by congruence.
      pose proof (Hnonneg (id x) x Hxi Hgx (listing_status _ _ _ Hl x Hx)) as Hge.
      pose proof (plus_one_positive (pos0 x) Hge) as Hpos.
      change (pos0 u) with 0. unfold pos0 at 1. cbn [position with_position].
      fold (pos0 x). lia.
Qed.

Lemma top_placement_is_first_witness :
  option_map id
    (hd_error
       (Storage.column
          (Storage.tasks (fst (Storage.updateTaskStatus (Storage.initial 0) 3 "done"
                                 None None false))) "done"))
  = Some 3.
Proof.
  assert (H : Storage.getTask (Storage.initial 0) 3 = Some _) by (vm_compute; reflexivity).
  rewrite (top_placement_is_first (Storage.initial 0) 3 "done" false _
             (proj1 (initial_wf 0)) H).
  - reflexivity.
  - intros k t Hk Hget Hst.
    assert (Hin : In t (Storage.getAllTasks (Storage.initial 0)))
      by (eapply get_in_values; exact Hget).
    vm_compute in Hin.
    repeat (destruct Hin as [<- | Hin]; [vm_compute; discriminate|]).
    destruct Hin.
Defined.

(** ** Dropping a card on another card of its column *)

Lemma nth_error_removeAt {A : Type} (l : list A) (i j : nat) :
  nth_error (Js.removeAt i l) j = nth_error l (if (j <? i)%nat then j else S j).
Proof.
  revert i j. induction l as [|x r IH]; intros i j.
  - destruct i; simpl; [|destruct (j <? S i)%nat]; destruct j; reflexivity.
  - destruct i as [|i]; [reflexivity|].
    destruct j as [|j]; [reflexivity|].
    cbn [Js.removeAt nth_error]. rewrite IH.
    change (S j <? S i)%nat with (j <? i)%nat.
    destruct (j <? i)%nat; reflexivity.
Qed.

Lemma filter_not_task_removeAt (l : list Task) (i : nat) (t : Task) :
  NoDup (map id l) -> nth_error l i = Some t ->
  filter (not_task (id t)) l = Js.removeAt i l.
Proof.
  revert i. induction l as [|x r IH]; intros i Hnd Hi; [destruct i; discriminate|].
  simpl in Hnd. inversion Hnd as [|? ? Hnotin Hnd']; subst.
  destruct i as [|i]; cbn [nth_error] in Hi.
  - injection Hi as ->. cbn [filter Js.removeAt]. unfold not_task at 1.
    rewrite Z.eqb_refl. cbn [negb].
    apply forallb_filter_id. apply forallb_forall. intros y Hy.
    unfold not_task. apply negb_true_iff, Z.eqb_neq. intros E.
    apply Hnotin. rewrite <- E. now apply in_map.
  - cbn [filter Js.removeAt]. unfold not_task at 1.
    destruct (id x =? id t) eqn:E.
    + apply Z.eqb_eq in E. exfalso. apply Hnotin. rewrite E.
      apply in_map. eapply nth_error_In; eauto.
    + cbn [negb]. f_equal. now apply IH.
Qed.

Lemma sorted_nth_le (l : list Task) (i j : nat) (a b : Task) :
  StronglySorted le_pos l -> (i < j)%nat ->
  nth_error l i = Some a -> nth_error l j = Some b -> pos0 a <= pos0 b.
Proof.
  intros Hs. revert i j. induction Hs as [|x r Hr IH Hall]; intros i j Hij Hi Hj.
  - destruct i; discriminate.
  - destruct j as [|j]; [lia|]. cbn [nth_error] in Hj.
    destruct i as [|i]; cbn [nth_error] in Hi.
    + injection Hi as ->. rewrite Forall_forall in Hall.
      apply (Hall b). eapply nth_error_In; eauto.
    + apply (IH i j); [lia | assumption | assumption].
Qed.

(** X10. A card dropped on another card of its column, with no side given,
    takes that card's place: when the two positions differ, the reorder route
    puts the moved task at the index the target had in the column, answers
    200 with the new column, and the column is numbered 0..N-1. *)
Theorem drop_takes_target_slot s st si ti ta tb :
  Storage.wf_map (Storage.tasks s) ->
  nth_error (Storage.column (Storage.tasks s) st) si = Some ta ->
  nth_error (Storage.column (Storage.tasks s) st) ti = Some tb ->
  si <> ti ->
  pos0 ta <> pos0 tb ->
  let r := Routes.postReorder s (Some (id ta)) (Routes.mkReorderBody (id tb) None) in
  exists l,
    snd r = Routes.mkResponse 200 (Routes.PTasks l)
    /\ Storage.column (Storage.tasks (fst r)) st = l
    /\ nth_error (map id l) ti = Some (id ta)
    /\ map position l = Storage.dense (List.length l).
Proof.
  intros Hwf Hsi Hti Hne Hpos r.
  pose proof (column_listing _ st Hwf) as Hl.
  set (col := Storage.column (Storage.tasks s) st) in *.
  assert (Hina : In ta col) by (eapply nth_error_In; eauto).
  assert (Hinb : In tb col) by (eapply nth_error_In; eauto).
  pose proof (listing_get _ _ _ Hl ta Hina) as Hga.
  pose proof (listing_get _ _ _ Hl tb Hinb) as Hgb.
  pose proof (listing_status _ _ _ Hl ta Hina) as Hsa.
  pose proof (listing_status _ _ _ Hl tb Hinb) as Hsb.
  assert (Hndc : NoDup col) by (eapply NoDup_map_inv; apply (listing_ids _ _ _ Hl)).
  assert (Hidne : id ta <> id tb).
  { intros E. apply Hne.
    pose proof (listing_ids _ _ _ Hl) as Hnd.
    rewrite NoDup_nth_error in Hnd. apply Hnd.
    - rewrite length_map. apply nth_error_Some. rewrite Hsi. discriminate.
    - rewrite !nth_error_map, Hsi, Hti. simpl. now rewrite E. }
  destruct (reorder_found s (id ta) (id tb) (pos0 ta <? pos0 tb) ta tb Hwf Hga Hgb
              ltac:(congruence) Hidne) as [k [Hk Hr]].
  rewrite Hsa in Hk. fold col in Hk.
  rewrite (filter_not_task_removeAt col si ta (listing_ids _ _ _ Hl) Hsi) in Hk.
  pose proof Hk as Hk'. rewrite nth_error_removeAt in Hk'.
  assert (Hidx : (if (k <? si)%nat then k else S k) = ti).
  { rewrite NoDup_nth_error in Hndc. apply Hndc.
    - apply nth_error_Some. rewrite Hk'. discriminate.
    - now rewrite Hk', Hti. }
  assert (Hklen : (k < List.length (Js.removeAt si col))%nat)
    by (apply nth_error_Some; rewrite Hk; discriminate).
  pose proof (sorted_strongly _ (sort_sorted
                (filter (has_status st) (Js.values (Storage.tasks s))))) as Hsorted.
  assert (Hn : (if (pos0 ta <? pos0 tb) then S k else k) = ti).
  { destruct (pos0 ta <? pos0 tb) eqn:E.
    - apply Z.ltb_lt in E.
      assert (Hlt : (si < ti)%nat).
      { destruct (Nat.lt_ge_cases si ti) as [H | H]; [exact H|].
        assert (Hlt' : (ti < si)%nat) by lia.
        pose proof (sorted_nth_le _ ti si tb ta Hsorted Hlt' Hti Hsi). lia. }
      destruct (k <? si)%nat eqn:Ek; [apply Nat.ltb_lt in Ek; lia | exact Hidx].
    - apply Z.ltb_ge in E.
      assert (Hlt : (ti < si)%nat).
      { destruct (Nat.lt_ge_cases ti si) as [H | H]; [exact H|].
        assert (Hlt' : (si < ti)%nat) by lia.
        pose proof (sorted_nth_le _ si ti ta tb Hsorted Hlt' Hsi Hti). lia. }
      destruct (k <? si)%nat eqn:Ek; [exact Hidx | apply Nat.ltb_ge in Ek; lia]. }
  cbn zeta in Hr. rewrite Hn in Hr.
  assert (Hroute : r = (fst (Storage.reorderTaskInColumn s (id ta) (id tb)
                               (pos0 ta <? pos0 tb)),
                        Routes.mkResponse 200
                          (Routes.PTasks (snd (Storage.reorderTaskInColumn s (id ta) (id tb)
                                                 (pos0 ta <? pos0 tb)))))).
  { unfold r, Routes.postReorder. cbn [Routes.r_targetTaskId Routes.r_position].
    apply Z.eqb_neq in Hidne. rewrite Hidne.
    unfold Storage.getTask. rewrite Hga, Hgb.
    rewrite Hsa, Hsb, String.eqb_refl. cbn [andb orb negb].
    rewrite andb_true_r.
    destruct (Storage.reorderTaskInColumn s (id ta) (id tb) (pos0 ta <? pos0 tb));
      reflexivity. }
  rewrite Hroute, Hr. cbn [fst snd Storage.with_tasks Storage.tasks].
  exists (renumbered 0 (spliced (Storage.tasks s) ta ti)).
  split; [reflexivity|]. split; [|split].
  - rewrite <- Hsa. apply writeIndexed_column; [exact Hwf|].
    eapply spliced_perm; eauto.
  - rewrite renumbered_ids, nth_error_map. unfold spliced.
    rewrite Hsa. fold col.
    rewrite (filter_not_task_removeAt col si ta (listing_ids _ _ _ Hl) Hsi).
    rewrite nth_error_splice; [reflexivity|].
    destruct (pos0 ta <? pos0 tb); lia.
  - rewrite positions_renumbered, renumbered_length. reflexivity.
Qed.

Lemma drop_takes_target_slot_witness :
  exists l,
    snd (Routes.postReorder Board.threeCards (Some 10) (Routes.mkReorderBody 12 None))
    = Routes.mkResponse 200 (Routes.PTasks l)
    /\ nth_error (map id l) 2 = Some 10.
Proof.
  assert (Ha : nth_error (Storage.column (Storage.tasks Board.threeCards) "todo") 0 = Some _)
    by (vm_compute; reflexivity).
  assert (Hb : nth_error (Storage.column (Storage.tasks Board.threeCards) "todo") 2 = Some _)
    by (vm_compute; reflexivity).
  destruct (drop_takes_target_slot Board.threeCards "todo" 0 2 _ _
              (proj1 (reachable_wf _ threeCards_reachable)) Ha Hb
              ltac:(lia) ltac:(vm_compute; discriminate))
    as [l [Hr [_ [Hnth _]]]].
  exists l. split; [exact Hr | exact Hnth].
Defined.

(** ** The task routes *)

(** X2. A task created without a position, in a column whose positions are
    safe integers (at most 2^53 - 1 in magnitude), goes to the bottom of its
    column: the column is the old column followed by the new task, whose
    position is 0 in an empty column and otherwise exactly one more than the
    largest position of the column; every other column is as before.  POST
    /api/tasks does the same when the body has no position and also when its
    position is 0, and answers 201 with the task. *)
Theorem createTask_at_bottom :
  (forall s now ins,
      Storage.wf s ->
      ins_position ins = None ->
      Forall (fun t => Z.abs (pos0 t) <= Js.MAX_SAFE_INTEGER)
        (Storage.column (Storage.tasks s) (ins_status ins)) ->
      let s' := fst (Storage.createTask s now ins) in
      let task := snd (Storage.createTask s now ins) in
      let old := Storage.column (Storage.tasks s) (ins_status ins) in
      Storage.column (Storage.tasks s') (ins_status ins) = old ++ [task]
      /\ (old = [] -> position task = Some 0)
      /\ (old <> [] ->
          exists top, In top old
                      /\ position task = Some (pos0 top + 1)
                      /\ forall t, In t old -> pos0 t <= pos0 top)
      /\ (forall st, st <> ins_status ins ->
            Storage.column (Storage.tasks s') st = Storage.column (Storage.tasks s) st))
  /\ (forall s now b,
        Storage.wf s ->
        Routes.tb_position b = None \/ Routes.tb_position b = Some 0 ->
        Forall (fun t => Z.abs (pos0 t) <= Js.MAX_SAFE_INTEGER)
          (Storage.column (Storage.tasks s) (Routes.tb_status b)) ->
        let r := Routes.postTask s now b in
        let old := Storage.column (Storage.tasks s) (Routes.tb_status b) in
        exists task,
          snd r = Routes.mkResponse 201 (Routes.PTask task)
          /\ Storage.getTask (fst r) (Storage.taskCurrentId s) = Some task
          /\ Storage.column (Storage.tasks (fst r)) (Routes.tb_status b) = old ++ [task]
          /\ (old = [] -> position task = Some 0)
          /\ (old <> [] ->
              exists top, In top old
                          /\ position task = Some (pos0 top + 1)
                          /\ forall t, In t old -> pos0 t <= pos0 top)).
Proof.
  split; [exact createTask_bottom|].
  intros s now b Hwf Hpos Hsafe r old.
  set (payload := mkInsertTask (Routes.tb_title b)
                    (Storage.str_or_null (Routes.tb_description b)) (Routes.tb_status b)
                    (Routes.tb_type b) (Storage.num_or_null (Routes.tb_position b))
                    (Routes.tb_dueDate b) (Storage.num_or_null (Routes.tb_userId b))).
  assert (Hr : r = (fst (Storage.createTask s now payload),
                    Routes.mkResponse 201 (Routes.PTask (snd (Storage.createTask s now payload))))).
  { unfold r, Routes.postTask. fold payload.
    destruct (Storage.createTask s now payload); reflexivity. }
  assert (Hnone : ins_position payload = None).
  { unfold payload. cbn [ins_position]. destruct Hpos as [-> | ->]; reflexivity. }
  destruct (createTask_bottom s now payload Hwf Hnone Hsafe) as [Hcol [Hzero [Htop _]]].
  exists (snd (Storage.createTask s now payload)). rewrite Hr. cbn [fst snd].
  split; [reflexivity|]. split; [|split; [exact Hcol | split; [exact Hzero | exact Htop]]].
  unfold Storage.getTask, Storage.createTask. cbn [fst snd Storage.tasks]. apply get_set_eq.
Qed.

Lemma createTask_at_bottom_witness :
  Board.titles
    (Storage.column
       (Storage.tasks (fst (Storage.createTask Board.twoCards 0 (Board.card "C")))) "todo")
  = ["A"; "B"; "C"]
  /\ exists task,
       snd (Routes.postTask Board.twoCards 0
              (Routes.mkTaskBody "C" None "todo" "bug" (Some 0) None None))
       = Routes.mkResponse 201 (Routes.PTask task).
Proof.
  destruct createTask_at_bottom as [Hstore Hroute]. split.
  - destruct (Hstore Board.twoCards 0 (Board.card "C")
                (reachable_wf _ twoCards_reachable) ltac:(reflexivity)
                ltac:(apply safe_positions_dec; vm_compute; reflexivity)) as [Hcol _].
    cbn zeta in Hcol. unfold Board.titles.
    change (ins_status (Board.card "C")) with "todo" in Hcol.
    rewrite Hcol, map_app. vm_compute. reflexivity.
  - destruct (Hroute Board.twoCards 0
                (Routes.mkTaskBody "C" None "todo" "bug" (Some 0) None None)
                (reachable_wf _ twoCards_reachable) ltac:(right; reflexivity)
                ltac:(apply safe_positions_dec; vm_compute; reflexivity))
      as [task [Hr _]].
    exists task. exact Hr.
Defined.

(** X11. PUT /api/tasks/:id on an existing task stores the body's title,
    status and type and, for every optional field, the body's value or null:
    a position that is absent or 0 becomes null.  The id and the creation time
    stay; no other task is written, so nothing is renumbered. *)
Theorem putTask_overwrites s i b task :
  Storage.getTask s i = Some task ->
  let r := Routes.putTask s (Some i) b in
  let stored :=
    mkTask (id task) (Routes.tb_title b) (Storage.str_or_null (Routes.tb_description b))
      (Routes.tb_status b) (Routes.tb_type b)
      (Storage.num_or_null (Routes.tb_position b)) (Routes.tb_dueDate b)
      (Storage.num_or_null (Routes.tb_userId b)) (createdAt task) in
  snd r = Routes.mkResponse 200 (Routes.PTask stored)
  /\ Storage.getTask (fst r) i = Some stored
  /\ (Routes.tb_position b = None \/ Routes.tb_position b = Some 0 -> position stored = None)
  /\ (forall k, k <> i -> Storage.getTask (fst r) k = Storage.getTask s k)
  /\ Storage.keys (Storage.tasks (fst r)) = Storage.keys (Storage.tasks s).
Proof.
  intros Hget r stored. unfold Storage.getTask in *.
  assert (Hr : r = (Storage.with_tasks s (Js.set i stored (Storage.tasks s)),
                    Routes.mkResponse 200 (Routes.PTask stored))).
  { unfold r, Routes.putTask, Storage.updateTask. rewrite Hget. reflexivity. }
  rewrite Hr. cbn [fst snd Storage.with_tasks Storage.tasks].
  split; [reflexivity|]. split; [apply get_set_eq|]. split; [|split].
  - unfold stored. cbn [position]. intros [-> | ->]; reflexivity.
  - intros k Hk. apply get_set_ne. congruence.
  - apply keys_set_present. eapply get_in_keys; eauto.
Qed.

Lemma putTask_overwrites_witness :
  option_map position
    (Storage.getTask
       (fst (Routes.putTask (Storage.initial 0) (Some 3)
               (Routes.mkTaskBody "Edited" None "todo" "bug" None None None))) 3)
  = Some None
  /\ option_map position (Storage.getTask (Storage.initial 0) 3) = Some (Some 2).
Proof.
  assert (H : Storage.getTask (Storage.initial 0) 3 = Some _) by (vm_compute; reflexivity).
  destruct (putTask_overwrites (Storage.initial 0) 3
              (Routes.mkTaskBody "Edited" None "todo" "bug" None None None) _ H)
    as [_ [Hget _]].
  split; [rewrite Hget; reflexivity | vm_compute; reflexivity].
Defined.

(** X12. The routes addressed by a task id answer 404 "Task not found", and
    write nothing, exactly when no task has that id; for an existing task
    they answer 200, or 204 for the delete. *)
Theorem routes_not_found_iff_missing s i b p tb :
  (Storage.getTask s i = None ->
   let nf := Routes.mkResponse 404 (Routes.PMessage "Task not found") in
   Routes.patchStatus s (Some i) b = (s, nf)
   /\ Routes.patchPosition s (Some i) p = (s, nf)
   /\ Routes.putTask s (Some i) tb = (s, nf)
   /\ Routes.deleteTaskById s (Some i) = (s, nf)
   /\ Routes.getTaskById s (Some i) = nf)
  /\ (Storage.getTask s i <> None ->
      Routes.code (snd (Routes.patchStatus s (Some i) b)) = 200
      /\ Routes.code (snd (Routes.patchPosition s (Some i) p)) = 200
      /\ Routes.code (snd (Routes.putTask s (Some i) tb)) = 200
      /\ Routes.code (snd (Routes.deleteTaskById s (Some i))) = 204
      /\ Routes.code (Routes.getTaskById s (Some i)) = 200).
Proof.
  unfold Storage.getTask. split.
  - intros Hget. cbv zeta.
    unfold Routes.patchStatus, Routes.patchPosition, Routes.putTask, Routes.deleteTaskById,
      Routes.getTaskById, Storage.getTask, Storage.updateTaskPosition, Storage.updateTask,
      Storage.deleteTask.
    rewrite Hget. repeat split.
  - intros Hget. destruct (Js.get i (Storage.tasks s)) as [task|] eqn:E; [|congruence].
    split; [|split; [|split; [|split]]].
    + unfold Routes.patchStatus, Storage.getTask. rewrite E.
      destruct (negb (String.eqb (status task) (Routes.b_status b))).
      * destruct (Storage.truthy (Routes.b_targetTaskId b));
          [|destruct (negb (Storage.is_undefined (Routes.b_position b)));
             [|destruct (_ || _)]]; reflexivity.
      * destruct (Storage.truthy (Routes.b_targetTaskId b)); [|reflexivity].
        destruct (Storage.reorderTaskInColumn _ _ _ _); reflexivity.
    + unfold Routes.patchPosition, Storage.updateTaskPosition. now rewrite E.
    + unfold Routes.putTask, Storage.updateTask. now rewrite E.
    + unfold Routes.deleteTaskById, Storage.deleteTask. now rewrite E.
    + unfold Routes.getTaskById, Storage.getTask. now rewrite E.
Qed.

Lemma routes_not_found_iff_missing_witness :
  Routes.deleteTaskById (Storage.initial 0) (Some 42)
  = (Storage.initial 0, Routes.mkResponse 404 (Routes.PMessage "Task not found"))
  /\ Routes.code (snd (Routes.deleteTaskById (Storage.initial 0) (Some 4))) = 204.
Proof.
  pose (b := Routes.mkStatusBody "todo" None None None None None None).
  pose (tb := Routes.mkTaskBody "t" None "todo" "bug" None None None).
  split.
  - destruct (proj1 (routes_not_found_iff_missing (Storage.initial 0) 42 b 0 tb)
                ltac:(reflexivity)) as [_ [_ [_ [H _]]]].
    exact H.
  - destruct (proj2 (routes_not_found_iff_missing (Storage.initial 0) 4 b 0 tb)
                ltac:(vm_compute; discriminate)) as [_ [_ [_ [H _]]]].
    exact H.
Defined.

(** X13. POST /api/tasks/:id/reorder changes the store only when the two ids
    differ and both tasks exist in the same column.  A task reordered with
    itself is refused with 400 and a missing task with 404; two tasks of
    different columns get 200 with the moved task's column, untouched. *)
Theorem postReorder_writes_only_within_a_column s idParam b :
  (fst (Routes.postReorder s idParam b) <> s ->
   exists i ta tb,
     idParam = Some i /\ i <> Routes.r_targetTaskId b
     /\ Storage.getTask s i = Some ta
     /\ Storage.getTask s (Routes.r_targetTaskId b) = Some tb
     /\ status ta = status tb)
  /\ (idParam = Some (Routes.r_targetTaskId b) ->
      Routes.postReorder s idParam b
      = (s, Routes.mkResponse 400 (Routes.PMessage "Cannot reorder a task with itself")))
  /\ (forall i, idParam = Some i -> i <> Routes.r_targetTaskId b ->
        Storage.getTask s i = None \/ Storage.getTask s (Routes.r_targetTaskId b) = None ->
        Routes.postReorder s idParam b
        = (s, Routes.mkResponse 404 (Routes.PMessage "Source or target task not found")))
  /\ (forall i ta tb, idParam = Some i -> i <> Routes.r_targetTaskId b ->
        Storage.getTask s i = Some ta ->
        Storage.getTask s (Routes.r_targetTaskId b) = Some tb ->
        status ta <> status tb ->
        Routes.postReorder s idParam b
        = (s, Routes.mkResponse 200
                (Routes.PTasks (Storage.column (Storage.tasks s) (status ta))))).
Proof.
  assert (Hcross : forall i t ta tb pa,
             Storage.getTask s i = Some ta ->
             Storage.getTask s t = Some tb ->
             status ta <> status tb ->
             Storage.reorderTaskInColumn s i t pa
             = (s, Storage.column (Storage.tasks s) (status ta))).
  { intros i t ta tb pa Ha Hb Hst. unfold Storage.getTask in *.
    unfold Storage.reorderTaskInColumn. rewrite Ha, Hb.
    apply String.eqb_neq in Hst. now rewrite Hst. }
  split; [|split; [|split]].
  - intros Hchanged. unfold Routes.postReorder in Hchanged.
    destruct idParam as [i|]; [|now contradiction Hchanged].
    destruct (i =? Routes.r_targetTaskId b) eqn:E; [now contradiction Hchanged|].
    apply Z.eqb_neq in E.
    destruct (Storage.getTask s i) as [ta|] eqn:Ea; [|now contradiction Hchanged].
    destruct (Storage.getTask s (Routes.r_targetTaskId b)) as [tb|] eqn:Eb;
      [|now contradiction Hchanged].
    exists i, ta, tb. repeat split; try assumption.
    destruct (String.eqb (status ta) (status tb)) eqn:Est;
      [now apply String.eqb_eq|].
    apply String.eqb_neq in Est. exfalso. apply Hchanged.
    match goal with
    | |- context [Storage.reorderTaskInColumn ?s ?a ?t ?pa] =>
        rewrite (Hcross a t ta tb pa Ea Eb Est)
    end.
    reflexivity.
  - intros ->. unfold Routes.postReorder. now rewrite Z.eqb_refl.
  - intros i -> Hne Hmiss. unfold Routes.postReorder.
    apply Z.eqb_neq in Hne. rewrite Hne.
    destruct Hmiss as [-> | Hb]; [reflexivity|]. rewrite Hb.
    destruct (Storage.getTask s i); reflexivity.
  - intros i ta tb -> Hne Ha Hb Hst. unfold Routes.postReorder.
    apply Z.eqb_neq in Hne. rewrite Hne, Ha, Hb.
    match goal with
    | |- context [Storage.reorderTaskInColumn ?s ?a ?t ?pa] =>
        rewrite (Hcross a t ta tb pa Ha Hb Hst)
    end.
    reflexivity.
Qed.

Lemma postReorder_writes_only_within_a_column_witness :
  Routes.postReorder (Storage.initial 0) (Some 1) (Routes.mkReorderBody 5 (Some "after"))
  = (Storage.initial 0,
     Routes.mkResponse 200
       (Routes.PTasks (Storage.column (Storage.tasks (Storage.initial 0)) "todo"))).
Proof.
  assert (Ha : Storage.getTask (Storage.initial 0) 1 = Some _) by (vm_compute; reflexivity).
  assert (Hb : Storage.getTask (Storage.initial 0) 5 = Some _) by (vm_compute; reflexivity).
  exact (proj2 (proj2 (proj2 (postReorder_writes_only_within_a_column (Storage.initial 0)
                                (Some 1) (Routes.mkReorderBody 5 (Some "after")))))
           1 _ _ eq_refl ltac:(simpl; lia) Ha Hb ltac:(simpl; discriminate)).
Defined.

(* ===================================================================== *)
(** * Further properties of the command log *)
(* ===================================================================== *)

Section RedoFacts.
Context {env : Env}.

Lemma canRedo_snoc (p : Provider) f c : redoStack p = f ++ [c] -> canRedo p = true.
Proof.
  intros H. unfold canRedo. rewrite H, length_app. simpl. apply Nat.ltb_lt. lia.
Qed.

Lemma redoLast_resolved (p : Provider) (f : list Command) (c : Command) (w' : World) :
  redoStack p = f ++ [c] ->
  execute c (world p) = (Resolved tt, w') ->
  redoLast p
  = (Resolved tt,
     mkProvider w' (commandHistory p ++ [c]) f
       (toasts p ++ [mkToast "Redo successful"
                       (String.append "Redid: " (description c)) false])).
Proof.
  intros Hf He. unfold redoLast. rewrite (canRedo_snoc p f c Hf). cbn [negb].
  rewrite Hf, last_snoc.
  unfold tryCatch, bind, await, setCommandHistory, setRedoStack, toast.
  rewrite He. cbn [world commandHistory redoStack toasts].
  rewrite Hf, removelast_last. reflexivity.
Qed.

Lemma redoLast_rejected (p : Provider) (f : list Command) (c : Command)
    (e : string) (w' : World) :
  redoStack p = f ++ [c] ->
  execute c (world p) = (Rejected e, w') ->
  redoLast p
  = (Resolved tt,
     mkProvider w' (commandHistory p) (f ++ [c])
       (toasts p ++ [mkToast "Redo failed" "Could not redo the action." true])).
Proof.
  intros Hf He. unfold redoLast. rewrite (canRedo_snoc p f c Hf). cbn [negb].
  rewrite Hf, last_snoc.
  unfold tryCatch, bind, await, toast.
  rewrite He. cbn [world commandHistory redoStack toasts]. now rewrite Hf.
Qed.

Lemma redoLast_empty (p : Provider) : redoStack p = [] -> redoLast p = (Resolved tt, p).
Proof. intros H. unfold redoLast, canRedo. now rewrite H. Qed.

Lemma snoc_cases {A : Type} (l : list A) : l = [] \/ exists h c, l = h ++ [c].
Proof.
  destruct l as [|x r]; [now left|]. right.
  exists (removelast (x :: r)), (last (x :: r) x).
  apply app_removelast_last. discriminate.
Qed.

Lemma result_unit_cases {S : Type} (r : Result unit * S) :
  (exists s, r = (Resolved tt, s)) \/ (exists e s, r = (Rejected e, s)).
Proof. destruct r as [[[]|e] s]; [left | right]; eauto. Qed.

End RedoFacts.

(** X14. The provider's [redo] re-executes the command undone last, the top
    of the redo stack: when its [execute()] resolves it goes back on top of the
    past with a "Redo successful" toast; when it rejects both stacks stay as
    they were, "Redo failed" is shown and [redo] itself resolves. *)
Theorem redo_top_of_future (env : Env) (p : Provider) (f : list Command) (c : Command) :
  redoStack p = f ++ [c] ->
  (forall w', execute c (world p) = (Resolved tt, w') ->
     fst (redoLast p) = Resolved tt
     /\ commandHistory (snd (redoLast p)) = commandHistory p ++ [c]
     /\ redoStack (snd (redoLast p)) = f
     /\ world (snd (redoLast p)) = w'
     /\ toasts (snd (redoLast p))
        = toasts p ++ [mkToast "Redo successful"
                         (String.append "Redid: " (description c)) false])
  /\ (forall e w', execute c (world p) = (Rejected e, w') ->
        fst (redoLast p) = Resolved tt
        /\ commandHistory (snd (redoLast p)) = commandHistory p
        /\ redoStack (snd (redoLast p)) = f ++ [c]
        /\ toasts (snd (redoLast p))
           = toasts p ++ [mkToast "Redo failed" "Could not redo the action." true]).
Proof.
  intros Hf. split.
  - intros w' He. rewrite (redoLast_resolved p f c w' Hf He).
    cbn [fst snd commandHistory redoStack world toasts]. repeat split.
  - intros e w' He. rewrite (redoLast_rejected p f c e w' Hf He).
    cbn [fst snd commandHistory redoStack world toasts]. repeat split.
Qed.

Lemma redo_top_of_future_witness :
  let first := Board.moveCmd 1 "todo" "done" in
  let second := Board.moveCmd 2 "todo" "done" in
  let p := Board.provider (Board.mkWorld (Storage.initial 0) true []) [] [first; second] in
  commandHistory (snd (redoLast p)) = [second]
  /\ redoStack (snd (redoLast p)) = [first].
Proof.
  cbv zeta.
  assert (H : exists w',
             execute (Board.moveCmd 2 "todo" "done")
               (Board.mkWorld (Storage.initial 0) true [])
             = (Resolved tt, w'))
    by (eexists; vm_compute; reflexivity).
  destruct H as [w' H].
  destruct (proj1 (redo_top_of_future Board.env
                     (Board.provider (Board.mkWorld (Storage.initial 0) true []) []
                        [Board.moveCmd 1 "todo" "done"; Board.moveCmd 2 "todo" "done"])
                     [Board.moveCmd 1 "todo" "done"] (Board.moveCmd 2 "todo" "done")
                     ltac:(reflexivity)) w' H)
    as [_ [Hpast [Hfuture _]]].
  split; [exact Hpast | exact Hfuture].
Defined.

(** X15. A call of the provider's [undo] or [redo] that runs to its end
    before the next call of the provider starts always resolves, whatever the
    command does, and neither loses nor copies a command: it either leaves
    both stacks as they are or moves exactly the top command of one stack onto
    the other.  (Calls that overlap are not covered: each reads the stack its
    callback closed over, see [Provider].) *)
Theorem undo_redo_only_move_the_top (env : Env) (p : Provider) :
  (fst (undoLast p) = Resolved tt
   /\ ((commandHistory (snd (undoLast p)) = commandHistory p
        /\ redoStack (snd (undoLast p)) = redoStack p)
       \/ exists c,
            commandHistory p = commandHistory (snd (undoLast p)) ++ [c]
            /\ redoStack (snd (undoLast p)) = redoStack p ++ [c]))
  /\ (fst (redoLast p) = Resolved tt
      /\ ((commandHistory (snd (redoLast p)) = commandHistory p
           /\ redoStack (snd (redoLast p)) = redoStack p)
          \/ exists c,
               redoStack p = redoStack (snd (redoLast p)) ++ [c]
               /\ commandHistory (snd (redoLast p)) = commandHistory p ++ [c])).
Proof.
  split.
  - destruct (snoc_cases (commandHistory p)) as [Hnil | [h [c Hh]]].
    + rewrite (undoLast_empty p Hnil). split; [reflexivity | left; now split].
    + destruct (result_unit_cases (undo c (world p))) as [[w' Hu] | [e [w' Hu]]].
      * rewrite (undoLast_resolved p h c w' Hh Hu).
        cbn [fst snd commandHistory redoStack]. split; [reflexivity|].
        right. exists c. now split.
      * rewrite (undoLast_rejected p h c e w' Hh Hu).
        cbn [fst snd commandHistory redoStack]. split; [reflexivity|].
        left. now split.
  - destruct (snoc_cases (redoStack p)) as [Hnil | [f [c Hf]]].
    + rewrite (redoLast_empty p Hnil). split; [reflexivity | left; now split].
    + destruct (result_unit_cases (execute c (world p))) as [[w' He] | [e [w' He]]].
      * rewrite (redoLast_resolved p f c w' Hf He).
        cbn [fst snd commandHistory redoStack]. split; [reflexivity|].
        right. exists c. now split.
      * rewrite (redoLast_rejected p f c e w' Hf He).
        cbn [fst snd commandHistory redoStack]. split; [reflexivity|].
        left. now split.
Qed.

(** X16. Undo followed by redo puts the log back: when the top command's
    [undo()] and then its [execute()] resolve, both stacks are what they were
    before the undo. *)
Theorem undo_then_redo (env : Env) (p : Provider) (h : list Command) (c : Command)
    (w1 w2 : World) :
  commandHistory p = h ++ [c] ->
  undo c (world p) = (Resolved tt, w1) ->
  execute c w1 = (Resolved tt, w2) ->
  let p' := snd (redoLast (snd (undoLast p))) in
  commandHistory p' = commandHistory p
  /\ redoStack p' = redoStack p
  /\ world p' = w2.
Proof.
  intros Hh Hu He p'. unfold p'.
  rewrite (undoLast_resolved p h c w1 Hh Hu). cbn [snd].
  rewrite (redoLast_resolved _ (redoStack p) c w2);
    cbn [snd commandHistory redoStack world]; [| reflexivity | exact He].
  now rewrite Hh.
Qed.

Lemma undo_then_redo_witness :
  let cmd := Board.moveCmd 1 "todo" "done" in
  let p := snd (executeCommand cmd (Board.start (Storage.initial 0) true)) in
  commandHistory (snd (redoLast (snd (undoLast p)))) = [cmd]
  /\ redoStack (snd (redoLast (snd (undoLast p)))) = [].
Proof.
  cbv zeta.
  set (cmd := Board.moveCmd 1 "todo" "done").
  set (p := snd (executeCommand cmd (Board.start (Storage.initial 0) true))).
  set (w1 := snd (undo cmd (world p))).
  set (w2 := snd (execute cmd w1)).
  assert (Hh : commandHistory p = [] ++ [cmd]) by reflexivity.
  assert (Hu : undo cmd (world p) = (Resolved tt, w1)) by (vm_compute; reflexivity).
  assert (He : execute cmd w1 = (Resolved tt, w2)) by (vm_compute; reflexivity).
  destruct (undo_then_redo Board.env p [] cmd w1 w2 Hh Hu He) as [Hpast [Hfuture _]].
  split.
  - rewrite Hpast. exact Hh.
  - rewrite Hfuture. reflexivity.
Defined.

(** X17. Executing a command and undoing it does not bring the log back to
    where it was: the past is again what it was, but the commands that could be
    redone before are gone and the only command left to redo is the one just
    undone. *)
Theorem execute_then_undo_forgets_future (env : Env) (p : Provider) (c : Command)
    (w1 w2 : World) :
  execute c (world p) = (Resolved tt, w1) ->
  undo c w1 = (Resolved tt, w2) ->
  let p' := snd (undoLast (snd (executeCommand c p))) in
  commandHistory p' = commandHistory p
  /\ redoStack p' = [c]
  /\ world p' = w2.
Proof.
  intros He Hu p'. unfold p'.
  rewrite (executeCommand_resolved p c w1 He). cbn [snd].
  rewrite (undoLast_resolved _ (commandHistory p) c w2);
    cbn [snd commandHistory redoStack world]; [| reflexivity | exact Hu].
  repeat split.
Qed.

Lemma execute_then_undo_forgets_future_witness :
  let older := Board.moveCmd 2 "todo" "done" in
  let cmd := Board.moveCmd 1 "todo" "done" in
  let p := Board.provider (Board.mkWorld (Storage.initial 0) true []) [] [older] in
  redoStack (snd (undoLast (snd (executeCommand cmd p)))) = [cmd].
Proof.
  cbv zeta.
  set (cmd := Board.moveCmd 1 "todo" "done").
  set (p := Board.provider (Board.mkWorld (Storage.initial 0) true []) []
              [Board.moveCmd 2 "todo" "done"]).
  set (w1 := snd (execute cmd (world p))).
  set (w2 := snd (undo cmd w1)).
  assert (He : execute cmd (world p) = (Resolved tt, w1)) by (vm_compute; reflexivity).
  assert (Hu : undo cmd w1 = (Resolved tt, w2)) by (vm_compute; reflexivity).
  exact (proj1 (proj2 (execute_then_undo_forgets_future Board.env p cmd w1 w2 He Hu))).
Defined.

(** X18. A [MoveTaskCommand] whose task id is not positive (the constructor
    gives -1 to anything that is neither a number nor an object with an id)
    makes no request: [execute] and [undo] reject with "Invalid task ID" and
    leave the world as it is, [executeCommand] changes nothing at all and
    shows no toast, and with such a command on top of the past [undo] keeps
    both stacks and shows "Undo failed". *)
Theorem invalid_move_command (env : Env) (c : MoveTaskCommand) (p : Provider)
    (h : list Command) :
  taskId c <= 0 ->
  let cmd := MoveTaskCommand_as_Command c in
  (forall w, execute cmd w = (Rejected "Invalid task ID", w))
  /\ (forall w, undo cmd w = (Rejected "Invalid task ID", w))
  /\ executeCommand cmd p
     = (Resolved tt, mkProvider (world p) (commandHistory p) (redoStack p) (toasts p))
  /\ (commandHistory p = h ++ [cmd] ->
      undoLast p
      = (Resolved tt,
         mkProvider (world p) (h ++ [cmd]) (redoStack p)
           (toasts p ++ [mkToast "Undo failed" "Could not undo the last action." true])))
  /\ (forall src tgt fn, taskId (newMoveTaskCommand ObjInvalid src tgt fn) = -1).
Proof.
  intros Hid cmd.
  assert (He : forall w, execute cmd w = (Rejected "Invalid task ID", w)).
  { intros w. unfold cmd. cbn [execute MoveTaskCommand_as_Command]. unfold move_execute.
    destruct (taskId c <=? 0) eqn:E; [reflexivity | apply Z.leb_gt in E; lia]. }
  assert (Hu : forall w, undo cmd w = (Rejected "Invalid task ID", w)).
  { intros w. unfold cmd. cbn [undo MoveTaskCommand_as_Command]. unfold move_undo.
    destruct (taskId c <=? 0) eqn:E; [reflexivity | apply Z.leb_gt in E; lia]. }
  split; [exact He|]. split; [exact Hu|]. split; [|split].
  - rewrite (executeCommand_rejected p cmd _ _ (He (world p))).
    unfold cmd. cbn [description MoveTaskCommand_as_Command].
    now rewrite move_description_drag.
  - intros Hh. exact (undoLast_rejected p h cmd _ _ Hh (Hu (world p))).
  - reflexivity.
Qed.

Lemma invalid_move_command_witness :
  let c := @newMoveTaskCommand Board.env ObjInvalid "todo" "done" None in
  let p := Board.start (Storage.initial 0) true in
  executeCommand (MoveTaskCommand_as_Command c) p = (Resolved tt, p).
Proof.
  cbv zeta.
  exact (proj1 (proj2 (proj2
           (invalid_move_command Board.env
              (newMoveTaskCommand ObjInvalid "todo" "done" None)
              (Board.start (Storage.initial 0) true) []
              ltac:(simpl; lia))))).
Defined.

(** X19. Undoing a move is executing the opposite move with its errors
    dropped: for a positive task id, [undo] does what the default [execute]
    of the command with source and target exchanged does, except that a
    rejection is turned into a normal return. *)
Theorem undo_is_reverse_move (env : Env) (c : MoveTaskCommand) (w : World) :
  0 < taskId c ->
  let back := mkMove (taskId c) (taskTitle c) (targetStatus c) (sourceStatus c) None in
  move_undo c w = tryCatch (move_execute back) (fun _ => ret tt) w.
Proof.
  intros Hid back. unfold move_undo, move_execute, back.
  cbn [taskId targetStatus customExecuteFn].
  destruct (taskId c <=? 0) eqn:E; [apply Z.leb_le in E; lia|].
  unfold tryCatch, bind, ret, throw.
  destruct (apiRequest _ w) as [[r|e] w1]; [|reflexivity].
  destruct (invalidateQueries w1) as [[[]|e] w2]; reflexivity.
Qed.

Lemma undo_is_reverse_move_witness :
  let c := @newMoveTaskCommand Board.env (ObjNumber 1) "todo" "done" None in
  let w := Board.mkWorld (Storage.initial 0) true [] in
  @move_undo Board.env c w
  = tryCatch (@move_execute Board.env (mkMove 1 (taskTitle c) "done" "todo" None))
      (fun _ => ret tt) w.
Proof.
  cbv zeta.
  exact (undo_is_reverse_move Board.env
           (newMoveTaskCommand (ObjNumber 1) "todo" "done" None)
           (Board.mkWorld (Storage.initial 0) true []) ltac:(simpl; lia)).
Defined.

(** X20. With a custom execute function, a rejection of that function on the
    fetched task is caught by the handler meant for a failed fetch: the
    function runs a second time, with the bare id, on the world its first run
    left; the outcome of [execute] is that of the second run followed by the
    invalidation. *)
Theorem custom_execute_runs_twice (env : Env) (c : MoveTaskCommand)
    (fn : Resp + Z -> string -> M World unit) (w w0 w1 : World) (r : Resp) (e : string) :
  0 < taskId c ->
  customExecuteFn c = Some fn ->
  apiRequest (GetTaskById (taskId c)) w = (Resolved r, w0) ->
  isObject r = true ->
  fn (inl r) (targetStatus c) w0 = (Rejected e, w1) ->
  move_execute c w = bind (fn (inr (taskId c)) (targetStatus c)) (fun _ => invalidateQueries) w1.
Proof.
  intros Hid Hfn Hget Hobj Hfirst. unfold move_execute.
  destruct (taskId c <=? 0) eqn:E; [apply Z.leb_le in E; lia|].
  rewrite Hfn. unfold tryCatch, bind, throw. rewrite Hget, Hobj, Hfirst.
  destruct (fn (inr (taskId c)) (targetStatus c) w1) as [[[]|e2] w2]; [|reflexivity].
  destruct (invalidateQueries w2) as [[[]|e3] w3]; reflexivity.
Qed.

Lemma custom_execute_runs_twice_witness :
  let fn := fun (x : Routes.Payload + Z) (st : string) =>
              match x with
              | inl _ => throw "not a task"
              | inr i => bind (Board.request (PatchStatus i (Board.topBody st)))
                           (fun _ => ret tt)
              end in
  let c := @newMoveTaskCommand Board.env (ObjNumber 1) "todo" "done" (Some fn) in
  let w := Board.mkWorld (Storage.initial 0) true [] in
  @move_execute Board.env c w
  = bind (fn (inr 1) "done") (fun _ => @invalidateQueries Board.env) w.
Proof.
  cbv zeta.
  set (fn := fun (x : Routes.Payload + Z) (st : string) =>
               match x with
               | inl _ => throw "not a task"
               | inr i => bind (Board.request (PatchStatus i (Board.topBody st)))
                            (fun _ => ret tt)
               end).
  set (w := Board.mkWorld (Storage.initial 0) true []).
  set (r := match fst (Board.request (GetTaskById 1) w) with
            | Resolved x => x
            | Rejected _ => Routes.PEmpty
            end).
  exact (custom_execute_runs_twice Board.env
           (@newMoveTaskCommand Board.env (ObjNumber 1) "todo" "done" (Some fn)) fn
           w w w r "not a task"
           ltac:(simpl; lia) eq_refl
           ltac:(vm_compute; reflexivity) ltac:(vm_compute; reflexivity)
           ltac:(reflexivity)).
Defined.

(** X21. A [ReorderTaskCommand] whose reorder went through but whose final
    [GET /api/tasks] rejects counts as failed: [execute] rejects with the
    error of the fetch, so [executeCommand] does not record the command (it
    cannot be undone) although its effect on the world stays. *)
Theorem reorder_fetch_failure_not_recorded (env : Env) (c : ReorderTaskCommand)
    (p : Provider) (w1 w2 w3 : World) (e : string) :
  executeFn c (world p) = (Resolved tt, w1) ->
  invalidateQueries w1 = (Resolved tt, w2) ->
  apiRequest GetTasks w2 = (Rejected e, w3) ->
  let cmd := ReorderTaskCommand_as_Command c in
  execute cmd (world p) = (Rejected e, w3)
  /\ fst (executeCommand cmd p) = Resolved tt
  /\ world (snd (executeCommand cmd p)) = w3
  /\ commandHistory (snd (executeCommand cmd p)) = commandHistory p
  /\ redoStack (snd (executeCommand cmd p)) = redoStack p.
Proof.
  intros Hfn Hinv Hget cmd.
  assert (He : execute cmd (world p) = (Rejected e, w3)).
  { unfold cmd. cbn [execute ReorderTaskCommand_as_Command].
    unfold reorder_execute, tryCatch, bind, throw.
    now rewrite Hfn, Hinv, Hget. }
  split; [exact He|].
  rewrite (executeCommand_rejected p cmd e w3 He).
  cbn [fst snd world commandHistory redoStack]. repeat split.
Qed.

Lemma reorder_fetch_failure_not_recorded_witness :
  let c := @mkReorder Board.env "todo" (Storage.getAllTasks Board.threeCards)
             (Board.thenOffline (Board.reorderRequest 12 10)) in
  let p := Board.start Board.threeCards true in
  let p' := snd (executeCommand (ReorderTaskCommand_as_Command c) p) in
  commandHistory p' = []
  /\ Board.titles (Storage.column (Storage.tasks (Board.server (world p'))) "todo")
     = ["C"; "A"; "B"].
Proof.
  cbv zeta.
  set (c := @mkReorder Board.env "todo" (Storage.getAllTasks Board.threeCards)
              (Board.thenOffline (Board.reorderRequest 12 10))).
  set (p := Board.start Board.threeCards true).
  set (w1 := snd (executeFn c (world p))).
  assert (Hfn : executeFn c (world p) = (Resolved tt, w1)) by (vm_compute; reflexivity).
  assert (Hinv : invalidateQueries w1 = (Resolved tt, w1)) by (vm_compute; reflexivity).
  assert (Hget : apiRequest GetTasks w1 = (Rejected "Failed to fetch", w1))
    by (vm_compute; reflexivity).
  destruct (reorder_fetch_failure_not_recorded Board.env c p w1 w1 w1 "Failed to fetch"
              Hfn Hinv Hget) as [_ [_ [Hw [Hh _]]]].
  split; [exact Hh|]. rewrite Hw. vm_compute. reflexivity.
Defined.

(* ===================================================================== *)
(** * Column order *)
(* ===================================================================== *)

Section IndexFacts.
Context {A : Type}.

Lemma findIndex_spec (p : A -> bool) (l : list A) (k : nat) :
  Js.findIndex p l = Some k ->
  exists y, nth_error l k = Some y /\ p y = true
            /\ forall n z, (n < k)%nat -> nth_error l n = Some z -> p z = false.
Proof.
  revert k. induction l as [|x r IH]; intros k H; [discriminate|].
  simpl in H. destruct (p x) eqn:Ex.
  - injection H as <-. exists x. repeat split; auto. intros n z Hn; lia.
  - destruct (Js.findIndex p r) as [k'|] eqn:Ek; [|discriminate].
    injection H as <-. destruct (IH k' eq_refl) as [y [Hy [Hp Hlt]]].
    exists y. repeat split; auto.
    intros [|n] z Hn Hz; simpl in Hz.
    + injection Hz as <-. exact Ex.
    + apply (Hlt n z); [lia | exact Hz].
Qed.

Lemma findIndex_none_inv (p : A -> bool) (l : list A) :
  Js.findIndex p l = None -> forall x, In x l -> p x = false.
Proof.
  induction l as [|y r IH]; intros H x Hin; [destruct Hin|].
  simpl in H. destruct (p y) eqn:Ey; [discriminate|].
  destruct (Js.findIndex p r) eqn:Er; [discriminate|].
  destruct Hin as [<- | Hin]; [exact Ey | now apply IH].
Qed.

Lemma findIndex_unique (p : A -> bool) (l : list A) (k : nat) (y : A) :
  nth_error l k = Some y -> p y = true ->
  (forall n z, nth_error l n = Some z -> p z = true -> n = k) ->
  Js.findIndex p l = Some k.
Proof.
  intros Hk Hp Huniq.
  destruct (findIndex_some p l y (nth_error_In _ _ Hk) Hp) as [k' [y' [Hf [Hn Hy]]]].
  rewrite Hf. f_equal. exact (Huniq k' y' Hn Hy).
Qed.

Lemma findIndex_lt (p : A -> bool) (l : list A) (k : nat) :
  Js.findIndex p l = Some k -> (k < List.length l)%nat.
Proof.
  intros H. destruct (findIndex_spec p l k H) as [y [Hy _]].
  apply nth_error_Some. congruence.
Qed.

Lemma length_assign (l : list A) (i : nat) (x : A) :
  List.length (Js.assign i x l) = List.length l.
Proof.
  revert i. induction l as [|y r IH]; intros i; destruct i; simpl; auto.
Qed.

Lemma nth_error_assign (l : list A) (i n : nat) (x : A) :
  (i < List.length l)%nat ->
  nth_error (Js.assign i x l) n = if Nat.eqb n i then Some x else nth_error l n.
Proof.
  revert i n. induction l as [|y r IH]; intros i n Hi; [simpl in Hi; lia|].
  destruct i as [|i]; destruct n as [|n]; simpl; try reflexivity.
  apply IH. simpl in Hi. lia.
Qed.

Lemma length_removeAt (l : list A) (i : nat) :
  (i < List.length l)%nat -> S (List.length (Js.removeAt i l)) = List.length l.
Proof.
  revert i. induction l as [|y r IH]; intros i Hi; [simpl in Hi; lia|].
  destruct i as [|i]; simpl; [reflexivity|].
  f_equal. apply IH. simpl in Hi. lia.
Qed.

Lemma length_insertAt (l : list A) (j : nat) (x : A) :
  List.length (Js.insertAt j x l) = S (List.length l).
Proof.
  revert j. induction l as [|y r IH]; intros j; destruct j; simpl; auto.
Qed.

Lemma nth_error_insertAt (l : list A) (j n : nat) (x : A) :
  (j <= List.length l)%nat ->
  nth_error (Js.insertAt j x l) n
  = if (n <? j)%nat then nth_error l n
    else if Nat.eqb n j then Some x else nth_error l (pred n).
Proof.
  revert j n. induction l as [|y r IH]; intros j n Hj.
  - simpl in Hj. assert (j = 0)%nat by lia. subst j.
    destruct n; reflexivity.
  - destruct j as [|j]; destruct n as [|n]; try reflexivity.
    cbn [Js.insertAt nth_error]. rewrite IH by (simpl in Hj; lia).
    change (S n <? S j)%nat with (n <? j)%nat.
    change (Nat.eqb (S n) (S j)) with (Nat.eqb n j).
    destruct (Nat.ltb_spec n j); [reflexivity|].
    destruct (Nat.eqb_spec n j); [reflexivity|].
    destruct n as [|n]; [lia | reflexivity].
Qed.

Lemma removeAt_insertAt (l : list A) (j : nat) (x : A) :
  (j <= List.length l)%nat -> Js.removeAt j (Js.insertAt j x l) = l.
Proof.
  revert j. induction l as [|y r IH]; intros j Hj.
  - simpl in Hj. assert (j = 0)%nat by lia. subst j. reflexivity.
  - destruct j as [|j]; [reflexivity|].
    cbn [Js.insertAt Js.removeAt]. f_equal. apply IH. simpl in Hj. lia.
Qed.

Lemma nth_error_mapi_from {B : Type} (f : A -> nat -> B) (l : list A) (i n : nat) :
  nth_error (Js.mapi_from i f l) n = option_map (fun x => f x (i + n)%nat) (nth_error l n).
Proof.
  revert i n. induction l as [|y r IH]; intros i n; [destruct n; reflexivity|].
  destruct n as [|n]; cbn [Js.mapi_from nth_error option_map].
  - now rewrite Nat.add_0_r.
  - rewrite IH. replace (i + S n)%nat with (S i + n)%nat by lia. reflexivity.
Qed.

Lemma length_mapi_from {B : Type} (f : A -> nat -> B) (l : list A) (i : nat) :
  List.length (Js.mapi_from i f l) = List.length l.
Proof.
  revert i. induction l as [|y r IH]; intros i; simpl; [reflexivity | now rewrite IH].
Qed.

End IndexFacts.

Lemma map_removeAt {A B : Type} (f : A -> B) (l : list A) (i : nat) :
  map f (Js.removeAt i l) = Js.removeAt i (map f l).
Proof.
  revert i. induction l as [|y r IH]; intros i; destruct i; simpl; try reflexivity.
  now rewrite IH.
Qed.

Lemma reindex_nth (cols : list Columns.ColumnData) (n : nat) :
  nth_error (Columns.reindex cols) n
  = option_map (fun c => Columns.with_index c n) (nth_error cols n).
Proof. unfold Columns.reindex. now rewrite nth_error_mapi_from. Qed.

Lemma reindex_length (cols : list Columns.ColumnData) :
  List.length (Columns.reindex cols) = List.length cols.
Proof. apply length_mapi_from. Qed.

Lemma reindex_reindex (cols : list Columns.ColumnData) :
  Columns.reindex (Columns.reindex cols) = Columns.reindex cols.
Proof.
  apply nth_error_ext. intros n. rewrite !reindex_nth.
  destruct (nth_error cols n); reflexivity.
Qed.

Lemma unindexed_reindex (cols : list Columns.ColumnData) :
  map unindexed (Columns.reindex cols) = map unindexed cols.
Proof.
  apply nth_error_ext. intros n. rewrite !nth_error_map, reindex_nth.
  destruct (nth_error cols n); reflexivity.
Qed.

Lemma swapped_back (i j n : nat) : swapped i j (swapped j i n) = n.
Proof.
  unfold swapped.
  destruct (Nat.eqb_spec n j), (Nat.eqb_spec n i); subst;
    repeat match goal with
           | |- context [Nat.eqb ?x ?y] => destruct (Nat.eqb_spec x y); subst
           end; congruence.
Qed.

Lemma swapped_sym (i j n : nat) : swapped i j n = swapped j i n.
Proof.
  unfold swapped.
  destruct (Nat.eqb_spec n j), (Nat.eqb_spec n i); subst; congruence.
Qed.

Lemma swapColumns_missing (a b : string) (cols : list Columns.ColumnData) :
  Js.findIndex (fun col => String.eqb (Columns.id col) a) cols = None
  \/ Js.findIndex (fun col => String.eqb (Columns.id col) b) cols = None ->
  Columns.swapColumns a b cols = cols.
Proof.
  intros [H | H]; unfold Columns.swapColumns; rewrite H; [reflexivity|].
  destruct (Js.findIndex (fun col => String.eqb (Columns.id col) a) cols); reflexivity.
Qed.

Lemma swapColumns_nth (a b : string) (cols : list Columns.ColumnData) (i j : nat) :
  Js.findIndex (fun col => String.eqb (Columns.id col) a) cols = Some i ->
  Js.findIndex (fun col => String.eqb (Columns.id col) b) cols = Some j ->
  forall n, nth_error (Columns.swapColumns a b cols) n
            = option_map (fun c => Columns.with_index c n)
                (nth_error cols (swapped i j n)).
Proof.
  intros Hi Hj n.
  destruct (findIndex_spec _ _ _ Hi) as [s [Hs _]].
  destruct (findIndex_spec _ _ _ Hj) as [t [Ht _]].
  pose proof (findIndex_lt _ _ _ Hi) as Li.
  pose proof (findIndex_lt _ _ _ Hj) as Lj.
  unfold Columns.swapColumns. rewrite Hi, Hj, Hs, Ht, reindex_nth. f_equal.
  rewrite nth_error_assign by (rewrite length_assign; lia).
  rewrite nth_error_assign by lia.
  unfold swapped.
  destruct (Nat.eqb_spec n j), (Nat.eqb_spec n i); subst; congruence.
Qed.

Lemma swapColumns_length (a b : string) (cols : list Columns.ColumnData) :
  List.length (Columns.swapColumns a b cols) = List.length cols.
Proof.
  unfold Columns.swapColumns.
  destruct (Js.findIndex _ cols) as [i|]; [|reflexivity].
  destruct (Js.findIndex _ cols) as [j|]; [|reflexivity].
  destruct (nth_error cols i); [|reflexivity].
  destruct (nth_error cols j); [|reflexivity].
  now rewrite reindex_length, !length_assign.
Qed.

Lemma swapColumns_indexed (a b : string) (cols : list Columns.ColumnData) :
  Columns.reindex cols = cols ->
  Columns.reindex (Columns.swapColumns a b cols) = Columns.swapColumns a b cols.
Proof.
  intros Hidx. unfold Columns.swapColumns.
  destruct (Js.findIndex _ cols) as [i|]; [|exact Hidx].
  destruct (Js.findIndex _ cols) as [j|]; [|exact Hidx].
  destruct (nth_error cols i); [|exact Hidx].
  destruct (nth_error cols j); [|exact Hidx].
  apply reindex_reindex.
Qed.

Lemma nodup_id_index (cols : list Columns.ColumnData) (m i : nat)
    (c s : Columns.ColumnData) :
  NoDup (map Columns.id cols) ->
  nth_error cols m = Some c -> nth_error cols i = Some s ->
  Columns.id c = Columns.id s -> m = i.
Proof.
  intros Hnd Hm Hi Hid.
  apply (proj1 (NoDup_nth_error (map Columns.id cols)) Hnd).
  - rewrite length_map. apply nth_error_Some. congruence.
  - rewrite !nth_error_map, Hm, Hi. simpl. now rewrite Hid.
Qed.

Lemma swapColumns_twice (a b : string) (cols : list Columns.ColumnData) :
  NoDup (map Columns.id cols) ->
  Columns.reindex cols = cols ->
  Columns.swapColumns a b (Columns.swapColumns a b cols) = cols.
Proof.
  intros Hnd Hidx.
  destruct (Js.findIndex (fun col => String.eqb (Columns.id col) a) cols) as [i|] eqn:Hi;
    [|now rewrite !(swapColumns_missing a b cols (or_introl Hi))].
  destruct (Js.findIndex (fun col => String.eqb (Columns.id col) b) cols) as [j|] eqn:Hj;
    [|now rewrite !(swapColumns_missing a b cols (or_intror Hj))].
  destruct (findIndex_spec _ _ _ Hi) as [s [Hs [Hsa _]]].
  destruct (findIndex_spec _ _ _ Hj) as [t [Ht [Htb _]]].
  apply String.eqb_eq in Hsa, Htb.
  pose proof (swapColumns_nth a b cols i j Hi Hj) as Hnth.
  assert (Hfind : forall x k y m,
             nth_error cols k = Some y -> Columns.id y = x -> swapped i j m = k ->
             Js.findIndex (fun col => String.eqb (Columns.id col) x)
               (Columns.swapColumns a b cols) = Some m).
  { intros x k y m Hy Hx Hm.
    apply (findIndex_unique _ _ m (Columns.with_index y m)).
    - rewrite Hnth, Hm, Hy. reflexivity.
    - simpl. rewrite Hx. apply String.eqb_refl.
    - intros n z Hz Hzx. rewrite Hnth in Hz.
      destruct (nth_error cols (swapped i j n)) as [c|] eqn:Ec; [|discriminate].
      injection Hz as <-. simpl in Hzx. apply String.eqb_eq in Hzx.
      assert (E : swapped i j n = k)
        by (apply (nodup_id_index cols _ _ c y Hnd Ec Hy); congruence).
      rewrite <- Hm in E.
      rewrite <- (swapped_back j i n), <- (swapped_back j i m). now rewrite E. }
  assert (Ha : swapped i j j = i).
  { unfold swapped. destruct (Nat.eqb_spec j i); [assumption|]. now rewrite Nat.eqb_refl. }
  assert (Hb : swapped i j i = j) by (unfold swapped; now rewrite Nat.eqb_refl).
  apply nth_error_ext. intros n.
  rewrite (swapColumns_nth a b _ j i (Hfind a i s j Hs Hsa Ha) (Hfind b j t i Ht Htb Hb)).
  rewrite Hnth, swapped_back.
  rewrite <- Hidx at 2. rewrite reindex_nth.
  destruct (nth_error cols n); reflexivity.
Qed.

Lemma findIndex_not_in (x : string) (cols : list Columns.ColumnData) :
  ~ In x (map Columns.id cols) ->
  Js.findIndex (fun col => String.eqb (Columns.id col) x) cols = None.
Proof.
  intros Hnot. apply findIndex_none. intros c Hc.
  apply String.eqb_neq. intros E. apply Hnot. rewrite <- E. now apply in_map.
Qed.

Lemma hook_eta (h : Columns.HookState) :
  Columns.mkHook (Columns.columns h) (Columns.draggedColumnId h) = h.
Proof. destruct h; reflexivity. Qed.

(** X22. [swapColumns] on two known columns exchanges the entries at the two
    places where the ids are first found and leaves every other entry where it
    is; each entry's [index] becomes its place in the array.  The number of
    columns stays, the order of the two arguments does not matter, and the
    result is numbered 0, 1, 2, ... whatever the indices were before. *)
Theorem swapColumns_exchanges (a b : string) (cols : list Columns.ColumnData) (i j : nat) :
  Js.findIndex (fun col => String.eqb (Columns.id col) a) cols = Some i ->
  Js.findIndex (fun col => String.eqb (Columns.id col) b) cols = Some j ->
  (forall n, nth_error (Columns.swapColumns a b cols) n
             = option_map (fun c => Columns.with_index c n)
                 (nth_error cols (swapped i j n)))
  /\ List.length (Columns.swapColumns a b cols) = List.length cols
  /\ Columns.swapColumns a b cols = Columns.swapColumns b a cols
  /\ map Columns.index (Columns.swapColumns a b cols)
     = map Z.of_nat (seq 0 (List.length cols)).
Proof.
  intros Hi Hj.
  pose proof (swapColumns_nth a b cols i j Hi Hj) as Hnth.
  split; [exact Hnth|]. split; [apply swapColumns_length|]. split.
  - apply nth_error_ext. intros n.
    rewrite Hnth, (swapColumns_nth b a cols j i Hj Hi). now rewrite swapped_sym.
  - apply nth_error_ext. intros n. rewrite !nth_error_map, Hnth.
    destruct (Nat.lt_ge_cases n (List.length cols)) as [Hlt | Hge].
    + rewrite nth_error_seq, (proj2 (Nat.ltb_lt _ _) Hlt).
      assert (Hs : (swapped i j n < List.length cols)%nat).
      { pose proof (findIndex_lt _ _ _ Hi). pose proof (findIndex_lt _ _ _ Hj).
        unfold swapped. destruct (Nat.eqb n i); [lia|]. destruct (Nat.eqb n j); lia. }
      destruct (nth_error cols (swapped i j n)) eqn:E;
        [reflexivity | apply nth_error_None in E; lia].
    + assert (Hs : swapped i j n = n).
      { pose proof (findIndex_lt _ _ _ Hi). pose proof (findIndex_lt _ _ _ Hj).
        unfold swapped.
        destruct (Nat.eqb_spec n i); [lia|]. destruct (Nat.eqb_spec n j); [lia | reflexivity]. }
      rewrite Hs, (proj2 (nth_error_None cols n) Hge).
      rewrite nth_error_seq, (proj2 (Nat.ltb_ge _ _) Hge). reflexivity.
Qed.

Lemma swapColumns_exchanges_witness :
  let cols := Columns.defaultColumns [] [] [] in
  map Columns.id (Columns.swapColumns "done" "todo" cols) = ["done"; "in-progress"; "todo"]
  /\ map Columns.index (Columns.swapColumns "done" "todo" cols) = [0; 1; 2].
Proof.
  cbv zeta.
  pose proof (swapColumns_exchanges "done" "todo" (Columns.defaultColumns [] [] []) 2 0
                ltac:(reflexivity) ltac:(reflexivity)) as [_ [_ [_ Hidx]]].
  split; [reflexivity | exact Hidx].
Defined.

(** X23. A drag over a column changes nothing when no column is being
    dragged, when the dragged id is the empty string, when the column is
    dragged over itself, and when the dragged or the target id is not among
    the columns; this holds for the hook's [handleDragOver] and for the board
    page's [handleColumnDragOver]. *)
Theorem column_drag_without_effect (t : string) (h : Columns.HookState) :
  Columns.draggedColumnId h = None
  \/ Columns.draggedColumnId h = Some ""
  \/ Columns.draggedColumnId h = Some t
  \/ (exists d, Columns.draggedColumnId h = Some d
                /\ (~ In d (map Columns.id (Columns.columns h))
                    \/ ~ In t (map Columns.id (Columns.columns h)))) ->
  Columns.handleDragOver t h = h /\ Columns.handleColumnDragOver t h = h.
Proof.
  unfold Columns.handleDragOver, Columns.handleColumnDragOver.
  intros [H | [H | [H | [d [H Hin]]]]]; rewrite H.
  - split; reflexivity.
  - split; reflexivity.
  - rewrite String.eqb_refl, orb_true_r. split; reflexivity.
  - split.
    + destruct (String.eqb d "" || String.eqb t d); [reflexivity|].
      rewrite swapColumns_missing, <- H; [apply hook_eta|].
      destruct Hin as [Hd | Ht]; [left | right]; now apply findIndex_not_in.
    + destruct (String.eqb d "" || String.eqb d t); [reflexivity|].
      destruct Hin as [Hd | Ht].
      * now rewrite (findIndex_not_in d _ Hd).
      * rewrite (findIndex_not_in t _ Ht).
        destruct (Js.findIndex (fun col => String.eqb (Columns.id col) d) _); reflexivity.
Qed.

Lemma column_drag_without_effect_witness :
  let h := Columns.mkHook (Columns.defaultColumns [] [] []) (Some "todo") in
  Columns.handleDragOver "backlog" h = h /\ Columns.handleColumnDragOver "backlog" h = h.
Proof.
  cbv zeta.
  apply (column_drag_without_effect "backlog"
           (Columns.mkHook (Columns.defaultColumns [] [] []) (Some "todo"))).
  right. right. right. exists "todo". split; [reflexivity|]. right.
  simpl. intros [H | [H | [H | []]]]; discriminate.
Defined.

(** X24. With distinct column ids and columns numbered by their place, the
    hook's [handleDragOver] undoes itself: dragging over the same target a
    second time gives back the state before the first. *)
Theorem drag_over_and_back (t : string) (h : Columns.HookState) :
  NoDup (map Columns.id (Columns.columns h)) ->
  Columns.reindex (Columns.columns h) = Columns.columns h ->
  Columns.handleDragOver t (Columns.handleDragOver t h) = h.
Proof.
  intros Hnd Hidx. destruct h as [cols dr]. cbn [Columns.columns] in Hnd, Hidx.
  unfold Columns.handleDragOver. cbn [Columns.draggedColumnId Columns.columns].
  destruct dr as [d|]; [|reflexivity].
  destruct (String.eqb d "" || String.eqb t d) eqn:E.
  - cbn [Columns.draggedColumnId]. now rewrite E.
  - cbn [Columns.draggedColumnId Columns.columns]. rewrite E.
    now rewrite (swapColumns_twice d t cols Hnd Hidx).
Qed.

Lemma drag_over_and_back_witness :
  let h := Columns.mkHook (Columns.defaultColumns [] [] []) (Some "todo") in
  map Columns.id (Columns.columns (Columns.handleDragOver "done" h))
  = ["done"; "in-progress"; "todo"]
  /\ Columns.handleDragOver "done" (Columns.handleDragOver "done" h) = h.
Proof.
  cbv zeta. split; [reflexivity|].
  apply (drag_over_and_back "done"
           (Columns.mkHook (Columns.defaultColumns [] [] []) (Some "todo"))).
  - simpl. repeat constructor; simpl; intuition discriminate.
  - reflexivity.
Defined.

(** X25. The board page's [handleColumnDragOver], for a dragged column and a
    different target that are both on the board, takes the dragged column out
    and puts it where the target was: it ends at the target's former place,
    the other columns keep their order among themselves, no column is lost,
    and the columns are numbered 0, 1, 2, ... afterwards. *)
Theorem handleColumnDragOver_moves (t d : string) (h : Columns.HookState) (i j : nat) :
  Columns.draggedColumnId h = Some d ->
  d <> "" -> d <> t ->
  Js.findIndex (fun col => String.eqb (Columns.id col) d) (Columns.columns h) = Some i ->
  Js.findIndex (fun col => String.eqb (Columns.id col) t) (Columns.columns h) = Some j ->
  let h' := Columns.handleColumnDragOver t h in
  Columns.draggedColumnId h' = Some d
  /\ List.length (Columns.columns h') = List.length (Columns.columns h)
  /\ (exists c, nth_error (Columns.columns h) i = Some c
                /\ nth_error (Columns.columns h') j = Some (Columns.with_index c j))
  /\ map unindexed (Js.removeAt j (Columns.columns h'))
     = map unindexed (Js.removeAt i (Columns.columns h))
  /\ Columns.reindex (Columns.columns h') = Columns.columns h'.
Proof.
  intros Hd Hne Hdt Hi Hj h'. unfold h', Columns.handleColumnDragOver.
  rewrite Hd, (proj2 (String.eqb_neq _ _) Hne), (proj2 (String.eqb_neq _ _) Hdt), Hi, Hj.
  cbn [orb].
  destruct (findIndex_spec _ _ _ Hi) as [c [Hc _]].
  pose proof (findIndex_lt _ _ _ Hi) as Li.
  pose proof (findIndex_lt _ _ _ Hj) as Lj.
  pose proof (length_removeAt (Columns.columns h) i Li) as Lr.
  rewrite Hc. cbn [Columns.columns Columns.draggedColumnId].
  split; [reflexivity|]. split; [|split; [|split]].
  - rewrite reindex_length, length_insertAt. exact Lr.
  - exists c. split; [reflexivity|].
    rewrite reindex_nth, nth_error_insertAt by lia.
    now rewrite Nat.ltb_irrefl, Nat.eqb_refl.
  - rewrite map_removeAt, unindexed_reindex, <- map_removeAt.
    now rewrite removeAt_insertAt by lia.
  - apply reindex_reindex.
Qed.

Lemma handleColumnDragOver_moves_witness :
  let h := Columns.mkHook (Columns.defaultColumns [] [] []) (Some "todo") in
  map Columns.id (Columns.columns (Columns.handleColumnDragOver "done" h))
  = ["in-progress"; "done"; "todo"]
  /\ Columns.reindex (Columns.columns (Columns.handleColumnDragOver "done" h))
     = Columns.columns (Columns.handleColumnDragOver "done" h).
Proof.
  cbv zeta. split; [reflexivity|].
  apply (handleColumnDragOver_moves "done" "todo"
           (Columns.mkHook (Columns.defaultColumns [] [] []) (Some "todo")) 0 2
           ltac:(reflexivity) ltac:(discriminate) ltac:(discriminate)
           ltac:(reflexivity) ltac:(reflexivity)).
Defined.

(** X26. For two neighbouring columns the two drag handlers agree: taking
    the dragged column out and putting it in at the target's place is the
    exchange [swapColumns] makes.  *)
Theorem neighbour_drag_is_swap (t d : string) (h : Columns.HookState) (i j : nat) :
  Columns.draggedColumnId h = Some d ->
  Js.findIndex (fun col => String.eqb (Columns.id col) d) (Columns.columns h) = Some i ->
  Js.findIndex (fun col => String.eqb (Columns.id col) t) (Columns.columns h) = Some j ->
  i = S j \/ j = S i ->
  Columns.handleColumnDragOver t h = Columns.handleDragOver t h.
Proof.
  intros Hd Hi Hj Hadj. unfold Columns.handleColumnDragOver, Columns.handleDragOver.
  rewrite Hd. rewrite (String.eqb_sym t d).
  destruct (String.eqb d "" || String.eqb d t) eqn:E; [reflexivity|].
  rewrite Hi, Hj.
  destruct (findIndex_spec _ _ _ Hi) as [c [Hc _]].
  pose proof (findIndex_lt _ _ _ Hi) as Li.
  pose proof (findIndex_lt _ _ _ Hj) as Lj.
  pose proof (length_removeAt (Columns.columns h) i Li) as Lr.
  rewrite Hc. f_equal.
  apply nth_error_ext. intros n.
  rewrite (swapColumns_nth d t _ i j Hi Hj), reindex_nth. f_equal.
  rewrite nth_error_insertAt by lia. rewrite !nth_error_removeAt.
  unfold swapped.
  destruct (Nat.ltb_spec n j), (Nat.eqb_spec n j), (Nat.eqb_spec n i),
    (Nat.ltb_spec n i), (Nat.ltb_spec (pred n) i);
    try lia; subst; try (symmetry; exact Hc); try (f_equal; lia).
Qed.

Lemma neighbour_drag_is_swap_witness :
  let h := Columns.mkHook (Columns.defaultColumns [] [] []) (Some "todo") in
  Columns.handleColumnDragOver "in-progress" h = Columns.handleDragOver "in-progress" h.
Proof.
  cbv zeta.
  apply (neighbour_drag_is_swap "in-progress" "todo"
           (Columns.mkHook (Columns.defaultColumns [] [] []) (Some "todo")) 0 1
           ltac:(reflexivity) ltac:(reflexivity) ltac:(reflexivity)
           ltac:(right; reflexivity)).
Defined.

Lemma updateColumnData_app (new prev : list Columns.ColumnData) :
  Columns.updateColumnData new prev
  = map (fun col =>
           match find (fun newCol => String.eqb (Columns.id newCol) (Columns.id col)) new with
           | Some newData => Columns.with_tasks col (Columns.tasks newData)
           | None => col
           end) prev
    ++ Js.mapi_from 0
         (fun newCol idx => Columns.with_index newCol (List.length prev + idx))
         (filter (fun newCol =>
                    negb (existsb (String.eqb (Columns.id newCol)) (map Columns.id prev)))
            new).
Proof.
  unfold Columns.updateColumnData.
  destruct (filter _ new) as [|c r]; [now rewrite app_nil_r|].
  now rewrite length_map.
Qed.

Lemma filter_none {A : Type} (f : A -> bool) (l : list A) :
  (forall x, In x l -> f x = false) -> filter f l = [].
Proof.
  induction l as [|y r IH]; intros H; [reflexivity|]. simpl.
  rewrite (H y (or_introl eq_refl)). apply IH. intros x Hx. apply H. now right.
Qed.

Lemma updated_id (new : list Columns.ColumnData) (col : Columns.ColumnData) :
  Columns.id
    match find (fun newCol => String.eqb (Columns.id newCol) (Columns.id col)) new with
    | Some newData => Columns.with_tasks col (Columns.tasks newData)
    | None => col
    end
  = Columns.id col.
Proof. destruct (find _ new); reflexivity. Qed.

Lemma find_by_column_id (new : list Columns.ColumnData) (c : Columns.ColumnData) :
  NoDup (map Columns.id new) -> In c new ->
  find (fun newCol => String.eqb (Columns.id newCol) (Columns.id c)) new = Some c.
Proof.
  induction new as [|x r IH]; intros Hnd Hin; [destruct Hin|].
  inversion Hnd as [|? ? Hnot Hnd']; subst. cbn [find].
  destruct Hin as [-> | Hin]; [now rewrite String.eqb_refl|].
  destruct (String.eqb_spec (Columns.id x) (Columns.id c)) as [E | _].
  - exfalso. apply Hnot. rewrite E. now apply in_map.
  - now apply IH.
Qed.

(** X27. [updateColumnData] never reorders or drops a column: the columns
    already shown keep their place, id, title, colour and index and take the
    tasks of the first incoming column with their id (their own when there is
    none); incoming columns with an unknown id are appended in their incoming
    order, numbered on from the number of columns shown.  Columns numbered by
    their place stay so, and with distinct incoming ids a second update with
    the same data changes nothing. *)
Theorem updateColumnData_keeps_order (new prev : list Columns.ColumnData) :
  let fresh :=
    filter (fun c => negb (existsb (String.eqb (Columns.id c)) (map Columns.id prev))) new in
  let next := Columns.updateColumnData new prev in
  map Columns.id next = map Columns.id prev ++ map Columns.id fresh
  /\ (forall n col, nth_error prev n = Some col ->
        exists col',
          nth_error next n = Some col'
          /\ Columns.id col' = Columns.id col
          /\ Columns.title col' = Columns.title col
          /\ Columns.colorClass col' = Columns.colorClass col
          /\ Columns.index col' = Columns.index col
          /\ Columns.tasks col'
             = match find (fun c => String.eqb (Columns.id c) (Columns.id col)) new with
               | Some newData => Columns.tasks newData
               | None => Columns.tasks col
               end)
  /\ (forall k c, nth_error fresh k = Some c ->
        nth_error next (List.length prev + k)
        = Some (Columns.with_index c (List.length prev + k)))
  /\ (Columns.reindex prev = prev -> Columns.reindex next = next)
  /\ (NoDup (map Columns.id new) -> Columns.updateColumnData new next = next).
Proof.
  intros fresh next.
  set (upd := fun col =>
         match find (fun newCol => String.eqb (Columns.id newCol) (Columns.id col)) new with
         | Some newData => Columns.with_tasks col (Columns.tasks newData)
         | None => col
         end).
  assert (Hnext : next = map upd prev
                         ++ Js.mapi_from 0
                              (fun newCol idx =>
                                 Columns.with_index newCol (List.length prev + idx)) fresh)
    by apply updateColumnData_app.
  assert (Hids : map Columns.id next = map Columns.id prev ++ map Columns.id fresh).
  { rewrite Hnext, map_app, map_map. f_equal.
    - apply map_ext. intros col. apply updated_id.
    - apply nth_error_ext. intros n.
      rewrite !nth_error_map, nth_error_mapi_from.
      destruct (nth_error fresh n); reflexivity. }
  assert (Hold : forall n col, nth_error prev n = Some col ->
                               nth_error next n = Some (upd col)).
  { intros n col Hn. rewrite Hnext, nth_error_app1.
    - now rewrite nth_error_map, Hn.
    - rewrite length_map. apply nth_error_Some. congruence. }
  assert (Hnew : forall k c, nth_error fresh k = Some c ->
                             nth_error next (List.length prev + k)
                             = Some (Columns.with_index c (List.length prev + k))).
  { intros k c Hk. rewrite Hnext, nth_error_app2 by (rewrite length_map; lia).
    rewrite length_map. replace (List.length prev + k - List.length prev)%nat with k by lia.
    now rewrite nth_error_mapi_from, Hk. }
  split; [exact Hids|]. split; [|split; [exact Hnew|split]].
  - intros n col Hn. exists (upd col). split; [now apply Hold|].
    unfold upd. destruct (find _ new); repeat split.
  - intros Hidx. apply nth_error_ext. intros n. rewrite reindex_nth.
    destruct (Nat.lt_ge_cases n (List.length prev)) as [Hlt | Hge].
    + destruct (nth_error prev n) as [col|] eqn:Hn;
        [|apply nth_error_None in Hn; lia].
      rewrite (Hold n col Hn). cbn [option_map]. f_equal.
      assert (Hcol : Columns.index col = Z.of_nat n).
      { rewrite <- Hidx, reindex_nth in Hn.
        destruct (nth_error prev n) as [c0|]; [|discriminate].
        injection Hn as <-. reflexivity. }
      unfold upd. destruct (find _ new);
        unfold Columns.with_index, Columns.with_tasks; cbn; rewrite <- Hcol;
        [reflexivity | destruct col; reflexivity].
    + destruct (nth_error fresh (n - List.length prev)) as [c|] eqn:Hk.
      * pose proof (Hnew _ c Hk) as H.
        replace (List.length prev + (n - List.length prev))%nat with n in H by lia.
        rewrite H. reflexivity.
      * assert (Hnone : nth_error next n = None).
        { apply nth_error_None. apply nth_error_None in Hk.
          rewrite Hnext, length_app, length_map, length_mapi_from. lia. }
        now rewrite Hnone.
  - intros Hnd.
    rewrite (updateColumnData_app new next).
    assert (Hfresh : filter (fun c => negb (existsb (String.eqb (Columns.id c))
                                          (map Columns.id next))) new = []).
    { apply filter_none. intros c Hc.
      apply negb_false_iff. apply existsb_exists. exists (Columns.id c).
      split; [|apply String.eqb_refl].
      rewrite Hids. apply in_or_app.
      destruct (existsb (String.eqb (Columns.id c)) (map Columns.id prev)) eqn:E.
      - left. apply existsb_exists in E. destruct E as [x [Hx Ex]].
        apply String.eqb_eq in Ex. now rewrite Ex.
      - right. apply in_map. apply filter_In. split; [exact Hc|]. now rewrite E. }
    rewrite Hfresh. cbn [Js.mapi_from]. rewrite app_nil_r.
    fold upd. rewrite <- (map_id next) at 2. apply map_ext_in.
    intros x Hx. rewrite Hnext in Hx. apply in_app_or in Hx. destruct Hx as [Hx | Hx].
    + apply in_map_iff in Hx. destruct Hx as [col [<- _]].
      unfold upd at 1. rewrite (updated_id new col : Columns.id (upd col) = Columns.id col).
      unfold upd. destruct (find _ new); [reflexivity|].
      destruct col; reflexivity.
    + apply In_nth_error in Hx. destruct Hx as [k Hk].
      rewrite nth_error_mapi_from in Hk.
      destruct (nth_error fresh k) as [c|] eqn:Ec; [|discriminate].
      injection Hk as <-.
      assert (Hc : In c new).
      { apply nth_error_In in Ec. unfold fresh in Ec. now apply filter_In in Ec. }
      unfold upd. cbn [Columns.id Columns.with_index].
      now rewrite (find_by_column_id new c Hnd Hc).
Qed.

Lemma updateColumnData_keeps_order_witness :
  let prev := Columns.swapColumns "todo" "done" (Columns.defaultColumns [] [] []) in
  let new := Columns.defaultColumns [] [] []
             ++ [Columns.mkColumn "review" "Review" "bg-info" [] 3] in
  map Columns.id (Columns.updateColumnData new prev)
  = ["done"; "in-progress"; "todo"; "review"]
  /\ Columns.updateColumnData new (Columns.updateColumnData new prev)
     = Columns.updateColumnData new prev.
Proof.
  cbv zeta.
  destruct (updateColumnData_keeps_order
              (Columns.defaultColumns [] [] []
               ++ [Columns.mkColumn "review" "Review" "bg-info" [] 3])
              (Columns.swapColumns "todo" "done" (Columns.defaultColumns [] [] [])))
    as [Hids [_ [_ [_ Hidem]]]].
  split; [exact Hids|].
  apply Hidem. simpl. repeat constructor; simpl; intuition discriminate.
Defined.
